(** * The GAMESS log-file parser of cclib: a shallow embedding

    The development follows [src/cclib/parser/gamessparser.py].  Python
    byte strings are [string]s, Python floats are IEEE binary64 values
    ([PrimFloat.float]), Python integers are [Z].  Attributes of the
    parser object that are created lazily ([hasattr] tests) are [option]
    fields.  An exception leaves the mutations made so far in place, so a
    raised outcome carries the state reached when it was raised. *)

From Stdlib Require Import ZArith List String Ascii Bool Lia.
From Stdlib Require Import PrimFloat SpecFloat FloatOps DecimalString.
Import ListNotations.
Open Scope string_scope.
Open Scope Z_scope.
Set Warnings "-inexact-float".

(** ** Python built-ins used by the parser *)

Module Py.

(** The exceptions the parser can raise. *)
Inductive exn : Type :=
| StopIteration | ValueError | IndexError | KeyError | ZeroDivisionError
| AssertionError | UnboundLocalError | AttributeError | OverflowError.

(** A Python expression evaluates to a value or raises. *)
Inductive res (A : Type) : Type :=
| Val (a : A)
| Exc (e : exn).
Arguments Val {A} a.
Arguments Exc {A} e.

Definition res_bind {A B} (r : res A) (k : A -> res B) : res B :=
  match r with
  | Val a => k a
  | Exc e => Exc e
  end.

(** [str.isspace] on one byte. *)
Definition isspace (c : ascii) : bool :=
  let n := nat_of_ascii c in
  (Nat.eqb n 32 || (Nat.leb 9 n && Nat.leb n 13))%bool.

Definition len (s : string) : Z := Z.of_nat (String.length s).

(** Normalisation of a slice bound, as Python does it: a negative bound
    counts from the end, and the result is clamped to [0, len]. *)
Definition clamp (n : Z) (i : Z) : nat :=
  let i' := if i <? 0 then i + n else i in
  Z.to_nat (Z.max 0 (Z.min n i')).

(** [s[i:j]]; a missing bound is [None]. *)
Definition slice (i j : option Z) (s : string) : string :=
  let n := len s in
  let lo := match i with Some i => clamp n i | None => O end in
  let hi := match j with Some j => clamp n j | None => String.length s end in
  substring lo (hi - lo) s.

(** [xs[i:j]] on a list. *)
Definition lslice {A} (i j : option Z) (xs : list A) : list A :=
  let n := Z.of_nat (List.length xs) in
  let lo := match i with Some i => clamp n i | None => O end in
  let hi := match j with Some j => clamp n j | None => List.length xs end in
  firstn (hi - lo) (skipn lo xs).

(** [xs[i]], with Python's negative indices. *)
Definition getitem {A} (xs : list A) (i : Z) : res A :=
  let n := Z.of_nat (List.length xs) in
  let i' := if i <? 0 then i + n else i in
  if i' <? 0 then Exc IndexError
  else match nth_error xs (Z.to_nat i') with
       | Some a => Val a
       | None => Exc IndexError
       end.

(** [s[i]] on a string. *)
Definition sgetitem (s : string) (i : Z) : res ascii :=
  let n := len s in
  let i' := if i <? 0 then i + n else i in
  if i' <? 0 then Exc IndexError
  else match String.get (Z.to_nat i') s with
       | Some c => Val c
       | None => Exc IndexError
       end.

(** [s.find(sub)]: the lowest index of an occurrence, or -1. *)
Definition find (sub s : string) : Z :=
  match String.index 0 sub s with
  | Some n => Z.of_nat n
  | None => -1
  end.

(** [sub in s]. *)
Definition contains (sub s : string) : bool := 0 <=? find sub s.

Fixpoint lstrip (s : string) : string :=
  match s with
  | EmptyString => EmptyString
  | String c s' => if isspace c then lstrip s' else s
  end.

Fixpoint rstrip (s : string) : string :=
  match s with
  | EmptyString => EmptyString
  | String c s' =>
      match rstrip s' with
      | EmptyString => if isspace c then EmptyString else String c EmptyString
      | t => String c t
      end
  end.

Definition strip (s : string) : string := rstrip (lstrip s).

(** Truth value of a string: non-empty. *)
Definition truthy (s : string) : bool :=
  match s with
  | EmptyString => false
  | _ => true
  end.

(** [s.split()]: maximal runs of non-whitespace.  [cur] is the word being
    read, if any. *)
Fixpoint split_from (cur : option string) (s : string) : list string :=
  match s with
  | EmptyString =>
      match cur with
      | Some w => [w]
      | None => []
      end
  | String c s' =>
      if isspace c then
        match cur with
        | Some w => w :: split_from None s'
        | None => split_from None s'
        end
      else
        match cur with
        | Some w => split_from (Some (w ++ String c EmptyString)) s'
        | None => split_from (Some (String c EmptyString)) s'
        end
  end.

Definition split (s : string) : list string := split_from None s.

(** [s.split(sep)] for a one-character separator: empty fields are kept. *)
Fixpoint split_on_from (sep : ascii) (cur : string) (s : string) : list string :=
  match s with
  | EmptyString => [cur]
  | String c s' =>
      if Ascii.eqb c sep then cur :: split_on_from sep EmptyString s'
      else split_on_from sep (cur ++ String c EmptyString) s'
  end.

Definition split_on (sep : ascii) (s : string) : list string :=
  split_on_from sep EmptyString s.

(** [s.replace(a, b)] for one-character [a] and [b]. *)
Fixpoint replace (a b : ascii) (s : string) : string :=
  match s with
  | EmptyString => EmptyString
  | String c s' => String (if Ascii.eqb c a then b else c) (replace a b s')
  end.

(** [xs.index(x)] on a list of strings. *)
Fixpoint lindex (x : string) (xs : list string) : res Z :=
  match xs with
  | [] => Exc ValueError
  | y :: ys =>
      if String.eqb x y then Val 0
      else res_bind (lindex x ys) (fun n => Val (n + 1))
  end.

(** *** Integer literals: [int(s)] *)

Definition digit_of (c : ascii) : option Z :=
  let n := nat_of_ascii c in
  if (Nat.leb 48 n && Nat.leb n 57)%bool then Some (Z.of_nat (n - 48)) else None.

(** Reads a non-empty run of decimal digits continuing the value [acc];
    returns the value, the number of digits read and the rest. *)
Fixpoint digits_from (acc : Z) (cnt : nat) (s : string) : Z * nat * string :=
  match s with
  | EmptyString => (acc, cnt, s)
  | String c s' =>
      match digit_of c with
      | Some d => digits_from (10 * acc + d) (S cnt) s'
      | None => (acc, cnt, s)
      end
  end.

(** An optional sign; [true] is minus. *)
Definition sign_of (s : string) : bool * string :=
  match s with
  | String "-" s' => (true, s')
  | String "+" s' => (false, s')
  | _ => (false, s)
  end.

(** [int(s)]: surrounding whitespace, an optional sign, decimal digits.
    Python 2 also skips whitespace between the sign and the digits. *)
Definition int_of_str (s : string) : res Z :=
  let '(neg, body) := sign_of (strip s) in
  match digits_from 0 0 (lstrip body) with
  | (v, S _, EmptyString) => Val (if neg then - v else v)
  | _ => Exc ValueError
  end.

(** *** Floating-point literals: [float(s)] *)

Definition lower (c : ascii) : ascii :=
  let n := nat_of_ascii c in
  if (Nat.leb 65 n && Nat.leb n 90)%bool then ascii_of_nat (n + 32) else c.

Fixpoint lowercase (s : string) : string :=
  match s with
  | EmptyString => EmptyString
  | String c s' => String (lower c) (lowercase s')
  end.

(** The binary64 value nearest to [(-1)^neg * m * 10^e] (ties to even). *)
Definition decimal_to_float (neg : bool) (m : Z) (e : Z) : float :=
  match m with
  | Zpos p =>
      if 0 <=? e then
        SF2Prim (binary_normalize prec emax
                   ((if neg then Zneg p else Zpos p) * 10 ^ e) 0 false)
      else
        match 10 ^ (- e) with
        | Zpos d =>
            SF2Prim (SFdiv prec emax (S754_finite neg p 0) (S754_finite false d 0))
        | _ => PrimFloat.nan
        end
  | _ => if neg then PrimFloat.neg_zero else PrimFloat.zero
  end.

(** The exponent part of a literal, if any: [e] or [E], an optional sign,
    digits.  Returns the exponent when the whole rest is consumed. *)
Definition exponent_of (s : string) : option Z :=
  match s with
  | EmptyString => Some 0
  | String c s' =>
      if Ascii.eqb (lower c) "e" then
        let '(neg, body) := sign_of s' in
        match digits_from 0 0 body with
        | (v, S _, EmptyString) => Some (if neg then - v else v)
        | _ => None
        end
      else None
  end.

(** [float(s)]: surrounding whitespace, an optional sign, then [inf],
    [infinity], [nan] in any case, or digits with an optional point and an
    optional exponent; at least one digit in the mantissa. *)
Definition float_of_str (s : string) : res PrimFloat.float :=
  let '(neg, body) := sign_of (strip s) in
  let lc := lowercase body in
  if (String.eqb lc "inf" || String.eqb lc "infinity")%bool then
    Val (if neg then PrimFloat.neg_infinity else PrimFloat.infinity)
  else if String.eqb lc "nan" then Val PrimFloat.nan
  else
    let '(ip, ni, rest) := digits_from 0 0 body in
    let '(m, nf, rest') :=
      match rest with
      | String "." r => digits_from ip 0 r
      | _ => (ip, O, rest)
      end in
    match (ni + nf)%nat with
    | O => Exc ValueError
    | S _ =>
        match exponent_of rest' with
        | Some e => Val (decimal_to_float neg m (e - Z.of_nat nf))
        | None => Exc ValueError
        end
    end.

(** [int(x)] of a float: truncation towards zero. *)
Definition int_of_float (x : PrimFloat.float) : res Z :=
  match Prim2SF x with
  | S754_zero _ => Val 0
  | S754_infinity _ => Exc OverflowError
  | S754_nan => Exc ValueError
  | S754_finite s m e =>
      let a := if 0 <=? e then Zpos m * 2 ^ e else Zpos m / 2 ^ (- e) in
      Val (if s then - a else a)
  end.

(** [round(x)]: the nearest integral float, halves away from zero. *)
Definition round (x : PrimFloat.float) : PrimFloat.float :=
  match Prim2SF x with
  | S754_finite s m e =>
      if 0 <=? e then x
      else
        let d := 2 ^ (- e) in
        let q := Zpos m / d in
        let r := Zpos m mod d in
        let a := if d <=? 2 * r then q + 1 else q in
        match a with
        | Zpos p => SF2Prim (binary_normalize prec emax (if s then Zneg p else Zpos p) 0 false)
        | _ => if s then PrimFloat.neg_zero else PrimFloat.zero
        end
  | _ => x
  end.

(** [xs[i] = v] on a list, with Python's negative indices. *)
Definition setitem {A} (xs : list A) (i : Z) (v : A) : res (list A) :=
  let n := Z.of_nat (List.length xs) in
  let i' := if i <? 0 then i + n else i in
  if ((i' <? 0) || (n <=? i'))%bool then Exc IndexError
  else Val (firstn (Z.to_nat i') xs ++ v :: skipn (S (Z.to_nat i')) xs)%list.

(** [range(n)] and [range(start, stop, step)] for a positive step. *)
Definition range (n : Z) : list Z := map Z.of_nat (seq 0 (Z.to_nat n)).

Definition range3 (start stop step : Z) : list Z :=
  map (fun k => start + step * Z.of_nat k)
      (seq 0 (Z.to_nat ((stop - start + step - 1) / step))).

(** [str.capitalize]: the first character in upper case, the others in
    lower case. *)
Definition upper (c : ascii) : ascii :=
  let n := nat_of_ascii c in
  if (Nat.leb 97 n && Nat.leb n 122)%bool then ascii_of_nat (n - 32) else c.

Definition capitalize (s : string) : string :=
  match s with
  | EmptyString => EmptyString
  | String c s' => String (upper c) (lowercase s')
  end.

(** ["%i" % n]: the decimal digits, with a minus sign if negative. *)
Definition str_of_int (n : Z) : string := NilZero.string_of_int (Z.to_int n).

(** [numpy.zeros((n, m), "d")] as its rows, and [a[r, c] = v]. *)
Definition zeros (n m : Z) : res (list (list PrimFloat.float)) :=
  if ((n <? 0) || (m <? 0))%bool then Exc ValueError
  else Val (repeat (repeat PrimFloat.zero (Z.to_nat m)) (Z.to_nat n)).

Definition setitem2 (a : list (list PrimFloat.float)) (r c : Z)
    (v : PrimFloat.float) : res (list (list PrimFloat.float)) :=
  res_bind (getitem a r) (fun row =>
  res_bind (setitem row c v) (fun row' =>
  setitem a r row')).

End Py.

Import Py.

(** ** The parser object and the input stream *)

(** [self.cihamtyp]: the strings "none", "saps" and "dets". *)
Inductive hamtyp : Type := ham_none | ham_saps | ham_dets.

(** A Python list, or the numpy array it is frozen into: [extend] exists
    on the first only. *)
Inductive pyseq (A : Type) : Type :=
| PyList (l : list A)
| NdArray (l : list A).
Arguments PyList {A} l.
Arguments NdArray {A} l.

Definition items {A} (s : pyseq A) : list A :=
  match s with
  | PyList l => l
  | NdArray l => l
  end.

(** An orbital with its spin channel; one CIS contribution
    [[(fromMO, MOtype), (toMO, MOtype), coeff]]. *)
Definition orbital : Type := Z * Z.
Definition contrib : Type := orbital * orbital * float.

(** A geometry: one coordinate triple (a list, as in the source) per atom. *)
Definition geometry : Type := list (list float).

(** One shell of [gbasis]: the symmetry and the (exponent, coefficient)
    pairs. *)
Definition shell : Type := string * list (float * float).

(** A two-dimensional numpy array: its rows. *)
Definition matrix : Type := list (list float).

(** The attributes of the parser object that the blocks of [extract] read
    or write.  The three flags are set by [before_parsing]; every other
    attribute is absent ([None]) until a block creates it. *)
Record GAMESS : Type := mkGAMESS {
  firststdorient : bool;
  geooptfinished : bool;
  cihamtyp : hamtyp;
  geotargets : option (list float);
  scfenergies : option (list float);
  ccenergies : option (list float);
  etsecs : option (list (list contrib));
  etsyms : option (list string);
  atomcoords : option (list geometry);
  atomnos : option (list Z);
  scftargets : option (list (list float));
  scfvalues : option (list (list (list float)));
  vibfreqs : option (list float);
  vibirs : option (list float);
  vibdisps : option (list geometry);
  vibramans : option (pyseq float);
  gbasis : option (list (list shell));
  mpenergies : option (list (list float));
  charge : option Z;
  mult : option Z;
  etenergies : option (list float);
  etoscs : option (list float);
  geovalues : option (list (list float));
  moenergies : option (list (list float));
  mosyms : option (list (list string));
  nmo : option Z;
  nbasis : option Z;
  mocoeffs : option (list matrix);
  atombasis : option (list (list Z));
  aonames : option (list string);
  homos : option (list Z);
  natom : option Z;
  aooverlaps : option matrix;
  coreelectrons : option (list Z)
}.

Definition set_firststdorient v (g : GAMESS) :=
  mkGAMESS
    v (geooptfinished g) (cihamtyp g) (geotargets g) (scfenergies g)
    (ccenergies g) (etsecs g) (etsyms g) (atomcoords g) (atomnos g)
    (scftargets g) (scfvalues g) (vibfreqs g) (vibirs g) (vibdisps g)
    (vibramans g) (gbasis g) (mpenergies g) (charge g) (mult g)
    (etenergies g) (etoscs g) (geovalues g) (moenergies g) (mosyms g) (nmo g)
    (nbasis g) (mocoeffs g) (atombasis g) (aonames g) (homos g) (natom g)
    (aooverlaps g) (coreelectrons g).
Definition set_geooptfinished v (g : GAMESS) :=
  mkGAMESS
    (firststdorient g) v (cihamtyp g) (geotargets g) (scfenergies g)
    (ccenergies g) (etsecs g) (etsyms g) (atomcoords g) (atomnos g)
    (scftargets g) (scfvalues g) (vibfreqs g) (vibirs g) (vibdisps g)
    (vibramans g) (gbasis g) (mpenergies g) (charge g) (mult g)
    (etenergies g) (etoscs g) (geovalues g) (moenergies g) (mosyms g) (nmo g)
    (nbasis g) (mocoeffs g) (atombasis g) (aonames g) (homos g) (natom g)
    (aooverlaps g) (coreelectrons g).
Definition set_cihamtyp v (g : GAMESS) :=
  mkGAMESS
    (firststdorient g) (geooptfinished g) v (geotargets g) (scfenergies g)
    (ccenergies g) (etsecs g) (etsyms g) (atomcoords g) (atomnos g)
    (scftargets g) (scfvalues g) (vibfreqs g) (vibirs g) (vibdisps g)
    (vibramans g) (gbasis g) (mpenergies g) (charge g) (mult g)
    (etenergies g) (etoscs g) (geovalues g) (moenergies g) (mosyms g) (nmo g)
    (nbasis g) (mocoeffs g) (atombasis g) (aonames g) (homos g) (natom g)
    (aooverlaps g) (coreelectrons g).
Definition set_geotargets v (g : GAMESS) :=
  mkGAMESS
    (firststdorient g) (geooptfinished g) (cihamtyp g) v (scfenergies g)
    (ccenergies g) (etsecs g) (etsyms g) (atomcoords g) (atomnos g)
    (scftargets g) (scfvalues g) (vibfreqs g) (vibirs g) (vibdisps g)
    (vibramans g) (gbasis g) (mpenergies g) (charge g) (mult g)
    (etenergies g) (etoscs g) (geovalues g) (moenergies g) (mosyms g) (nmo g)
    (nbasis g) (mocoeffs g) (atombasis g) (aonames g) (homos g) (natom g)
    (aooverlaps g) (coreelectrons g).
Definition set_scfenergies v (g : GAMESS) :=
  mkGAMESS
    (firststdorient g) (geooptfinished g) (cihamtyp g) (geotargets g) v
    (ccenergies g) (etsecs g) (etsyms g) (atomcoords g) (atomnos g)
    (scftargets g) (scfvalues g) (vibfreqs g) (vibirs g) (vibdisps g)
    (vibramans g) (gbasis g) (mpenergies g) (charge g) (mult g)
    (etenergies g) (etoscs g) (geovalues g) (moenergies g) (mosyms g) (nmo g)
    (nbasis g) (mocoeffs g) (atombasis g) (aonames g) (homos g) (natom g)
    (aooverlaps g) (coreelectrons g).
Definition set_ccenergies v (g : GAMESS) :=
  mkGAMESS
    (firststdorient g) (geooptfinished g) (cihamtyp g) (geotargets g)
    (scfenergies g) v (etsecs g) (etsyms g) (atomcoords g) (atomnos g)
    (scftargets g) (scfvalues g) (vibfreqs g) (vibirs g) (vibdisps g)
    (vibramans g) (gbasis g) (mpenergies g) (charge g) (mult g)
    (etenergies g) (etoscs g) (geovalues g) (moenergies g) (mosyms g) (nmo g)
    (nbasis g) (mocoeffs g) (atombasis g) (aonames g) (homos g) (natom g)
    (aooverlaps g) (coreelectrons g).
Definition set_etsecs v (g : GAMESS) :=
  mkGAMESS
    (firststdorient g) (geooptfinished g) (cihamtyp g) (geotargets g)
    (scfenergies g) (ccenergies g) v (etsyms g) (atomcoords g) (atomnos g)
    (scftargets g) (scfvalues g) (vibfreqs g) (vibirs g) (vibdisps g)
    (vibramans g) (gbasis g) (mpenergies g) (charge g) (mult g)
    (etenergies g) (etoscs g) (geovalues g) (moenergies g) (mosyms g) (nmo g)
    (nbasis g) (mocoeffs g) (atombasis g) (aonames g) (homos g) (natom g)
    (aooverlaps g) (coreelectrons g).
Definition set_etsyms v (g : GAMESS) :=
  mkGAMESS
    (firststdorient g) (geooptfinished g) (cihamtyp g) (geotargets g)
    (scfenergies g) (ccenergies g) (etsecs g) v (atomcoords g) (atomnos g)
    (scftargets g) (scfvalues g) (vibfreqs g) (vibirs g) (vibdisps g)
    (vibramans g) (gbasis g) (mpenergies g) (charge g) (mult g)
    (etenergies g) (etoscs g) (geovalues g) (moenergies g) (mosyms g) (nmo g)
    (nbasis g) (mocoeffs g) (atombasis g) (aonames g) (homos g) (natom g)
    (aooverlaps g) (coreelectrons g).
Definition set_atomcoords v (g : GAMESS) :=
  mkGAMESS
    (firststdorient g) (geooptfinished g) (cihamtyp g) (geotargets g)
    (scfenergies g) (ccenergies g) (etsecs g) (etsyms g) v (atomnos g)
    (scftargets g) (scfvalues g) (vibfreqs g) (vibirs g) (vibdisps g)
    (vibramans g) (gbasis g) (mpenergies g) (charge g) (mult g)
    (etenergies g) (etoscs g) (geovalues g) (moenergies g) (mosyms g) (nmo g)
    (nbasis g) (mocoeffs g) (atombasis g) (aonames g) (homos g) (natom g)
    (aooverlaps g) (coreelectrons g).
Definition set_atomnos v (g : GAMESS) :=
  mkGAMESS
    (firststdorient g) (geooptfinished g) (cihamtyp g) (geotargets g)
    (scfenergies g) (ccenergies g) (etsecs g) (etsyms g) (atomcoords g) v
    (scftargets g) (scfvalues g) (vibfreqs g) (vibirs g) (vibdisps g)
    (vibramans g) (gbasis g) (mpenergies g) (charge g) (mult g)
    (etenergies g) (etoscs g) (geovalues g) (moenergies g) (mosyms g) (nmo g)
    (nbasis g) (mocoeffs g) (atombasis g) (aonames g) (homos g) (natom g)
    (aooverlaps g) (coreelectrons g).
Definition set_scftargets v (g : GAMESS) :=
  mkGAMESS
    (firststdorient g) (geooptfinished g) (cihamtyp g) (geotargets g)
    (scfenergies g) (ccenergies g) (etsecs g) (etsyms g) (atomcoords g)
    (atomnos g) v (scfvalues g) (vibfreqs g) (vibirs g) (vibdisps g)
    (vibramans g) (gbasis g) (mpenergies g) (charge g) (mult g)
    (etenergies g) (etoscs g) (geovalues g) (moenergies g) (mosyms g) (nmo g)
    (nbasis g) (mocoeffs g) (atombasis g) (aonames g) (homos g) (natom g)
    (aooverlaps g) (coreelectrons g).
Definition set_scfvalues v (g : GAMESS) :=
  mkGAMESS
    (firststdorient g) (geooptfinished g) (cihamtyp g) (geotargets g)
    (scfenergies g) (ccenergies g) (etsecs g) (etsyms g) (atomcoords g)
    (atomnos g) (scftargets g) v (vibfreqs g) (vibirs g) (vibdisps g)
    (vibramans g) (gbasis g) (mpenergies g) (charge g) (mult g)
    (etenergies g) (etoscs g) (geovalues g) (moenergies g) (mosyms g) (nmo g)
    (nbasis g) (mocoeffs g) (atombasis g) (aonames g) (homos g) (natom g)
    (aooverlaps g) (coreelectrons g).
Definition set_vibfreqs v (g : GAMESS) :=
  mkGAMESS
    (firststdorient g) (geooptfinished g) (cihamtyp g) (geotargets g)
    (scfenergies g) (ccenergies g) (etsecs g) (etsyms g) (atomcoords g)
    (atomnos g) (scftargets g) (scfvalues g) v (vibirs g) (vibdisps g)
    (vibramans g) (gbasis g) (mpenergies g) (charge g) (mult g)
    (etenergies g) (etoscs g) (geovalues g) (moenergies g) (mosyms g) (nmo g)
    (nbasis g) (mocoeffs g) (atombasis g) (aonames g) (homos g) (natom g)
    (aooverlaps g) (coreelectrons g).
Definition set_vibirs v (g : GAMESS) :=
  mkGAMESS
    (firststdorient g) (geooptfinished g) (cihamtyp g) (geotargets g)
    (scfenergies g) (ccenergies g) (etsecs g) (etsyms g) (atomcoords g)
    (atomnos g) (scftargets g) (scfvalues g) (vibfreqs g) v (vibdisps g)
    (vibramans g) (gbasis g) (mpenergies g) (charge g) (mult g)
    (etenergies g) (etoscs g) (geovalues g) (moenergies g) (mosyms g) (nmo g)
    (nbasis g) (mocoeffs g) (atombasis g) (aonames g) (homos g) (natom g)
    (aooverlaps g) (coreelectrons g).
Definition set_vibdisps v (g : GAMESS) :=
  mkGAMESS
    (firststdorient g) (geooptfinished g) (cihamtyp g) (geotargets g)
    (scfenergies g) (ccenergies g) (etsecs g) (etsyms g) (atomcoords g)
    (atomnos g) (scftargets g) (scfvalues g) (vibfreqs g) (vibirs g) v
    (vibramans g) (gbasis g) (mpenergies g) (charge g) (mult g)
    (etenergies g) (etoscs g) (geovalues g) (moenergies g) (mosyms g) (nmo g)
    (nbasis g) (mocoeffs g) (atombasis g) (aonames g) (homos g) (natom g)
    (aooverlaps g) (coreelectrons g).
Definition set_vibramans v (g : GAMESS) :=
  mkGAMESS
    (firststdorient g) (geooptfinished g) (cihamtyp g) (geotargets g)
    (scfenergies g) (ccenergies g) (etsecs g) (etsyms g) (atomcoords g)
    (atomnos g) (scftargets g) (scfvalues g) (vibfreqs g) (vibirs g)
    (vibdisps g) v (gbasis g) (mpenergies g) (charge g) (mult g)
    (etenergies g) (etoscs g) (geovalues g) (moenergies g) (mosyms g) (nmo g)
    (nbasis g) (mocoeffs g) (atombasis g) (aonames g) (homos g) (natom g)
    (aooverlaps g) (coreelectrons g).
Definition set_gbasis v (g : GAMESS) :=
  mkGAMESS
    (firststdorient g) (geooptfinished g) (cihamtyp g) (geotargets g)
    (scfenergies g) (ccenergies g) (etsecs g) (etsyms g) (atomcoords g)
    (atomnos g) (scftargets g) (scfvalues g) (vibfreqs g) (vibirs g)
    (vibdisps g) (vibramans g) v (mpenergies g) (charge g) (mult g)
    (etenergies g) (etoscs g) (geovalues g) (moenergies g) (mosyms g) (nmo g)
    (nbasis g) (mocoeffs g) (atombasis g) (aonames g) (homos g) (natom g)
    (aooverlaps g) (coreelectrons g).
Definition set_mpenergies v (g : GAMESS) :=
  mkGAMESS
    (firststdorient g) (geooptfinished g) (cihamtyp g) (geotargets g)
    (scfenergies g) (ccenergies g) (etsecs g) (etsyms g) (atomcoords g)
    (atomnos g) (scftargets g) (scfvalues g) (vibfreqs g) (vibirs g)
    (vibdisps g) (vibramans g) (gbasis g) v (charge g) (mult g)
    (etenergies g) (etoscs g) (geovalues g) (moenergies g) (mosyms g) (nmo g)
    (nbasis g) (mocoeffs g) (atombasis g) (aonames g) (homos g) (natom g)
    (aooverlaps g) (coreelectrons g).
Definition set_charge v (g : GAMESS) :=
  mkGAMESS
    (firststdorient g) (geooptfinished g) (cihamtyp g) (geotargets g)
    (scfenergies g) (ccenergies g) (etsecs g) (etsyms g) (atomcoords g)
    (atomnos g) (scftargets g) (scfvalues g) (vibfreqs g) (vibirs g)
    (vibdisps g) (vibramans g) (gbasis g) (mpenergies g) v (mult g)
    (etenergies g) (etoscs g) (geovalues g) (moenergies g) (mosyms g) (nmo g)
    (nbasis g) (mocoeffs g) (atombasis g) (aonames g) (homos g) (natom g)
    (aooverlaps g) (coreelectrons g).
Definition set_mult v (g : GAMESS) :=
  mkGAMESS
    (firststdorient g) (geooptfinished g) (cihamtyp g) (geotargets g)
    (scfenergies g) (ccenergies g) (etsecs g) (etsyms g) (atomcoords g)
    (atomnos g) (scftargets g) (scfvalues g) (vibfreqs g) (vibirs g)
    (vibdisps g) (vibramans g) (gbasis g) (mpenergies g) (charge g) v
    (etenergies g) (etoscs g) (geovalues g) (moenergies g) (mosyms g) (nmo g)
    (nbasis g) (mocoeffs g) (atombasis g) (aonames g) (homos g) (natom g)
    (aooverlaps g) (coreelectrons g).
Definition set_etenergies v (g : GAMESS) :=
  mkGAMESS
    (firststdorient g) (geooptfinished g) (cihamtyp g) (geotargets g)
    (scfenergies g) (ccenergies g) (etsecs g) (etsyms g) (atomcoords g)
    (atomnos g) (scftargets g) (scfvalues g) (vibfreqs g) (vibirs g)
    (vibdisps g) (vibramans g) (gbasis g) (mpenergies g) (charge g) (mult g)
    v (etoscs g) (geovalues g) (moenergies g) (mosyms g) (nmo g) (nbasis g)
    (mocoeffs g) (atombasis g) (aonames g) (homos g) (natom g) (aooverlaps g)
    (coreelectrons g).
Definition set_etoscs v (g : GAMESS) :=
  mkGAMESS
    (firststdorient g) (geooptfinished g) (cihamtyp g) (geotargets g)
    (scfenergies g) (ccenergies g) (etsecs g) (etsyms g) (atomcoords g)
    (atomnos g) (scftargets g) (scfvalues g) (vibfreqs g) (vibirs g)
    (vibdisps g) (vibramans g) (gbasis g) (mpenergies g) (charge g) (mult g)
    (etenergies g) v (geovalues g) (moenergies g) (mosyms g) (nmo g)
    (nbasis g) (mocoeffs g) (atombasis g) (aonames g) (homos g) (natom g)
    (aooverlaps g) (coreelectrons g).
Definition set_geovalues v (g : GAMESS) :=
  mkGAMESS
    (firststdorient g) (geooptfinished g) (cihamtyp g) (geotargets g)
    (scfenergies g) (ccenergies g) (etsecs g) (etsyms g) (atomcoords g)
    (atomnos g) (scftargets g) (scfvalues g) (vibfreqs g) (vibirs g)
    (vibdisps g) (vibramans g) (gbasis g) (mpenergies g) (charge g) (mult g)
    (etenergies g) (etoscs g) v (moenergies g) (mosyms g) (nmo g) (nbasis g)
    (mocoeffs g) (atombasis g) (aonames g) (homos g) (natom g) (aooverlaps g)
    (coreelectrons g).
Definition set_moenergies v (g : GAMESS) :=
  mkGAMESS
    (firststdorient g) (geooptfinished g) (cihamtyp g) (geotargets g)
    (scfenergies g) (ccenergies g) (etsecs g) (etsyms g) (atomcoords g)
    (atomnos g) (scftargets g) (scfvalues g) (vibfreqs g) (vibirs g)
    (vibdisps g) (vibramans g) (gbasis g) (mpenergies g) (charge g) (mult g)
    (etenergies g) (etoscs g) (geovalues g) v (mosyms g) (nmo g) (nbasis g)
    (mocoeffs g) (atombasis g) (aonames g) (homos g) (natom g) (aooverlaps g)
    (coreelectrons g).
Definition set_mosyms v (g : GAMESS) :=
  mkGAMESS
    (firststdorient g) (geooptfinished g) (cihamtyp g) (geotargets g)
    (scfenergies g) (ccenergies g) (etsecs g) (etsyms g) (atomcoords g)
    (atomnos g) (scftargets g) (scfvalues g) (vibfreqs g) (vibirs g)
    (vibdisps g) (vibramans g) (gbasis g) (mpenergies g) (charge g) (mult g)
    (etenergies g) (etoscs g) (geovalues g) (moenergies g) v (nmo g)
    (nbasis g) (mocoeffs g) (atombasis g) (aonames g) (homos g) (natom g)
    (aooverlaps g) (coreelectrons g).
Definition set_nmo v (g : GAMESS) :=
  mkGAMESS
    (firststdorient g) (geooptfinished g) (cihamtyp g) (geotargets g)
    (scfenergies g) (ccenergies g) (etsecs g) (etsyms g) (atomcoords g)
    (atomnos g) (scftargets g) (scfvalues g) (vibfreqs g) (vibirs g)
    (vibdisps g) (vibramans g) (gbasis g) (mpenergies g) (charge g) (mult g)
    (etenergies g) (etoscs g) (geovalues g) (moenergies g) (mosyms g) v
    (nbasis g) (mocoeffs g) (atombasis g) (aonames g) (homos g) (natom g)
    (aooverlaps g) (coreelectrons g).
Definition set_nbasis v (g : GAMESS) :=
  mkGAMESS
    (firststdorient g) (geooptfinished g) (cihamtyp g) (geotargets g)
    (scfenergies g) (ccenergies g) (etsecs g) (etsyms g) (atomcoords g)
    (atomnos g) (scftargets g) (scfvalues g) (vibfreqs g) (vibirs g)
    (vibdisps g) (vibramans g) (gbasis g) (mpenergies g) (charge g) (mult g)
    (etenergies g) (etoscs g) (geovalues g) (moenergies g) (mosyms g) (nmo g)
    v (mocoeffs g) (atombasis g) (aonames g) (homos g) (natom g)
    (aooverlaps g) (coreelectrons g).
Definition set_mocoeffs v (g : GAMESS) :=
  mkGAMESS
    (firststdorient g) (geooptfinished g) (cihamtyp g) (geotargets g)
    (scfenergies g) (ccenergies g) (etsecs g) (etsyms g) (atomcoords g)
    (atomnos g) (scftargets g) (scfvalues g) (vibfreqs g) (vibirs g)
    (vibdisps g) (vibramans g) (gbasis g) (mpenergies g) (charge g) (mult g)
    (etenergies g) (etoscs g) (geovalues g) (moenergies g) (mosyms g) (nmo g)
    (nbasis g) v (atombasis g) (aonames g) (homos g) (natom g) (aooverlaps g)
    (coreelectrons g).
Definition set_atombasis v (g : GAMESS) :=
  mkGAMESS
    (firststdorient g) (geooptfinished g) (cihamtyp g) (geotargets g)
    (scfenergies g) (ccenergies g) (etsecs g) (etsyms g) (atomcoords g)
    (atomnos g) (scftargets g) (scfvalues g) (vibfreqs g) (vibirs g)
    (vibdisps g) (vibramans g) (gbasis g) (mpenergies g) (charge g) (mult g)
    (etenergies g) (etoscs g) (geovalues g) (moenergies g) (mosyms g) (nmo g)
    (nbasis g) (mocoeffs g) v (aonames g) (homos g) (natom g) (aooverlaps g)
    (coreelectrons g).
Definition set_aonames v (g : GAMESS) :=
  mkGAMESS
    (firststdorient g) (geooptfinished g) (cihamtyp g) (geotargets g)
    (scfenergies g) (ccenergies g) (etsecs g) (etsyms g) (atomcoords g)
    (atomnos g) (scftargets g) (scfvalues g) (vibfreqs g) (vibirs g)
    (vibdisps g) (vibramans g) (gbasis g) (mpenergies g) (charge g) (mult g)
    (etenergies g) (etoscs g) (geovalues g) (moenergies g) (mosyms g) (nmo g)
    (nbasis g) (mocoeffs g) (atombasis g) v (homos g) (natom g)
    (aooverlaps g) (coreelectrons g).
Definition set_homos v (g : GAMESS) :=
  mkGAMESS
    (firststdorient g) (geooptfinished g) (cihamtyp g) (geotargets g)
    (scfenergies g) (ccenergies g) (etsecs g) (etsyms g) (atomcoords g)
    (atomnos g) (scftargets g) (scfvalues g) (vibfreqs g) (vibirs g)
    (vibdisps g) (vibramans g) (gbasis g) (mpenergies g) (charge g) (mult g)
    (etenergies g) (etoscs g) (geovalues g) (moenergies g) (mosyms g) (nmo g)
    (nbasis g) (mocoeffs g) (atombasis g) (aonames g) v (natom g)
    (aooverlaps g) (coreelectrons g).
Definition set_natom v (g : GAMESS) :=
  mkGAMESS
    (firststdorient g) (geooptfinished g) (cihamtyp g) (geotargets g)
    (scfenergies g) (ccenergies g) (etsecs g) (etsyms g) (atomcoords g)
    (atomnos g) (scftargets g) (scfvalues g) (vibfreqs g) (vibirs g)
    (vibdisps g) (vibramans g) (gbasis g) (mpenergies g) (charge g) (mult g)
    (etenergies g) (etoscs g) (geovalues g) (moenergies g) (mosyms g) (nmo g)
    (nbasis g) (mocoeffs g) (atombasis g) (aonames g) (homos g) v
    (aooverlaps g) (coreelectrons g).
Definition set_aooverlaps v (g : GAMESS) :=
  mkGAMESS
    (firststdorient g) (geooptfinished g) (cihamtyp g) (geotargets g)
    (scfenergies g) (ccenergies g) (etsecs g) (etsyms g) (atomcoords g)
    (atomnos g) (scftargets g) (scfvalues g) (vibfreqs g) (vibirs g)
    (vibdisps g) (vibramans g) (gbasis g) (mpenergies g) (charge g) (mult g)
    (etenergies g) (etoscs g) (geovalues g) (moenergies g) (mosyms g) (nmo g)
    (nbasis g) (mocoeffs g) (atombasis g) (aonames g) (homos g) (natom g) v
    (coreelectrons g).
Definition set_coreelectrons v (g : GAMESS) :=
  mkGAMESS
    (firststdorient g) (geooptfinished g) (cihamtyp g) (geotargets g)
    (scfenergies g) (ccenergies g) (etsecs g) (etsyms g) (atomcoords g)
    (atomnos g) (scftargets g) (scfvalues g) (vibfreqs g) (vibirs g)
    (vibdisps g) (vibramans g) (gbasis g) (mpenergies g) (charge g) (mult g)
    (etenergies g) (etoscs g) (geovalues g) (moenergies g) (mosyms g) (nmo g)
    (nbasis g) (mocoeffs g) (atombasis g) (aonames g) (homos g) (natom g)
    (aooverlaps g) v.

(** A parser object on which no block has run yet. *)
Definition new_GAMESS : GAMESS :=
  mkGAMESS
    true false ham_none None None None None None None None None None None
    None None None None None None None None None None None None None None
    None None None None None None None.

(** [before_parsing]: the three flags get their initial values. *)
Definition before_parsing (g : GAMESS) : GAMESS :=
  set_cihamtyp ham_none (set_geooptfinished false (set_firststdorient true g)).

(** The state a block runs in: the lines not yet read from [inputfile],
    and the parser object. *)
Record pstate : Type := mkState {
  inputfile : list string;
  self : GAMESS
}.

(** What running a piece of the parser gives: a value or an exception,
    each with the state reached.  [Timeout] is the exhausted budget of a
    loop whose passes read a varying number of lines; the budgets the
    blocks use are never exhausted ([basis_no_timeout], [vib_no_timeout],
    [parse_no_timeout]). *)
Inductive outcome (A : Type) : Type :=
| Ok (a : A) (s : pstate)
| Raise (e : exn) (s : pstate)
| Timeout.
Arguments Ok {A} a s.
Arguments Raise {A} e s.
Arguments Timeout {A}.

Definition M (A : Type) : Type := pstate -> outcome A.

Definition ret {A} (a : A) : M A := fun s => Ok a s.

Definition bind {A B} (m : M A) (k : A -> M B) : M B :=
  fun s =>
    match m s with
    | Ok a s' => k a s'
    | Raise e s' => Raise e s'
    | Timeout => Timeout
    end.

Definition raise {A} (e : exn) : M A := fun s => Raise e s.

Notation "x <- c1 ;; c2" := (bind c1 (fun x => c2))
  (at level 61, c1 at next level, right associativity).
Notation "' pat <- c1 ;; c2" := (bind c1 (fun x => match x with pat => c2 end))
  (at level 61, pat pattern, c1 at next level, right associativity).
Notation "c1 ;; c2" := (bind c1 (fun _ => c2))
  (at level 61, right associativity).

(** A Python expression inside a block. *)
Definition lift {A} (r : res A) : M A :=
  fun s =>
    match r with
    | Val a => Ok a s
    | Exc e => Raise e s
    end.

(** [inputfile.next()]. *)
Definition next : M string :=
  fun s =>
    match inputfile s with
    | [] => Raise StopIteration s
    | l :: rest => Ok l (mkState rest (self s))
    end.

Definition get_self : M GAMESS := fun s => Ok (self s) s.

Definition modify (f : GAMESS -> GAMESS) : M unit :=
  fun s => Ok tt (mkState (inputfile s) (f (self s))).

(** [for i in range(n): line = inputfile.next()], from the line [line]. *)
Fixpoint skip_lines (n : nat) (line : string) : M string :=
  match n with
  | O => ret line
  | S n' => l <- next ;; skip_lines n' l
  end.

(** The loop [while cond(line): acc = body(line, acc); line = next()] on
    the lines [rest] still to be read.  Returns what the loop gives and
    the lines left. *)
Fixpoint while_lines {A} (cond : string -> res bool)
    (body : string -> A -> res A) (line : string) (acc : A)
    (rest : list string) : res (A * string) * list string :=
  match cond line with
  | Exc e => (Exc e, rest)
  | Val false => (Val (acc, line), rest)
  | Val true =>
      match body line acc with
      | Exc e => (Exc e, rest)
      | Val acc' =>
          match rest with
          | [] => (Exc StopIteration, [])
          | l :: rest' => while_lines cond body l acc' rest'
          end
      end
  end.

Definition while_next {A} (cond : string -> res bool)
    (body : string -> A -> res A) (line : string) (acc : A) : M (A * string) :=
  fun s =>
    match while_lines cond body line acc (inputfile s) with
    | (Val r, rest) => Ok r (mkState rest (self s))
    | (Exc e, rest) => Raise e (mkState rest (self s))
    end.

(** [float(line.split()[i])] and [int(line.split()[i])]. *)
Definition tok (line : string) (i : Z) : res string := getitem (split line) i.
Definition tok_float (line : string) (i : Z) : res float :=
  res_bind (tok line i) float_of_str.
Definition tok_int (line : string) (i : Z) : res Z :=
  res_bind (tok line i) int_of_str.

(** [x.append(v)] on an attribute that may be absent. *)
Definition append_to {A} (field : option (list A)) (v : A) : res (list A) :=
  match field with
  | Some l => Val (l ++ [v])%list
  | None => Exc AttributeError
  end.

(** Float division [a / b] of Python floats. *)
Definition fdiv (a b : float) : res float :=
  if PrimFloat.eqb b 0 then Exc ZeroDivisionError else Val (a / b)%float.

Notation "x <~ c1 ;; c2" := (res_bind c1 (fun x => c2))
  (at level 61, c1 at next level, right associativity).

(** [if not hasattr(self, name): self.name = []]. *)
Definition init_list {A} (get : GAMESS -> option (list A))
    (set : option (list A) -> GAMESS -> GAMESS) : M unit :=
  modify (fun g => match get g with
                   | None => set (Some []) g
                   | Some _ => g
                   end).

(** [self.name.append(v)]. *)
Definition append_attr {A} (get : GAMESS -> option (list A))
    (set : option (list A) -> GAMESS -> GAMESS) (v : A) : M unit :=
  g <- get_self ;;
  l <- lift (append_to (get g) v) ;;
  modify (set (Some l)).

(** [self.name], an attribute that may be absent. *)
Definition attr {A} (get : GAMESS -> option A) : M A :=
  g <- get_self ;;
  lift (match get g with
        | Some v => Val v
        | None => Exc AttributeError
        end).

(** The budget of passes of a loop that reads lines: one more than the
    lines left. *)
Definition budget : M nat := fun s => Ok (S (List.length (inputfile s))) s.

(** [while cond(a): a = step(a)] with a budget of passes. *)
Fixpoint while_M {A} (fuel : nat) (cond : A -> M bool) (step : A -> M A) (a : A)
  : M A :=
  c <- cond a ;;
  if c : bool then
    match fuel with
    | O => fun _ => Timeout
    | S fuel' => a <- step a ;; while_M fuel' cond step a
    end
  else ret a.

(** [for x in xs: b = body(x, b)]. *)
Fixpoint for_fold {A B} (xs : list A) (body : A -> B -> M B) (b : B) : M B :=
  match xs with
  | [] => ret b
  | x :: xs' => b <- body x b ;; for_fold xs' body b
  end.

(** The double-quote character. *)
Definition dquote : ascii := ascii_of_nat 34.

(** ** [GAMESS.normalisesym] *)

Definition normalisesym (label : string) : res string :=
  let rest := slice (Some 1) None label in
  let end_ :=
    if String.eqb rest "''" then String dquote EmptyString
    else replace "G" "g" (replace "U" "u" rest) in
  c <~ sgetitem label 0 ;;
  Val (String c end_).

(** ** The blocks of [GAMESS.extract]

    [extract] is a sequence of [if] statements on the local variable
    [line]; a block may read further lines and leaves the last one read in
    [line].  Each block below takes [line] and returns it as the block
    leaves it. *)

Section Parser.

(** [utils.convertor(value, fromunits, tounits)], from a module of the
    repository that is not among the sources at hand. *)
Variable convertor : float -> string -> string -> float.

(** *** Geometry-optimisation targets: the OPTTOL line *)

(** The body of [for i, x in enumerate(temp)], from position [i] on. *)
Fixpoint opttol_loop (temp : list string) (i : Z) (xs : list string) : M unit :=
  match xs with
  | [] => ret tt
  | x :: xs' =>
      (if 0 <=? find "OPTTOL" x then
         opttol <- lift (if String.eqb x "OPTTOL"
                         then t <~ getitem temp (i + 2) ;; float_of_str t
                         else t <~ getitem (split_on "=" x) 1 ;; float_of_str t) ;;
         maxtol <- lift (fdiv 3 opttol) ;;
         modify (set_geotargets (Some [opttol; maxtol]))
       else ret tt) ;;
      opttol_loop temp (i + 1) xs'
  end.

Definition extract_opttol (line : string) : M string :=
  if 0 <=? find "OPTTOL" line then
    g <- get_self ;;
    match geotargets g with
    | None =>
        let temp := split line in
        opttol_loop temp 0 temp ;;
        ret line
    | Some _ => ret line
    end
  else ret line.

(** *** SCF energies: the FINAL ... ENERGY IS line *)

Definition extract_scfenergy (line : string) : M string :=
  if find "FINAL" line =? 1 then
    init_list scfenergies set_scfenergies ;;
    let temp := split line in
    i <- lift (lindex "IS" temp) ;;
    t <- lift (getitem temp (i + 1)) ;;
    v <- lift (float_of_str t) ;;
    append_attr scfenergies set_scfenergies (convertor v "hartree" "eV") ;;
    ret line
  else ret line.

(** *** Coupled-cluster energies *)

Definition extract_ccd (line : string) : M string :=
  if String.eqb (slice (Some 12) (Some 23) line) "CCD ENERGY:" then
    init_list ccenergies set_ccenergies ;;
    ccenergy <- lift (tok_float line 2) ;;
    append_attr ccenergies set_ccenergies (convertor ccenergy "hartree" "eV") ;;
    ret line
  else ret line.

Definition extract_ccsd (line : string) : M string :=
  if String.eqb (slice (Some 8) (Some 23) line) "CCSD    ENERGY:" then
    init_list ccenergies set_ccenergies ;;
    ccenergy <- lift (tok_float line 2) ;;
    line <- next ;;
    '(ccenergy, line) <-
      (if String.eqb (slice (Some 8) (Some 23) line) "CCSD[T] ENERGY:" then
         ccenergy <- lift (tok_float line 2) ;;
         line <- next ;;
         if String.eqb (slice (Some 8) (Some 23) line) "CCSD(T) ENERGY:" then
           ccenergy <- lift (tok_float line 2) ;;
           ret (ccenergy, line)
         else ret (ccenergy, line)
       else ret (ccenergy, line)) ;;
    append_attr ccenergies set_ccenergies (convertor ccenergy "hartree" "eV") ;;
    ret line
  else ret line.

(** *** CIS: the Hamiltonian type and the excited states *)

Definition extract_cihamtyp (line : string) : M string :=
  (if String.eqb (slice (Some 8) (Some 64) line)
        "RESULTS FROM SPIN-ADAPTED ANTISYMMETRIZED PRODUCT (SAPS)"
   then modify (set_cihamtyp ham_saps) else ret tt) ;;
  (if String.eqb (slice (Some 8) (Some 64) line)
        "RESULTS FROM DETERMINANT BASED ATOMIC ORBITAL CI-SINGLES"
   then modify (set_cihamtyp ham_dets) else ret tt) ;;
  ret line.

(** The test of the contribution loop: [line.strip()[0] != "-"]. *)
Definition cis_cond (line : string) : res bool :=
  c <~ sgetitem (strip line) 0 ;;
  Val (negb (Ascii.eqb c "-")).

(** [MOtype] of a row. *)
Definition cis_motype (ham : hamtyp) (line : string) : res Z :=
  match ham with
  | ham_dets =>
      t <~ tok line 0 ;;
      Val (if String.eqb t "BETA" then 1 else 0)
  | _ => Val 0
  end.

(** The coefficient stored for the parsed value [coeff]. *)
Definition cis_scale (ham : hamtyp) (coeff : float) : float :=
  match ham with
  | ham_saps => (coeff / PrimFloat.sqrt 2)%float
  | _ => coeff
  end.

(** One pass of the contribution loop, up to the read of the next line. *)
Definition cis_row (ham : hamtyp) (line : string) (CIScontribs : list contrib)
  : res (list contrib) :=
  MOtype <~ cis_motype ham line ;;
  fromMO <~ tok_int line (-3) ;;
  toMO <~ tok_int line (-2) ;;
  coeff <~ tok_float line (-1) ;;
  Val (CIScontribs ++ [((fromMO - 1, MOtype), (toMO - 1, MOtype), cis_scale ham coeff)])%list.

Definition extract_excited_state (line : string) : M string :=
  if String.eqb (slice (Some 1) (Some 14) line) "EXCITED STATE" then
    init_list etsecs set_etsecs ;;
    init_list etsyms set_etsyms ;;
    statenumber <- lift (tok_int line 2) ;;
    spin <- lift (x <~ tok_float line 7 ;; int_of_float x) ;;
    sym <- (if spin =? 0 then ret "Singlet"
            else if spin =? 1 then ret "Triplet"
            else raise UnboundLocalError) ;;
    last <- lift (tok line (-1)) ;;
    append_attr etsyms set_etsyms (sym ++ "-" ++ last) ;;
    line <- skip_lines 5 line ;;
    line <- next ;;
    g <- get_self ;;
    '(CIScontribs, line) <- while_next cis_cond (cis_row (cihamtyp g)) line [] ;;
    append_attr etsecs set_etsecs CIScontribs ;;
    ret line
  else ret line.

(** *** Geometries *)

Fixpoint map_res {A B} (f : A -> res B) (l : list A) : res (list B) :=
  match l with
  | [] => Val []
  | x :: xs =>
      y <~ f x ;;
      ys <~ map_res f xs ;;
      Val (y :: ys)
  end.

(** [while line.strip()]. *)
Definition nonblank (line : string) : res bool := Val (truthy (strip line)).

(** One row of the input-orientation table. *)
Definition atomic_row (line : string) (acc : geometry * list Z)
  : res (geometry * list Z) :=
  let '(coords, nos) := acc in
  let temp := split (strip line) in
  xyz <~ map_res float_of_str (lslice (Some 2) (Some 5) temp) ;;
  let xyz := map (fun x => convertor x "bohr" "Angstrom") xyz in
  t <~ getitem temp 1 ;;
  z <~ float_of_str t ;;
  n <~ int_of_float (Py.round z) ;;
  Val (coords ++ [xyz], nos ++ [n])%list.

Definition extract_atomic_coordinates (line : string) : M string :=
  if String.eqb (slice (Some 11) (Some 50) line)
       "ATOMIC                      COORDINATES" then
    modify (fun g => match atomcoords g with
                     | None => set_atomnos (Some []) (set_atomcoords (Some []) g)
                     | Some _ => g
                     end) ;;
    line <- next ;;
    line <- next ;;
    '(coords_nos, line) <- while_next nonblank atomic_row line ([], []) ;;
    modify (set_atomnos (Some (snd coords_nos))) ;;
    append_attr atomcoords set_atomcoords (fst coords_nos) ;;
    ret line
  else ret line.

Definition extract_equilibrium (line : string) : M string :=
  if String.eqb (slice (Some 12) (Some 40) line) "EQUILIBRIUM GEOMETRY LOCATED"
  then modify (set_geooptfinished true) ;; ret line
  else ret line.

(** One row of the standard-orientation table. *)
Definition std_row (line : string) (coords : geometry) : res geometry :=
  let temp := split (strip line) in
  xyz <~ map_res float_of_str (lslice (Some 2) (Some 5) temp) ;;
  Val (coords ++ [xyz])%list.

Definition extract_std_orientation (line : string) : M string :=
  g <- get_self ;;
  if (String.eqb (slice (Some 1) (Some 29) line) "COORDINATES OF ALL ATOMS ARE"
      && negb (geooptfinished g))%bool then
    (if firststdorient g then
       modify (set_firststdorient false) ;;
       modify (set_atomcoords (Some []))
     else ret tt) ;;
    line <- next ;;
    hyphens <- next ;;
    line <- next ;;
    '(coords, line) <- while_next nonblank std_row line [] ;;
    append_attr atomcoords set_atomcoords coords ;;
    ret line
  else ret line.

(** *** SCF convergence *)

(** The test and the pass of the loop that looks for the table header. *)
Definition scf_header_cond (line : string) : res bool :=
  Val (find "ITER EX" line <? 0).

Definition scf_header_row (line : string) (scftarget : option float)
  : res (option float) :=
  if ((0 <=? find "DENSITY CONV=" line)
      || (0 <=? find "DENSITY MATRIX CONV=" line))%bool then
    let index := find "DENSITY CONV=" line in
    let index :=
      if index <? 0 then find "DENSITY MATRIX CONV=" line + len "DENSITY MATRIX CONV="
      else index + len "DENSITY CONV=" in
    t <~ getitem (split (slice (Some index) None line)) 0 ;;
    v <~ float_of_str t ;;
    Val (Some v)
  else Val scftarget.

(** One row of the iteration table: the [try] ... [except ValueError] ...
    [else]. *)
Definition scf_table_row (line : string) (values : list (list float))
  : res (list (list float)) :=
  match int_of_str (slice (Some 0) (Some 4) line) with
  | Exc _ => Val values
  | Val temp =>
      v <~ tok_float line 5 ;;
      Val (values ++ [[v]])%list
  end.

Definition extract_scf (line : string) : M string :=
  if String.eqb (slice (Some (-15)) None (rstrip line)) "SCF CALCULATION" then
    line <- next ;;
    '(scftarget, line) <- while_next scf_header_cond scf_header_row line None ;;
    init_list scftargets set_scftargets ;;
    scftarget <- match scftarget with
                 | Some v => ret v
                 | None => raise UnboundLocalError
                 end ;;
    append_attr scftargets set_scftargets [scftarget] ;;
    init_list scfvalues set_scfvalues ;;
    line <- next ;;
    '(values, line) <- while_next nonblank scf_table_row line [] ;;
    append_attr scfvalues set_scfvalues values ;;
    ret line
  else ret line.

(** *** Vibrational analysis *)

(** [while line.find("MODES") == -1: line = next(); if ...: warning = True],
    on the lines [rest] still to be read. *)
Fixpoint modes_lines (line : string) (warning : bool) (rest : list string)
  : res (bool * string) * list string :=
  if find "MODES" line =? -1 then
    match rest with
    | [] => (Exc StopIteration, [])
    | l :: rest' =>
        modes_lines l
          (if 0 <=? find "THIS IS NOT A STATIONARY POINT" l then true else warning)
          rest'
    end
  else (Val (warning, line), rest).

Definition find_modes (line : string) : M (bool * string) :=
  fun s =>
    match modes_lines line false (inputfile s) with
    | (Val r, rest) => Ok r (mkState rest (self s))
    | (Exc e, rest) => Raise e (mkState rest (self s))
    end.

(** [while line != blank: line = next()]. *)
Definition until_blank (blank line : string) : M string :=
  '(_, line) <- while_next (fun l => Val (negb (String.eqb l blank)))
                  (fun _ (u : unit) => Val u) line tt ;;
  ret line.

(** The loop over the tokens of the FREQUENCY row: an "I" negates the
    value before it. *)
Fixpoint newfreq_loop (freq : list string) (newfreq : list float)
  : res (list float) :=
  match freq with
  | [] => Val newfreq
  | x :: xs =>
      if negb (String.eqb x "I") then
        v <~ float_of_str x ;;
        newfreq_loop xs (newfreq ++ [v])%list
      else
        match rev newfreq with
        | [] => Exc IndexError
        | last :: front => newfreq_loop xs (rev front ++ [(- last)%float])%list
        end
  end.

(** [for l in range(len(broken)): q[l].append(broken[l])]. *)
Fixpoint append_cols {A} (q : list (list A)) (broken : list A)
  : res (list (list A)) :=
  match broken with
  | [] => Val q
  | b :: bs =>
      match q with
      | [] => Exc IndexError
      | q0 :: qs =>
          r <~ append_cols qs bs ;;
          Val ((q0 ++ [b])%list :: r)
      end
  end.

(** [for k in range(n): p[k].append(q[k])]. *)
Fixpoint append_first {A} (n : nat) (p : list (list A)) (q : list A)
  : res (list (list A)) :=
  match n with
  | O => Val p
  | S n' =>
      match p, q with
      | p0 :: ps, q0 :: qs =>
          r <~ append_first n' ps qs ;;
          Val ((p0 ++ [q0])%list :: r)
      | _, _ => Exc IndexError
      end
  end.

Definition five {A} : list (list A) := [[]; []; []; []; []].

(** [for k in range(3)]: the x, y and z rows of one atom.  [broken] is
    the local variable of that name, unbound ([None]) until a row is
    read. *)
Fixpoint disp_axes (k : nat) (q : list (list float)) (broken : option (list float))
  : M (list (list float) * option (list float)) :=
  match k with
  | O => ret (q, broken)
  | S k' =>
      l <- next ;;
      let line := slice (Some 21) None l in
      b <- lift (map_res float_of_str (split line)) ;;
      q <- lift (append_cols q b) ;;
      disp_axes k' q (Some b)
  end.

(** [for j in range(len(self.atomnos))]. *)
Fixpoint disp_atoms (j : nat) (p : list geometry) (broken : option (list float))
  : M (list geometry * option (list float)) :=
  match j with
  | O => ret (p, broken)
  | S j' =>
      '(q, broken) <- disp_axes 3 five broken ;;
      n <- match broken with
           | Some b => ret (List.length b)
           | None => raise UnboundLocalError
           end ;;
      p <- lift (append_first n p q) ;;
      disp_atoms j' p broken
  end.

(** [self.vibramans.extend(xs)]: the method is looked up before the
    argument is evaluated. *)
Definition extend_vibramans (xs : res (list float)) : M unit :=
  g <- get_self ;;
  match vibramans g with
  | Some (PyList l) =>
      xs <- lift xs ;;
      modify (set_vibramans (Some (PyList (l ++ xs)%list)))
  | Some (NdArray _) => raise AttributeError
  | None => raise AttributeError
  end.

(** One pass of the loop over the blocks of modes: from the read of the
    FREQUENCY row to the read of the next [blank] and [freqNo]; returns
    these two and the local [line]. *)
Definition vib_block (blank : string) : M (string * string * string) :=
  l <- next ;;
  let freq := lslice (Some 1) None (split (strip l)) in
  newfreq <- lift (newfreq_loop freq []) ;;
  g <- get_self ;;
  fs <- lift (match vibfreqs g with
              | Some fs => Val fs
              | None => Exc AttributeError
              end) ;;
  modify (set_vibfreqs (Some (fs ++ newfreq)%list)) ;;
  line <- next ;;
  line <- (if 0 <=? find "REDUCED" line then next else ret line) ;;
  irIntensity <- lift (map_res float_of_str (lslice (Some 2) None (split (strip line)))) ;;
  g <- get_self ;;
  irs <- lift (match vibirs g with
               | Some irs => Val irs
               | None => Exc AttributeError
               end) ;;
  modify (set_vibirs
            (Some (irs ++ map (fun x => convertor x "Debye^2/amu-Angstrom^2" "km/mol")
                            irIntensity)%list)) ;;
  line <- next ;;
  line <- (if 0 <=? find "RAMAN" line then
             modify (fun g => match vibramans g with
                              | None => set_vibramans (Some (PyList [])) g
                              | Some _ => g
                              end) ;;
             let ramanIntensity := split (strip line) in
             extend_vibramans
               (map_res float_of_str (lslice (Some 2) None ramanIntensity)) ;;
             depolar <- next ;;
             next
           else ret line) ;;
  (if String.eqb line blank then ret tt else raise AssertionError) ;;
  g <- get_self ;;
  natom <- lift (match atomnos g with
                 | Some nos => Val (List.length nos)
                 | None => Exc AttributeError
                 end) ;;
  '(p, broken) <- disp_atoms natom five None ;;
  n <- match broken with
       | Some b => ret (Z.of_nat (List.length b))
       | None => raise UnboundLocalError
       end ;;
  g <- get_self ;;
  ds <- lift (match vibdisps g with
              | Some ds => Val ds
              | None => Exc AttributeError
              end) ;;
  modify (set_vibdisps (Some (ds ++ lslice None (Some n) p)%list)) ;;
  line <- skip_lines 10 line ;;
  blank <- next ;;
  freqNo <- next ;;
  ret (blank, freqNo, line).

(** [while freqNo.find("SAYVETZ") == -1], with a budget of passes;
    returns the local [line]. *)
Fixpoint vib_blocks (fuel : nat) (blank freqNo line : string) : M string :=
  if find "SAYVETZ" freqNo =? -1 then
    match fuel with
    | O => fun _ => Timeout
    | S fuel' =>
        '(blank, freqNo, line) <- vib_block blank ;;
        vib_blocks fuel' blank freqNo line
    end
  else ret line.

(** [xs[:startrot-1] + xs[endrot:]] on a list. *)
Definition exclude {A} (startrot endrot : Z) (xs : list A) : list A :=
  (lslice None (Some (startrot - 1)) xs ++ lslice (Some endrot) None xs)%list.

Definition same_length {A} (l : list (list A)) : bool :=
  match l with
  | [] => true
  | x :: xs => forallb (fun y => Nat.eqb (List.length y) (List.length x)) xs
  end.

(** [numpy.array(ds, "d")] needs every mode to have as many atoms and
    every atom as many components. *)
Definition rectangular (ds : list geometry) : bool :=
  (same_length ds && same_length (List.concat ds))%bool.

(** [a + b] on two one-dimensional arrays, with numpy's broadcasting. *)
Fixpoint zip_add (a b : list float) : list float :=
  match a, b with
  | x :: a', y :: b' => (x + y)%float :: zip_add a' b'
  | _, _ => []
  end.

Definition array_add (a b : list float) : res (list float) :=
  if Nat.eqb (List.length a) (List.length b) then Val (zip_add a b)
  else match a, b with
       | [x], _ => Val (map (fun y => (x + y)%float) b)
       | _, [y] => Val (map (fun x => (x + y)%float) a)
       | _, _ => Exc ValueError
       end.

(** The last statements of the block: the rotations and translations
    are cut out and the sequences become arrays. *)
Definition vib_exclude (startrot endrot : Z) : M unit :=
  g <- get_self ;;
  fs <- lift (match vibfreqs g with Some l => Val l | None => Exc AttributeError end) ;;
  modify (set_vibfreqs (Some (exclude startrot endrot fs))) ;;
  g <- get_self ;;
  irs <- lift (match vibirs g with Some l => Val l | None => Exc AttributeError end) ;;
  modify (set_vibirs (Some (exclude startrot endrot irs))) ;;
  g <- get_self ;;
  ds <- lift (match vibdisps g with Some l => Val l | None => Exc AttributeError end) ;;
  (if rectangular (exclude startrot endrot ds) then ret tt else raise ValueError) ;;
  modify (set_vibdisps (Some (exclude startrot endrot ds))) ;;
  g <- get_self ;;
  match vibramans g with
  | None => ret tt
  | Some (PyList l) =>
      modify (set_vibramans (Some (NdArray (exclude startrot endrot l))))
  | Some (NdArray l) =>
      r <- lift (array_add (lslice None (Some (startrot - 1)) l)
                           (lslice (Some endrot) None l)) ;;
      modify (set_vibramans (Some (NdArray r)))
  end.

(** Everything before the exclusion; returns [startrot], [endrot] and
    the local [line].  The call of [self.logger.warning] changes nothing
    of the state and has no counterpart here. *)
Definition vib_read (line : string) : M (Z * Z * string) :=
  modify (set_vibfreqs (Some [])) ;;
  modify (set_vibirs (Some [])) ;;
  modify (set_vibdisps (Some [])) ;;
  '(warning, line) <- find_modes line ;;
  startrot <- lift (tok_int line 1) ;;
  endrot <- lift (tok_int line 3) ;;
  blank <- next ;;
  line <- next ;;
  line <- until_blank blank line ;;
  line <- (if warning : bool then
             line <- next ;;
             until_blank blank line
           else ret line) ;;
  freqNo <- next ;;
  fuel <- (fun s => Ok (S (List.length (inputfile s))) s) ;;
  line <- vib_blocks fuel blank freqNo line ;;
  ret (startrot, endrot, line).

Definition extract_vib (line : string) : M string :=
  if 0 <=? find "NORMAL COORDINATE ANALYSIS IN THE HARMONIC APPROXIMATION" line then
    '(startrot, endrot, line) <- vib_read line ;;
    vib_exclude startrot endrot ;;
    ret line
  else ret line.

(** *** Basis set *)

(** The dictionary [coeff]: symmetry to its (exponent, coefficient)
    pairs, in the order of first insertion. *)
Definition coeffs : Type := list (string * list (float * float)).

Fixpoint lookup (k : string) (d : coeffs) : res (list (float * float)) :=
  match d with
  | [] => Exc KeyError
  | (k', v) :: d' => if String.eqb k k' then Val v else lookup k d'
  end.

(** [coeff.setdefault(k, []).append(v)]. *)
Fixpoint setdefault_append (k : string) (v : float * float) (d : coeffs) : coeffs :=
  match d with
  | [] => [(k, [v])]
  | (k', vs) :: d' =>
      if String.eqb k k' then (k', (vs ++ [v])%list) :: d'
      else (k', vs) :: setdefault_append k v d'
  end.

(** [t[:-1]] as a float, after the assertion [t[-1] == ')']. *)
Definition paren_float (t : string) : res float :=
  float_of_str (slice None (Some (-1)) t).

(** One row of primitives: the body of [while line.strip()]. *)
Definition basis_row (line : string) (acc : coeffs * option string)
  : res (coeffs * option string) :=
  let '(coeff, _) := acc in
  let temp := split (strip line) in
  sym <~ getitem temp 1 ;;
  if negb (existsb (String.eqb sym) ["S"; "P"; "D"; "F"; "G"; "L"]) then
    Exc AssertionError
  else if String.eqb sym "L" then
    if Nat.eqb (List.length temp) 6 then
      t3 <~ getitem temp 3 ;; e <~ float_of_str t3 ;;
      t4 <~ getitem temp 4 ;; cs <~ float_of_str t4 ;;
      let coeff := setdefault_append "S" (e, cs) coeff in
      t3 <~ getitem temp 3 ;; e <~ float_of_str t3 ;;
      t5 <~ getitem temp 5 ;; cp <~ float_of_str t5 ;;
      Val (setdefault_append "P" (e, cp) coeff, Some sym)
    else
      t6 <~ getitem temp 6 ;; c6 <~ sgetitem t6 (-1) ;;
      t9 <~ getitem temp 9 ;; c9 <~ sgetitem t9 (-1) ;;
      if negb (Ascii.eqb c6 c9 && Ascii.eqb c9 ")")%bool then Exc AssertionError
      else
        t3 <~ getitem temp 3 ;; e <~ float_of_str t3 ;;
        cs <~ paren_float t6 ;;
        let coeff := setdefault_append "S" (e, cs) coeff in
        e <~ float_of_str t3 ;;
        cp <~ paren_float t9 ;;
        Val (setdefault_append "P" (e, cp) coeff, Some sym)
  else
    if Nat.eqb (List.length temp) 5 then
      t3 <~ getitem temp 3 ;; e <~ float_of_str t3 ;;
      t4 <~ getitem temp 4 ;; c <~ float_of_str t4 ;;
      Val (setdefault_append sym (e, c) coeff, Some sym)
    else
      t6 <~ getitem temp 6 ;; c6 <~ sgetitem t6 (-1) ;;
      if negb (Ascii.eqb c6 ")") then Exc AssertionError
      else
        t3 <~ getitem temp 3 ;; e <~ float_of_str t3 ;;
        c <~ paren_float t6 ;;
        Val (setdefault_append sym (e, c) coeff, Some sym).

(** The shells a finished run of rows adds to the atom's [gbasis]. *)
Definition shells_of (coeff : coeffs) (sym : option string) : res (list shell) :=
  match sym with
  | None => Exc UnboundLocalError
  | Some sym =>
      if String.eqb sym "L" then
        s <~ lookup "S" coeff ;;
        p <~ lookup "P" coeff ;;
        Val [("S", s); ("P", p)]
      else
        c <~ lookup sym coeff ;;
        Val [(sym, c)]
  end.

(** [while len(line.split()) != 1 and line.find("TOTAL NUMBER") < 0]: the
    shells of one atom, with a budget of passes.  [sym] is the local
    variable of that name. *)
Fixpoint basis_shells (fuel : nat) (line : string) (gb : list shell)
    (shellsize : Z) (sym : option string)
  : M (string * list shell * Z * option string) :=
  if (negb (Nat.eqb (List.length (split line)) 1)
      && (find "TOTAL NUMBER" line <? 0))%bool then
    match fuel with
    | O => fun _ => Timeout
    | S fuel' =>
        let shellsize := shellsize + 1 in
        '(coeff_sym, line) <- while_next nonblank basis_row line ([], sym) ;;
        let '(coeff, sym) := coeff_sym in
        new <- lift (shells_of coeff sym) ;;
        line <- next ;;
        basis_shells fuel' line (gb ++ new)%list shellsize sym
    end
  else ret (line, gb, shellsize, sym).

(** [numtoadd = 1 + (shellgap / shellsize)], an integer division. *)
Definition numtoadd_of (shellgap shellsize : Z) : res Z :=
  if shellsize =? 0 then Exc ZeroDivisionError
  else Val (1 + shellgap / shellsize).

(** [while line.find("TOTAL NUMBER") < 0]: one atom per pass. *)
Fixpoint basis_atoms (fuel : nat) (line : string) (shellcounter : Z)
    (sym : option string) : M string :=
  if find "TOTAL NUMBER" line <? 0 then
    match fuel with
    | O => fun _ => Timeout
    | S fuel' =>
        blank <- next ;;
        line <- next ;;
        shellno <- lift (tok_int line 0) ;;
        let shellgap := shellno - shellcounter in
        '(line, gb, shellsize, sym) <- basis_shells (S fuel') line [] 0 sym ;;
        numtoadd <- lift (numtoadd_of shellgap shellsize) ;;
        let shellcounter := shellno + shellsize in
        g <- get_self ;;
        l <- lift (match gbasis g with
                   | Some l => Val l
                   | None => Exc AttributeError
                   end) ;;
        modify (set_gbasis (Some (l ++ repeat gb (Z.to_nat numtoadd))%list)) ;;
        basis_atoms fuel' line shellcounter sym
    end
  else ret line.

Definition extract_basis (line : string) : M string :=
  if String.eqb (slice (Some 5) (Some 21) line) "ATOMIC BASIS SET" then
    modify (set_gbasis (Some [])) ;;
    line <- next ;;
    '(_, line) <- while_next (fun l => Val (find "SHELL" l <? 0))
                    (fun _ (u : unit) => Val u) line tt ;;
    blank <- next ;;
    atomname <- next ;;
    fuel <- (fun s => Ok (S (List.length (inputfile s))) s) ;;
    basis_atoms fuel line 1 None
  else ret line.

(** *** The tests of the other blocks *)

Definition mp_trigger (line : string) : bool :=
  0 <=? find "RESULTS OF MOLLER-PLESSET" line.
Definition mbpt_trigger (line : string) : bool :=
  String.eqb (slice (Some 8) (Some 23) line) "MBPT(2) ENERGY:".
Definition charge_trigger (line : string) : bool :=
  String.eqb (slice (Some 1) (Some 19) line) "CHARGE OF MOLECULE".
Definition etenergies_trigger (line : string) : bool :=
  contains "EXCITATION ENERGIES" line.
Definition etoscs_trigger (line : string) : bool :=
  String.eqb (slice (Some 1) (Some 50) line)
    "TRANSITION FROM THE GROUND STATE TO EXCITED STATE".
Definition geovalues_trigger (line : string) : bool :=
  0 <? find "MAXIMUM GRADIENT" line.

(** The test of the molecular-orbital block, as the source spells it. *)
Definition eigenvectors_trigger (line : string) : bool :=
  ((find "EIGENVECTORS" line =? 10) || (find "MOLECULAR OBRITALS" line =? 10))%bool.

Definition homos_trigger (line : string) : bool :=
  0 <=? find "NUMBER OF OCCUPIED ORBITALS" line.
Definition guess_trigger (line : string) : bool :=
  0 <=? find "SYMMETRIES FOR INITIAL GUESS ORBITALS FOLLOW" line.
Definition natom_trigger (line : string) : bool :=
  find "TOTAL NUMBER OF ATOMS" line =? 1.
Definition ecp_trigger (line : string) : bool :=
  contains "ECP POTENTIALS" line.

(** *** Moller-Plesset energies *)

(** [self.mpenergies[-1].append(v)]. *)
Definition append_last (v : float) : M unit :=
  l <- attr mpenergies ;;
  match rev l with
  | [] => raise IndexError
  | last :: front =>
      modify (set_mpenergies (Some (rev front ++ [(last ++ [v])%list])%list))
  end.

(** One of the tests on the first token of a line of the MP block, with
    the index of the token that holds the energy. *)
Definition mp_energy (labels : list string) (i : Z) (line : string) : M unit :=
  t <- lift (tok line 0) ;;
  if existsb (String.eqb t) labels then
    e <- lift (tok_float line i) ;;
    append_last (convertor e "hartree" "eV")
  else ret tt.

Definition extract_mp (line : string) : M string :=
  if mp_trigger line then
    init_list mpenergies set_mpenergies ;;
    append_attr mpenergies set_mpenergies [] ;;
    mplevel <- lift (int_of_str (slice (Some 27) (Some 28) line)) ;;
    let done := "..... DONE WITH MP" ++ str_of_int mplevel ++ " ENERGY ....." in
    fuel <- budget ;;
    while_M fuel
      (fun line => ret (negb (String.eqb (strip line) done)))
      (fun _ =>
         line <- next ;;
         (if 0 <? Z.of_nat (List.length (split line)) then
            mp_energy ["E(MP2)="] 1 line ;;
            mp_energy ["E(MP2)"] 2 line ;;
            mp_energy ["E(MP3)"] 2 line ;;
            mp_energy ["E(MP4-SDQ)"; "E(MP4-SDTQ)"] 2 line
          else ret tt) ;;
         ret line)
      line
  else ret line.

Definition extract_mbpt (line : string) : M string :=
  if mbpt_trigger line then
    init_list mpenergies set_mpenergies ;;
    append_attr mpenergies set_mpenergies [] ;;
    mp2energy <- lift (tok_float line 2) ;;
    append_last (convertor mp2energy "hartree" "eV") ;;
    ret line
  else ret line.

(** *** Charge and multiplicity *)

Definition extract_charge (line : string) : M string :=
  if charge_trigger line then
    c <- lift (tok_int line (-1)) ;;
    modify (set_charge (Some c)) ;;
    l <- next ;;
    m <- lift (tok_int l (-1)) ;;
    modify (set_mult (Some m)) ;;
    ret line
  else ret line.

(** *** Excitation energies and oscillator strengths *)

Definition extract_etenergies (line : string) : M string :=
  if etenergies_trigger line then
    init_list etenergies set_etenergies ;;
    header <- next ;;
    dashes <- next ;;
    line <- next ;;
    fuel <- budget ;;
    while_M fuel
      (fun line => ret (0 <? Z.of_nat (List.length (split line))))
      (fun line =>
         etenergy <- lift (tok_float line 1) ;;
         append_attr etenergies set_etenergies
           (convertor etenergy "hartree" "cm-1") ;;
         next)
      line
  else ret line.

Definition extract_etoscs (line : string) : M string :=
  if etoscs_trigger line then
    init_list etoscs set_etoscs ;;
    statenumber <- lift (tok_int line (-1)) ;;
    line <- skip_lines 8 line ;;
    strength <- lift (tok_float line 3) ;;
    append_attr etoscs set_etoscs strength ;;
    ret line
  else ret line.

(** *** Gradients of a geometry optimisation *)

Definition extract_geovalues (line : string) : M string :=
  if geovalues_trigger line then
    init_list geovalues set_geovalues ;;
    let temp := split (strip line) in
    a <- lift (t <~ getitem temp 3 ;; float_of_str t) ;;
    b <- lift (t <~ getitem temp 7 ;; float_of_str t) ;;
    append_attr geovalues set_geovalues [a; b] ;;
    ret line
  else ret line.

(** *** Molecular orbitals *)

(** The pattern [(\d+)\s*([A-Z][A-Z]?)\s*(\d+)\s*([A-Z]+)] of the block.
    [runs cls s] lists the ways in which a greedy repetition of the
    class [cls] matches at the start of [s], the longest first, each
    with the rest of [s]; a match of the pattern is the first success
    when the alternatives are tried in that order. *)
Fixpoint runs (cls : ascii -> bool) (s : string) : list (string * string) :=
  match s with
  | EmptyString => [(EmptyString, s)]
  | String c s' =>
      if cls c then
        (map (fun mr => (String c (fst mr), snd mr)) (runs cls s')
         ++ [(EmptyString, s)])%list
      else [(EmptyString, s)]
  end.

(** At least one character of the class. *)
Definition runs1 (cls : ascii -> bool) (s : string) : list (string * string) :=
  filter (fun mr => negb (String.eqb (fst mr) EmptyString)) (runs cls s).

Definition is_digit (c : ascii) : bool :=
  match digit_of c with
  | Some _ => true
  | None => false
  end.

Definition is_upper (c : ascii) : bool :=
  let n := nat_of_ascii c in (Nat.leb 65 n && Nat.leb n 90)%bool.

(** [[A-Z][A-Z]?]: two letters if there are two, else one. *)
Definition one_or_two (s : string) : list (string * string) :=
  match s with
  | String a s1 =>
      if is_upper a then
        (match s1 with
         | String b s2 =>
             if is_upper b then [(String a (String b EmptyString), s2)] else []
         | EmptyString => []
         end ++ [(String a EmptyString, s1)])%list
      else []
  | EmptyString => []
  end.

(** The groups of the matches of the pattern at the start of [s]. *)
Definition ao_match (s : string) : list (string * string * string * string) :=
  flat_map (fun m0 =>
  flat_map (fun w1 =>
  flat_map (fun m1 =>
  flat_map (fun w2 =>
  flat_map (fun m2 =>
  flat_map (fun w3 =>
  map (fun m3 => (fst m0, fst m1, fst m2, fst m3))
    (runs1 is_upper (snd w3)))
    (runs isspace (snd m2)))
    (runs1 is_digit (snd w2)))
    (runs isspace (snd m1)))
    (one_or_two (snd w1)))
    (runs isspace (snd m0)))
    (runs1 is_digit s).

(** [p.search(s)]: the groups of the leftmost match. *)
Fixpoint ao_search (s : string) : option (string * string * string * string) :=
  match ao_match s with
  | g :: _ => Some g
  | [] =>
      match s with
      | EmptyString => None
      | String _ s' => ao_search s'
      end
  end.

(** The name of a basis function, the new [oldatom], and the indices
    [atomno] and [orbno], from a row of coefficients. *)
Definition ao_label (line oldatom : string) : res (string * string * Z * Z) :=
  let start := strip (slice None (Some 17) line) in
  match ao_search start with
  | Some (g0, g1, g2, g3) =>
      let aoname := capitalize g1 ++ g2 ++ "_" ++ g3 in
      atomno <~ int_of_str g2 ;;
      orbno <~ int_of_str g0 ;;
      Val (aoname, g2, atomno - 1, orbno - 1)
  | None =>
      let g := map strip (split line) in
      g1 <~ getitem g 1 ;;
      g2 <~ getitem g 2 ;;
      let aoname := capitalize g1 ++ oldatom ++ "_" ++ g2 in
      atomno <~ int_of_str oldatom ;;
      g0 <~ getitem g 0 ;;
      orbno <~ int_of_str g0 ;;
      Val (aoname, oldatom, atomno - 1, orbno - 1)
  end.

(** [self.name[k].extend(xs)]. *)
Definition extend_at {A} (get : GAMESS -> option (list (list A)))
    (set : option (list (list A)) -> GAMESS -> GAMESS) (k : Z) (xs : list A)
  : M unit :=
  l <- attr get ;;
  row <- lift (getitem l k) ;;
  l <- lift (setitem l k (row ++ xs)%list) ;;
  modify (set (Some l)).

(** [j = 0; while j*11+4 < len(coeffs): self.mocoeffs[spin][base+j, i] =
    float(coeffs[j*11:(j+1)*11]); j += 1]. *)
Definition mo_cols (spin base i : Z) (coeffs : string) : M unit :=
  while_M (S (String.length coeffs))
    (fun j => ret (j * 11 + 4 <? len coeffs))
    (fun j =>
       v <- lift (float_of_str (slice (Some (j * 11)) (Some ((j + 1) * 11)) coeffs)) ;;
       ms <- attr mocoeffs ;;
       m <- lift (getitem ms spin) ;;
       m <- lift (setitem2 m (base + j) i v) ;;
       ms <- lift (setitem ms spin m) ;;
       modify (set_mocoeffs (Some ms)) ;;
       ret (j + 1))
    0 ;;
  ret tt.

(** One pass of [for base in range(0, self.nmo, 5)] for the spin channel
    [spin]: the numbers, energies and symmetries of up to five orbitals
    and their coefficients.  The names of the basis functions are taken
    in the first pass of the first channel only ([readatombasis]). *)
Definition mo_block (spin : Z) (readatombasis : bool) (base : Z) (line : string)
  : M string :=
  blank <- next ;;
  line <- next ;;
  line <- next ;;
  es <- lift (map_res float_of_str (split line)) ;;
  extend_at moenergies set_moenergies spin
    (map (fun x => convertor x "hartree" "eV") es) ;;
  line <- next ;;
  syms <- lift (map_res normalisesym (split line)) ;;
  extend_at mosyms set_mosyms spin syms ;;
  nb <- attr nbasis ;;
  '(line, oldatom) <-
    for_fold (range nb)
      (fun i '(line, oldatom) =>
         line <- next ;;
         oldatom <-
           (if (readatombasis && (base =? 0))%bool then
              '(aoname, oldatom, atomno, orbno) <- lift (ao_label line oldatom) ;;
              ab <- attr atombasis ;;
              row <- lift (getitem ab atomno) ;;
              ab <- lift (setitem ab atomno (row ++ [orbno])%list) ;;
              modify (set_atombasis (Some ab)) ;;
              append_attr aonames set_aonames aoname ;;
              ret oldatom
            else ret oldatom) ;;
         mo_cols spin base i (slice (Some 15) None line) ;;
         ret (line, oldatom))
      (line, "0") ;;
  ret line.

(** The last statement of the block makes arrays of the lists of
    [moenergies]; their entries stay as they are. *)
Definition extract_eigenvectors (line : string) : M string :=
  if eigenvectors_trigger line then
    modify (set_moenergies (Some [[]])) ;;
    modify (set_mosyms (Some [[]])) ;;
    g <- get_self ;;
    (match nmo g with
     | None => nb <- attr nbasis ;; modify (set_nmo (Some nb))
     | Some _ => ret tt
     end) ;;
    nm <- attr nmo ;;
    nb <- attr nbasis ;;
    z <- lift (zeros nm nb) ;;
    modify (set_mocoeffs (Some [z])) ;;
    g <- get_self ;;
    readatombasis <-
      (match atombasis g with
       | None =>
           modify (set_atombasis (Some [])) ;;
           modify (set_aonames (Some [])) ;;
           n <- attr natom ;;
           modify (set_atombasis (Some (repeat [] (Z.to_nat n)))) ;;
           modify (set_aonames (Some [])) ;;
           ret true
       | Some _ => ret false
       end) ;;
    dashes <- next ;;
    nm <- attr nmo ;;
    line <- for_fold (range3 0 nm 5) (mo_block 0 readatombasis) line ;;
    line <- next ;;
    line <-
      (if negb (contains "END OF" line) then
         nm <- attr nmo ;;
         nb <- attr nbasis ;;
         z <- lift (zeros nm nb) ;;
         append_attr mocoeffs set_mocoeffs z ;;
         append_attr moenergies set_moenergies [] ;;
         append_attr mosyms set_mosyms [] ;;
         line <- skip_lines 5 line ;;
         nm <- attr nmo ;;
         line <- for_fold (range3 0 nm 5) (mo_block 1 false) line ;;
         next
       else ret line) ;;
    (if 0 <=? find "END OF" line then ret tt else raise AssertionError) ;;
    ret line
  else ret line.

(** *** Occupied orbitals *)

Definition extract_homos (line : string) : M string :=
  if homos_trigger line then
    h1 <- lift (tok_int line (-1)) ;;
    line <- next ;;
    h2 <- lift (tok_int line (-1)) ;;
    modify (set_homos (Some [h1 - 1; h2 - 1])) ;;
    ret line
  else ret line.

(** [numpy.resize(self.homos, [1])]: the first entry, or a zero when
    there is none. *)
Definition extract_guess (line : string) : M string :=
  if guess_trigger line then
    (if 0 <=? find "BOTH SET(S)" line then
       h <- attr homos ;;
       modify (set_homos (Some [match h with
                                | x :: _ => x
                                | [] => 0
                                end]))
     else ret tt) ;;
    ret line
  else ret line.

(** *** Numbers of atoms, basis functions and orbitals; the overlap matrix *)

Definition extract_natom (line : string) : M string :=
  if natom_trigger line then
    n <- lift (tok_int line (-1)) ;;
    modify (set_natom (Some n)) ;;
    ret line
  else ret line.

(** [self.aooverlaps[r, c] = float(t)]. *)
Definition overlap_set (r c : Z) (t : string) : M unit :=
  v <- lift (float_of_str t) ;;
  a <- attr aooverlaps ;;
  a <- lift (setitem2 a r c v) ;;
  modify (set_aooverlaps (Some a)).

(** [for j in range(4, len(temp))] on one row of the matrix. *)
Definition overlap_row (base i : Z) (line : string) : M unit :=
  let temp := split line in
  for_fold (range3 4 (Z.of_nat (List.length temp)) 1)
    (fun j _ =>
       t <- lift (getitem temp j) ;;
       overlap_set (base + j - 4) (i + base) t ;;
       overlap_set (i + base) (base + j - 4) t)
    tt.

(** The overlap matrix, printed in blocks of five columns.  The call of
    [self.logger.info] changes nothing of the state and has no
    counterpart here. *)
Definition extract_overlap (line : string) : M string :=
  g <- get_self ;;
  (match aooverlaps g with
   | None =>
       n <- attr nbasis ;;
       z <- lift (zeros n n) ;;
       modify (set_aooverlaps (Some z))
   | Some _ => ret tt
   end) ;;
  fuel <- budget ;;
  '(_, line) <-
    while_M fuel
      (fun '(base, line) => n <- attr nbasis ;; ret (base <? n))
      (fun '(base, line) =>
         blank <- next ;;
         line <- next ;;
         blank <- next ;;
         n <- attr nbasis ;;
         line <- for_fold (range (n - base))
                   (fun i _ =>
                      line <- next ;;
                      overlap_row base i line ;;
                      ret line)
                   line ;;
         ret (base + 5, line))
      (0, line) ;;
  ret line.

(** The [if] ... [elif] chain on [nbasis], [nmo] and the overlap matrix. *)
Definition extract_nbasis_chain (line : string) : M string :=
  if ((find "NUMBER OF CARTESIAN GAUSSIAN BASIS" line =? 1)
      || (find "TOTAL NUMBER OF BASIS FUNCTIONS" line =? 1))%bool then
    n <- lift (t <~ getitem (split (strip line)) (-1) ;; int_of_str t) ;;
    modify (set_nbasis (Some n)) ;;
    ret line
  else if 0 <=? find "SPHERICAL HARMONICS KEPT IN THE VARIATION SPACE" line then
    n <- lift (t <~ getitem (split (strip line)) (-1) ;; int_of_str t) ;;
    modify (set_nmo (Some n)) ;;
    ret line
  else if find "TOTAL NUMBER OF MOS IN VARIATION SPACE" line =? 1 then
    n <- lift (tok_int line (-1)) ;;
    modify (set_nmo (Some n)) ;;
    ret line
  else if ((find "OVERLAP MATRIX" line =? 0)
           || (find "OVERLAP MATRIX" line =? 1))%bool then
    extract_overlap line
  else ret line.

(** *** Effective core potentials *)

(** One pass of [while header.split()[0] == "PARAMETERS"]. *)
Definition ecp_pass (header : string) : M (string * string) :=
  let name := slice (Some 17) (Some 25) header in
  atomnum <- lift (int_of_str (slice (Some 34) (Some 40) header)) ;;
  (if String.eqb (slice (Some 40) (Some 50) header) "WITH ZCORE" then
     zcore <- lift (int_of_str (slice (Some 50) (Some 55) header)) ;;
     lmax <- lift (int_of_str (slice (Some 63) (Some 67) header)) ;;
     ce <- attr coreelectrons ;;
     ce <- lift (setitem ce (atomnum - 1) zcore) ;;
     modify (set_coreelectrons (Some ce))
   else ret tt) ;;
  (if String.eqb (slice (Some 40) (Some 55) header) "ARE THE SAME AS" then
     atomcopy <- lift (int_of_str (slice (Some 60) None header)) ;;
     ce <- attr coreelectrons ;;
     v <- lift (getitem ce (atomcopy - 1)) ;;
     ce <- attr coreelectrons ;;
     ce <- lift (setitem ce (atomnum - 1) v) ;;
     modify (set_coreelectrons (Some ce))
   else ret tt) ;;
  line <- next ;;
  '(_, line) <- while_next
                  (fun l => Val (negb (Nat.eqb (List.length (split l)) 0)))
                  (fun _ (u : unit) => Val u) line tt ;;
  header <- next ;;
  ret (header, line).

Definition extract_ecp (line : string) : M string :=
  if ecp_trigger line then
    g <- get_self ;;
    (match coreelectrons g with
     | None =>
         n <- attr natom ;;
         modify (set_coreelectrons (Some (repeat 0 (Z.to_nat n))))
     | Some _ => ret tt
     end) ;;
    dashes <- next ;;
    blank <- next ;;
    header <- next ;;
    fuel <- budget ;;
    '(_, line) <-
      while_M fuel
        (fun '(header, line) =>
           t <- lift (tok header 0) ;;
           ret (String.eqb t "PARAMETERS"))
        (fun '(header, line) => ecp_pass header)
        (header, line) ;;
    ret line
  else ret line.

(** ** [GAMESS.extract] *)

Definition extract (line : string) : M unit :=
  line <- extract_opttol line ;;
  line <- extract_scfenergy line ;;
  line <- extract_mp line ;;
  line <- extract_ccd line ;;
  line <- extract_ccsd line ;;
  line <- extract_mbpt line ;;
  line <- extract_charge line ;;
  line <- extract_etenergies line ;;
  line <- extract_cihamtyp line ;;
  line <- extract_excited_state line ;;
  line <- extract_etoscs line ;;
  line <- extract_geovalues line ;;
  line <- extract_atomic_coordinates line ;;
  line <- extract_equilibrium line ;;
  line <- extract_std_orientation line ;;
  line <- extract_scf line ;;
  line <- extract_vib line ;;
  line <- extract_basis line ;;
  line <- extract_eigenvectors line ;;
  line <- extract_homos line ;;
  line <- extract_guess line ;;
  line <- extract_natom line ;;
  line <- extract_nbasis_chain line ;;
  line <- extract_ecp line ;;
  ret tt.

(** Modelled from the spec: the parse driver, which is in a module of the
    repository that is not among the sources at hand.  It runs
    [before_parsing], then hands every line it reads to [extract], which
    goes on reading from the same stream; an exception raised by [extract]
    ends the parse. *)
Fixpoint parse_lines (fuel : nat) : M unit :=
  fun s =>
    match inputfile s with
    | [] => Ok tt s
    | line :: rest =>
        match fuel with
        | O => Timeout
        | S fuel' =>
            (extract line ;; parse_lines fuel') (mkState rest (self s))
        end
    end.

Definition parse (lines : list string) (g : GAMESS) : outcome unit :=
  parse_lines (List.length lines) (mkState lines (before_parsing g)).

End Parser.

(** * Reference definitions and sample inputs *)

(** The rule as the specification words it: a U or a G becomes lower
    case, every other character stays. *)
Definition lower_ug (c : ascii) : ascii :=
  if Ascii.eqb c "U" then "u"%char
  else if Ascii.eqb c "G" then "g"%char
  else c.

Fixpoint map_string (f : ascii -> ascii) (s : string) : string :=
  match s with
  | EmptyString => EmptyString
  | String c s' => String (f c) (map_string f s')
  end.

Definition normalize_rule (c : ascii) (rest : string) : string :=
  if String.eqb rest "''" then String c (String dquote EmptyString)
  else String c (map_string lower_ug rest).

(** The attribute as a list: absent counts as empty. *)
Definition entries {A} (field : option (list A)) : list A :=
  match field with
  | Some l => l
  | None => []
  end.

(** A conversion table to run the blocks on sample lines: the factors
    for the pairs of units the parser asks for. *)
Definition sample_convertor (x : float) (fromunits tounits : string) : float :=
  if (String.eqb fromunits "hartree" && String.eqb tounits "eV")%bool
  then (x * 27.2113845)%float
  else if (String.eqb fromunits "bohr" && String.eqb tounits "Angstrom")%bool
  then (x * 0.529177)%float
  else if (String.eqb fromunits "hartree" && String.eqb tounits "cm-1")%bool
  then (x * 219474.6)%float
  else (x * 42.255)%float.

(** The OPTTOL line of a GAMESS-US log. *)
Definition opttol_line : string :=
  "          OPTTOL = 1.000E-04          RMIN   = 1.500E-03".

(** The three coupled-cluster lines of a log. *)
Definition ccsd_line : string :=
  "        CCSD    ENERGY:    -76.2407243400   CORR.E=  -0.2190809966".
Definition ccsd_t_square_line : string :=
  "        CCSD[T] ENERGY:    -76.2440337409   CORR.E=  -0.2223903975".
Definition ccsd_t_round_line : string :=
  "        CCSD(T) ENERGY:    -76.2437236220   CORR.E=  -0.2220802786".

(** The rows of contributions end at the first line whose first
    character, once the line is stripped, is a dash. *)
Definition starts_with_dash (l : string) : Prop :=
  sgetitem (strip l) 0 = Val "-"%char.

Definition row_before_dash (l : string) : Prop :=
  exists c : ascii, sgetitem (strip l) 0 = Val c /\ c <> "-"%char.

(** What the specification says of one contribution row: the two
    orbital indices are the last-but-two and last-but-one tokens minus
    one, the spin channel is 1 exactly when the Hamiltonian type is
    "dets" and the first token is "BETA", and the coefficient is the last
    token, divided by the square root of 2 exactly when the type is
    "saps". *)
Definition contrib_of (ham : hamtyp) (row : string) (c : contrib) : Prop :=
  exists (fromMO toMO : Z) (raw : float) (first : string),
    tok row 0 = Val first
    /\ tok_int row (-3) = Val fromMO
    /\ tok_int row (-2) = Val toMO
    /\ tok_float row (-1) = Val raw
    /\ let channel :=
         match ham with
         | ham_dets => if String.eqb first "BETA" then 1 else 0
         | _ => 0
         end in
       let coeff :=
         match ham with
         | ham_saps => (raw / PrimFloat.sqrt 2)%float
         | _ => raw
         end in
       c = ((fromMO - 1, channel), (toMO - 1, channel), coeff).

(** The head of an EXCITED STATE block of a CIS log, and its lines. *)
Definition excited_state_line : string :=
  " EXCITED STATE   1  ENERGY=     -381.6912828264  S = 0.0  SPACE SYM = BU".
Definition excited_state_lines : list string :=
  [ EmptyString;
    " ----------------------------------------------";
    "    SAP       OCC       VIR      SAP COEFFICIENT";
    "                I         J         OCC-->VIR";
    " ----------------------------------------------";
    "    13        35        36         0.124795";
    "    14        34        37        -0.500000";
    " ----------------------------------------------";
    " " ].
Definition excited_state_dets_lines : list string :=
  [ EmptyString;
    " -------------------------------------------------------";
    "    DETERMINANT   OCC       VIR      COEFFICIENT";
    "                   I         J         OCC-->VIR";
    " -------------------------------------------------------";
    "    ALPHA         35        36         0.124795";
    "    BETA          34        37        -0.500000";
    " -------------------------------------------------------";
    " " ].

(** The state in which the sample EXCITED STATE block is read: a SAPS
    Hamiltonian has been announced. *)
Definition excited_state_start : pstate :=
  mkState excited_state_lines (set_cihamtyp ham_saps new_GAMESS).

(** *** Truncated SCF tables

    The lines after an "SCF CALCULATION" line when the input ends before
    the blank line that closes the iteration table.  Before the header of
    the table, a line is read without error when the value after a
    "DENSITY CONV=" or "DENSITY MATRIX CONV=" parses; in the table, when
    the row either has no iteration number or has a sixth token that
    parses. *)
Definition is_conv_line (l : string) : bool :=
  ((0 <=? find "DENSITY CONV=" l) || (0 <=? find "DENSITY MATRIX CONV=" l))%bool.

Definition header_line_ok (l : string) : Prop :=
  find "ITER EX" l < 0 /\ exists t, scf_header_row l None = Val t.

Definition table_row_ok (l : string) : Prop :=
  truthy (strip l) = true /\ exists vs, scf_table_row l [] = Val vs.

Inductive scf_truncated : list string -> Prop :=
| truncated_before_table (lines : list string) :
    Forall header_line_ok lines ->
    scf_truncated lines
| truncated_in_table (pre : list string) (hdr : string) (table : list string) :
    Forall header_line_ok pre ->
    Exists (fun l => is_conv_line l = true) pre ->
    0 <= find "ITER EX" hdr ->
    Forall table_row_ok table ->
    scf_truncated (pre ++ hdr :: table)%list.

(** The start of an SCF section that breaks off in its table. *)
Definition scf_line : string := "          RHF SCF CALCULATION".
Definition scf_truncated_lines : list string :=
  [ EmptyString;
    "     DENSITY CONV=  1.00E-05";
    " ITER EX DEM  TOTAL ENERGY      E CHANGE  DENSITY CHANGE    DIIS ERROR";
    "   1  0  0 -379.7 -379.7 0.56 0.0";
    " * * *   INITIATING DIIS PROCEDURE   * * *";
    "   2  1  0 -379.7 -379.7 0.16 0.0" ].

(** The lines left when an SCF section starts do not hold the blank line
    that closes the iteration table: either no line has the header of
    the table ("ITER EX"), or no line after the first one that has it is
    blank. *)
Fixpoint open_table (lines : list string) : bool :=
  match lines with
  | [] => true
  | l :: rest =>
      if find "ITER EX" l <? 0 then open_table rest
      else forallb (fun r => truthy (strip r)) rest
  end.

(** Claim C9 as the specification words it: on such an input the block
    fails with the exhaustion of the stream, and [scfvalues] is as it
    was. *)
Definition truncation_is_stream_exhaustion : Prop :=
  forall (line : string) (s : pstate),
    slice (Some (-15)) None (rstrip line) = "SCF CALCULATION" ->
    open_table (inputfile s) = true ->
    exists s',
      extract_scf line s = Raise StopIteration s'
      /\ scfvalues (self s') = scfvalues (self s).

(** An SCF section whose table is cut in the middle of its second row. *)
Definition scf_cut_lines : list string :=
  [ EmptyString;
    "     DENSITY CONV=  1.00E-05";
    " ITER EX DEM  TOTAL ENERGY      E CHANGE  DENSITY CHANGE    DIIS ERROR";
    "   1  0  0 -379.7 -379.7 0.56 0.0";
    "   2  1  0 -379.7 -37" ].

(** *** Relations kept by every step of a block

    [steps R m]: whenever [m] returns or raises, the parser object it
    leaves is related by [R] to the one it started from. *)
Definition steps (R : GAMESS -> GAMESS -> Prop) {A} (m : M A) : Prop :=
  forall s : pstate,
    match m s with
    | Ok _ s' => R (self s) (self s')
    | Raise _ s' => R (self s) (self s')
    | Timeout => True
    end.

(** Once the first standard orientation has been seen, the flag stays
    cleared and the geometry sequence only grows at its end. *)
Definition grows (g g' : GAMESS) : Prop :=
  firststdorient g = false ->
  firststdorient g' = false
  /\ forall l, atomcoords g = Some l ->
               exists more, atomcoords g' = Some (l ++ more)%list.

(** What a row of a standard-orientation table gives: its third to
    fifth tokens as floats. *)
Definition std_row_of (row : string) (xyz : list float) : Prop :=
  map_res float_of_str (lslice (Some 2) (Some 5) (split (strip row))) = Val xyz.

(** A log with an input-orientation block, a standard-orientation block,
    and then both once more. *)
Definition geometry_log : list string :=
  [ " ATOM      ATOMIC                      COORDINATES (BOHR)";
    "           CHARGE         X                   Y                   Z";
    " C           6.0     1.0000000000        2.0000000000        0.0000000000";
    " H           1.0     0.0000000000       -2.5000000000        0.0000000000";
    EmptyString;
    " COORDINATES OF ALL ATOMS ARE (ANGS)";
    "   ATOM   CHARGE       X              Y              Z";
    " ------------------------------------------------------------";
    " C           6.0   0.5000000000   1.0000000000   0.0000000000";
    " H           1.0   0.0000000000  -1.2500000000   0.0000000000";
    EmptyString;
    " ATOM      ATOMIC                      COORDINATES (BOHR)";
    "           CHARGE         X                   Y                   Z";
    " C           6.0     3.0000000000        2.0000000000        0.0000000000";
    " H           1.0     0.0000000000       -2.5000000000        0.0000000000";
    EmptyString;
    " COORDINATES OF ALL ATOMS ARE (ANGS)";
    "   ATOM   CHARGE       X              Y              Z";
    " ------------------------------------------------------------";
    " C           6.0   0.7500000000   1.0000000000   0.0000000000";
    " H           1.0   0.0000000000  -1.2500000000   0.0000000000";
    EmptyString ].

(** The geometries of its last three blocks. *)
Definition first_std_geometry : geometry :=
  [[0.5; 1; 0]; [0; -1.25; 0]]%float.
Definition second_input_geometry : geometry :=
  [ map (fun x => sample_convertor x "bohr" "Angstrom") [3; 2; 0]%float;
    map (fun x => sample_convertor x "bohr" "Angstrom") [0; -2.5; 0]%float ].
Definition second_std_geometry : geometry :=
  [[0.75; 1; 0]; [0; -1.25; 0]]%float.

(** The last part of claim C8 as the specification words it: once the
    first standard orientation has been seen, an input-orientation block
    leaves nothing in the geometry sequence. *)
Definition placeholders_never_retained
    (convertor : float -> string -> string -> float) : Prop :=
  forall (line line' : string) (s s' : pstate),
    firststdorient (self s) = false ->
    extract_atomic_coordinates convertor line s = Ok line' s' ->
    atomcoords (self s') = atomcoords (self s).

Definition basis_log : list string :=
  [ "     ----------------";
    " THE CONTRACTED PRIMITIVE FUNCTIONS HAVE BEEN UNNORMALIZED";
    EmptyString;
    " SHELL TYPE PRIM    EXPONENT          CONTRACTION COEFFICIENTS";
    EmptyString;
    " C         ";
    EmptyString;
    "   1   S    1      71.616837    2.707814 (  0.154329) ";
    "   1   S    2      13.045096    2.618880 (  0.535328) ";
    EmptyString;
    "   2   L    3       2.941249   -0.160017 ( -0.099967)     0.856045 (  0.155916) ";
    "   2   L    4       0.683483    0.214036 (  0.399513)     0.538304 (  0.607684) ";
    EmptyString;
    "   3   D    5       0.800000    1.000000 (  1.000000) ";
    EmptyString;
    " H         ";
    EmptyString;
    "   4   S    6       3.425251    0.276934 (  0.154329) ";
    EmptyString;
    " TOTAL NUMBER OF SHELLS             =    4" ].



(** The Raman intensities before the exclusion, when [n] modes were
    read: absent, or a list with one entry for each mode. *)
Definition ramans_ok (n : nat) (vr : option (pyseq float)) : Prop :=
  match vr with
  | None => True
  | Some (PyList rs) => List.length rs = n
  | Some (NdArray _) => False
  end.

(** A sequence with the window of the modes [startrot] to [endrot]
    (counted from 1) cut out. *)
Definition without_window {A} (startrot endrot : Z) (xs : list A) : list A :=
  (firstn (Z.to_nat (startrot - 1)) xs ++ skipn (Z.to_nat endrot) xs)%list.

(** The vibrational section of a log of a molecule of one atom, with
    three modes in one block and the first two taken as rotations and
    translations. *)
Definition vib_line : string :=
  "     NORMAL COORDINATE ANALYSIS IN THE HARMONIC APPROXIMATION".
Definition vib_log : list string :=
  [ " MODES 1 TO 2 ARE TAKEN AS ROTATIONS AND TRANSLATIONS.";
    EmptyString;
    "     FREQUENCIES IN CM**-1, IR INTENSITIES IN DEBYE**2/AMU-ANGSTROM**2";
    EmptyString;
    "                          1           2           3";
    "       FREQUENCY:        52.49 I     41.45       17.61";
    "    REDUCED MASS:      3.92418     3.77048     5.43419";
    "    IR INTENSITY:      0.00013     0.00001     0.00004";
    " RAMAN INTENSITY:       12.675       1.828       0.000";
    "  DEPOLARIZATION:        0.750       0.750       0.124";
    EmptyString;
    "  1   C            X  0.10000000  0.20000000  0.30000000";
    "                   Y  0.40000000  0.50000000  0.60000000";
    "                   Z  0.70000000  0.80000000  0.90000000";
    EmptyString;
    " TRANS. SAYVETZ    X  0.1  0.2  0.3";
    "                   Y  0.1  0.2  0.3";
    "                   Z  0.1  0.2  0.3";
    "               TOTAL  0.1  0.2  0.3";
    EmptyString;
    "   ROT. SAYVETZ    X  0.1  0.2  0.3";
    "                   Y  0.1  0.2  0.3";
    "                   Z  0.1  0.2  0.3";
    "               TOTAL  0.1  0.2  0.3";
    EmptyString;
    "     REFERENCE ON SAYVETZ CONDITIONS - A. SAYVETZ, J.CHEM.PHYS., 7, 383-389(1939)." ].
Definition vib_start : pstate :=
  mkState vib_log (set_atomnos (Some [6]) new_GAMESS).



(** *** Loop budgets

    [within_budget m]: [m] never runs out of budget, and never leaves more
    lines to read than it found. *)
Definition within_budget_at {A} (m : M A) (s : pstate) : Prop :=
  match m s with
  | Ok _ s' | Raise _ s' =>
      (List.length (inputfile s') <= List.length (inputfile s))%nat
  | Timeout => False
  end.

Definition within_budget {A} (m : M A) : Prop :=
  forall s, within_budget_at m s.

(** [consumes m]: moreover [m] reads at least one line when it returns. *)
Definition consumes {A} (m : M A) : Prop :=
  forall s,
    match m s with
    | Ok _ s' => (List.length (inputfile s') < List.length (inputfile s))%nat
    | Raise _ s' => (List.length (inputfile s') <= List.length (inputfile s))%nat
    | Timeout => False
    end.

(** * Relations for the properties of whole calls *)

(** The flag that ends the reading of standard orientations stays set. *)
Definition flag_kept (g g' : GAMESS) : Prop :=
  geooptfinished g = true -> geooptfinished g' = true.


(** A list attribute that is there stays there, with items added at its
    end only. *)
Definition extends {A} (a b : option (list A)) : Prop :=
  forall l, a = Some l -> exists more, b = Some (l ++ more)%list.

Definition append_only (g g' : GAMESS) : Prop :=
  extends (scfenergies g) (scfenergies g')
  /\ extends (ccenergies g) (ccenergies g')
  /\ extends (etsecs g) (etsecs g')
  /\ extends (etsyms g) (etsyms g')
  /\ extends (scftargets g) (scftargets g')
  /\ extends (scfvalues g) (scfvalues g').

(** The entries a row of the SCF iteration table adds to the values of
    the section: its sixth token when its first four characters are a
    number, nothing otherwise. *)
Definition scf_row_values (row : string) : list (list float) :=
  match int_of_str (slice (Some 0) (Some 4) row), tok_float row 5 with
  | Val _, Val v => [[v]]
  | _, _ => []
  end.

(** Sample lines for the blocks. *)
Definition final_line_without_is : string := " FINAL ENERGY     -379.7594673378".
Definition quintet_state_line : string :=
  " EXCITED STATE   1  ENERGY=     -381.6912828264  S = 2.0  SPACE SYM = BU".
Definition scf_header_line : string :=
  " ITER EX DEM  TOTAL ENERGY      E CHANGE  DENSITY CHANGE    DIIS ERROR".
Definition scf_rows : list string :=
  [ "   1  0  0 -379.7 -379.7 0.56 0.0";
    " * * *   INITIATING DIIS PROCEDURE   * * *";
    "   2  1  0 -379.7 -379.7 0.16 0.0" ].

(** A row of an L shell: not blank, with "L" as its second token. *)
Definition l_row (row : string) : Prop :=
  truthy (strip row) = true /\ getitem (split (strip row)) 1 = Val "L".

(** Two rows of an L shell. *)
Definition l_rows : list string :=
  [ "   2   L    3       2.941249   -0.160017 ( -0.099967)     0.856045 (  0.155916) ";
    "   2   L    4       0.683483    0.214036    0.538304" ].

(** The dictionary [coeff] after [n] rows of an L shell: empty before
    the first row, then an S and a P entry with [n] primitives each and
    the same exponents. *)
Definition l_coeff (n : nat) (coeff : coeffs) : Prop :=
  match n with
  | O => coeff = []
  | S _ =>
      exists sp pp : list (float * float),
        coeff = [("S", sp); ("P", pp)]
        /\ map fst sp = map fst pp
        /\ List.length sp = n
  end.

(** Sample lines for the blocks of energies, charge and orbitals. *)
Definition mbpt_line : string := "        MBPT(2) ENERGY:     -76.2306328196".
Definition charge_line : string :=
  " CHARGE OF MOLECULE                          =    0".
Definition mult_line : string :=
  " SPIN MULTIPLICITY                          =    1".
Definition mp2_line : string := "      E(MP2)=      -286.7247480864".
Definition etoscs_line : string :=
  " TRANSITION FROM THE GROUND STATE TO EXCITED STATE 1".
Definition etoscs_skipped : list string :=
  [ " -------------------------------------------------------";
    " STATE MULTIPLICITIES            =     1         1";
    " STATE ENERGIES                    -381.6558  -381.5086";
    " TRANSITION ENERGY    =   32300.63 [1/CM] =   4.00 [EV]";
    " TRANSITION DIPOLE    =   0.000000   0.000000   0.000000 E*BOHR";
    " DIPOLE LENGTH        =   0.000000   0.000000   0.000000 X 10**-8 CM";
    " TRANSITION DIPOLE SQ =   0.000000" ].
Definition strength_line : string := " OSCILLATOR STRENGTH =     0.003350".
Definition gradient_line : string :=
  "      MAXIMUM GRADIENT =  0.0531540    RMS GRADIENT = 0.0189223".
Definition guess_line : string :=
  "   SYMMETRIES FOR INITIAL GUESS ORBITALS FOLLOW.   BOTH SET(S).".
Definition eigenvectors_line : string := "          EIGENVECTORS".
Definition ecp_line : string := "          ECP POTENTIALS".

(** * Properties *)

(** ** Strings *)

Lemma substring_full (s : string) : substring 0 (String.length s) s = s.
Proof.
  induction s as [|c s IH]; simpl; [reflexivity | now rewrite IH].
Qed.

Lemma slice_tail (c : ascii) (rest : string) :
  slice (Some 1) None (String c rest) = rest.
Proof.
  assert (H : clamp (len (String c rest)) 1 = 1%nat).
  { unfold clamp, len. change (1 <? 0) with false. cbv iota.
    change (String.length (String c rest)) with (S (String.length rest)). lia. }
  unfold slice. rewrite H. simpl. rewrite Nat.sub_0_r. apply substring_full.
Qed.

Lemma substring_get (s : string) :
  forall (n m k : nat) (c : ascii),
    String.get k (substring n m s) = Some c -> String.get (n + k) s = Some c.
Proof.
  induction s as [|a s IH]; intros n m k c H.
  - destruct n, m; simpl in H; discriminate.
  - destruct n as [|n].
    + destruct m as [|m]; simpl in H; [discriminate|].
      destruct k as [|k]; simpl in *; [assumption|].
      apply (IH 0%nat m k c H).
    + simpl in *. apply (IH n m k c H).
Qed.

Lemma substring_empty_from_end (s : string) (m : nat) :
  substring (String.length s) m s = EmptyString.
Proof.
  induction s as [|a s IH]; simpl; [destruct m; reflexivity | assumption].
Qed.

(** A character of [line[i:j]] is the character of [line] at that offset. *)
Lemma slice_get (i j : Z) (s : string) (k : nat) (c : ascii) :
  0 <= i ->
  String.get k (slice (Some i) (Some j) s) = Some c ->
  String.get (Z.to_nat i + k) s = Some c.
Proof.
  intros Hi H. unfold slice, clamp, len in H.
  destruct (i <? 0) eqn:E; [apply Z.ltb_lt in E; lia|].
  destruct (Z_le_gt_dec i (Z.of_nat (String.length s))) as [Hle|Hgt].
  - rewrite (Z.min_r _ i Hle), (Z.max_r 0 i Hi) in H.
    eapply substring_get; eassumption.
  - rewrite Z.min_l, Z.max_r, Nat2Z.id in H by lia.
    rewrite substring_empty_from_end in H. discriminate.
Qed.

(** [line.find(sub) == n] gives the occurrence at [n]. *)
Lemma find_at (sub s : string) (n : Z) :
  0 <= n -> find sub s = n ->
  substring (Z.to_nat n) (String.length sub) s = sub.
Proof.
  unfold find. intros Hn H.
  destruct (String.index 0 sub s) as [m|] eqn:E; [|lia].
  subst n. rewrite Nat2Z.id. eapply index_correct1; eassumption.
Qed.

(** ** The symmetry labels (C4, C10) *)

Lemma replace_ug (s : string) :
  replace "G" "g" (replace "U" "u" s) = map_string lower_ug s.
Proof.
  induction s as [|c s IH]; simpl; [reflexivity|].
  rewrite IH. f_equal. unfold lower_ug.
  destruct (Ascii.eqb c "U") eqn:EU.
  - reflexivity.
  - reflexivity.
Qed.

Lemma normalisesym_cons (c : ascii) (rest : string) :
  normalisesym (String c rest) = Val (normalize_rule c rest).
Proof.
  unfold normalisesym, normalize_rule.
  rewrite slice_tail, replace_ug.
  destruct (String.eqb rest "''"); reflexivity.
Qed.

(** C4: on a label with first character [c] and remainder [rest],
    [normalisesym] returns [c] followed by one double quote when [rest]
    is two single quotes, and otherwise [c] followed by [rest] with every
    U and G in lower case and every other character unchanged; the five
    examples of the specification hold. *)
Theorem normalisesym_rule :
  (forall (c : ascii) (rest : string),
      normalisesym (String c rest) = Val (normalize_rule c rest))
  /\ normalisesym "A" = Val "A"
  /\ normalisesym "A1G" = Val "A1g"
  /\ normalisesym "A'" = Val "A'"
  /\ normalisesym "A''" = Val (String "A" (String dquote EmptyString))
  /\ normalisesym "AG" = Val "Ag".
Proof.
  split; [exact normalisesym_cons | repeat split; reflexivity].
Qed.

(** C10: [normalisesym] raises [IndexError] on the empty label, and
    returns a value on every other label. *)
Theorem normalisesym_partial :
  normalisesym EmptyString = Exc IndexError
  /\ (forall (c : ascii) (rest : string),
         exists v, normalisesym (String c rest) = Val v)
  /\ (forall label : string,
         (exists e, normalisesym label = Exc e) <-> label = EmptyString).
Proof.
  split; [reflexivity|]. split.
  - intros c rest. exists (normalize_rule c rest).
    apply normalisesym_cons.
  - intros label. split.
    + intros [e H]. destruct label as [|c rest]; [reflexivity|].
      rewrite normalisesym_cons in H. discriminate.
    + intros ->. exists IndexError. reflexivity.
Qed.

(** ** Reasoning about blocks *)

Lemma bind_Ok {A B} (m : M A) (k : A -> M B) (s s' : pstate) (b : B) :
  bind m k s = Ok b s' ->
  exists a s1, m s = Ok a s1 /\ k a s1 = Ok b s'.
Proof.
  unfold bind. destruct (m s) as [a s1|e s1|]; intros H; try discriminate.
  exists a, s1. split; [reflexivity | assumption].
Qed.

Lemma bind_Raise {A B} (m : M A) (k : A -> M B) (s s' : pstate) (e : exn) :
  bind m k s = Raise e s' ->
  m s = Raise e s' \/ exists a s1, m s = Ok a s1 /\ k a s1 = Raise e s'.
Proof.
  unfold bind. destruct (m s) as [a s1|e1 s1|]; intros H; try discriminate.
  - right. exists a, s1. split; [reflexivity | assumption].
  - left. inversion H; subst. reflexivity.
Qed.

Lemma lift_Ok {A} (r : res A) (s s' : pstate) (a : A) :
  lift r s = Ok a s' -> r = Val a /\ s' = s.
Proof.
  unfold lift. destruct r; intros H; inversion H; subst; split; reflexivity.
Qed.

Lemma res_bind_Val {A B} (r : res A) (k : A -> res B) (b : B) :
  res_bind r k = Val b -> exists a, r = Val a /\ k a = Val b.
Proof.
  destruct r as [a|e]; simpl; intros H; [|discriminate].
  exists a. split; [reflexivity | assumption].
Qed.

(** Splits a hypothesis [H : (x <- m ;; k) s = Ok b s'] in two. *)
Ltac bind_ok H :=
  let a := fresh "a" in
  let s1 := fresh "s" in
  let H1 := fresh H "m" in
  apply bind_Ok in H as (a & s1 & H1 & H).

(** ** The molecular-orbital trigger (C2) *)

Lemma substring_length_le (s : string) :
  forall n m : nat, (String.length (substring n m s) <= m)%nat.
Proof.
  induction s as [|a s IH]; intros n m.
  - destruct n, m; simpl; lia.
  - destruct n as [|n].
    + destruct m as [|m]; simpl; [lia|]. specialize (IH 0%nat m). lia.
    + simpl. apply IH.
Qed.

(** A slice as long as its bounds are apart is the substring at the
    lower bound. *)
Lemma slice_substring (i j : Z) (s p : string) :
  0 <= i < j ->
  slice (Some i) (Some j) s = p ->
  String.length p = Z.to_nat (j - i) ->
  substring (Z.to_nat i) (Z.to_nat (j - i)) s = p.
Proof.
  intros Hij H Hlen. unfold slice, clamp, len in H.
  destruct (i <? 0) eqn:Ei; [apply Z.ltb_lt in Ei; lia|].
  destruct (j <? 0) eqn:Ej; [apply Z.ltb_lt in Ej; lia|].
  pose proof (substring_length_le s
    (Z.to_nat (Z.max 0 (Z.min (Z.of_nat (String.length s)) i)))
    (Z.to_nat (Z.max 0 (Z.min (Z.of_nat (String.length s)) j))
     - Z.to_nat (Z.max 0 (Z.min (Z.of_nat (String.length s)) i)))) as L.
  rewrite H, Hlen in L.
  assert (Hn : j <= Z.of_nat (String.length s)) by lia.
  rewrite <- H. f_equal; lia.
Qed.

(** X2: the half of the test that works: a line with "EIGENVECTORS" at
    offset 10 fires the eigenvector block. *)
Lemma eigenvectors_at_offset_10 (line : string) :
  slice (Some 10) (Some 22) line = "EIGENVECTORS" ->
  eigenvectors_trigger line = true.
Proof.
  intros H. unfold eigenvectors_trigger. apply orb_true_iff. left.
  apply Z.eqb_eq.
  assert (Hs : substring 10 12 line = "EIGENVECTORS").
  { apply (slice_substring 10 22 line); [lia | assumption | reflexivity]. }
  assert (G : forall (k : nat) (c : ascii),
             String.get k "EIGENVECTORS" = Some c ->
             String.get (10 + k) line = Some c).
  { intros k c Hk. apply (slice_get 10 22 line k c); [lia|]. now rewrite H. }
  unfold find. destruct (String.index 0 "EIGENVECTORS" line) as [m|] eqn:E.
  - destruct (Nat.lt_trichotomy m 10) as [Hlt|[->|Hgt]].
    + exfalso. pose proof (index_correct1 _ _ _ _ E) as Hm.
      assert (HS : String.get (m + 11) line = Some "S"%char).
      { apply (substring_get line m (String.length "EIGENVECTORS") 11).
        rewrite Hm. reflexivity. }
      do 10 (destruct m as [|m];
             [ match type of HS with
               | String.get ?n line = _ =>
                   let k := eval compute in (n - 10)%nat in
                   let c := eval compute in (String.get k "EIGENVECTORS") in
                   match c with
                   | Some ?c' =>
                       pose proof (G k c' eq_refl) as G';
                       simpl in G', HS; rewrite HS in G'; discriminate
                   end
               end | ]).
      lia.
    + reflexivity.
    + exfalso. apply (index_correct2 _ _ _ _ E 10%nat); [lia | lia | exact Hs].
  - exfalso. apply (index_correct3 0 10 _ _ E); [discriminate | lia | exact Hs].
Qed.

(** C2, the second string: a line with "MOLECULAR ORBITALS" at offset 10
    does not fire the block, because the test looks for the misspelt
    "MOLECULAR OBRITALS". *)
Theorem molecular_orbitals_not_triggered (line : string) :
  slice (Some 10) (Some 28) line = "MOLECULAR ORBITALS" ->
  eigenvectors_trigger line = false.
Proof.
  intros H. unfold eigenvectors_trigger.
  assert (G : forall (k : nat) (c : ascii),
             String.get k "MOLECULAR ORBITALS" = Some c ->
             String.get (10 + k) line = Some c).
  { intros k c Hk. apply (slice_get 10 28 line k c); [lia|]. now rewrite H. }
  apply orb_false_iff; split; apply Z.eqb_neq; intros F;
    apply find_at in F; try lia.
  - pose proof (substring_get line (Z.to_nat 10)
                  (String.length "EIGENVECTORS") 0 "E") as G1.
    rewrite F in G1. specialize (G1 eq_refl).
    pose proof (G 0%nat "M"%char eq_refl) as G2.
    simpl in G1, G2. rewrite G1 in G2. discriminate.
  - pose proof (substring_get line (Z.to_nat 10)
                  (String.length "MOLECULAR OBRITALS") 11 "B") as G1.
    rewrite F in G1. specialize (G1 eq_refl).
    pose proof (G 11%nat "R"%char eq_refl) as G2.
    simpl in G1, G2. rewrite G1 in G2. discriminate.
Qed.

Lemma molecular_orbitals_not_triggered_witness :
  slice (Some 10) (Some 28) "          MOLECULAR ORBITALS" = "MOLECULAR ORBITALS"
  /\ eigenvectors_trigger "          MOLECULAR ORBITALS" = false.
Proof.
  split; [reflexivity|].
  apply (molecular_orbitals_not_triggered "          MOLECULAR ORBITALS").
  reflexivity.
Defined.

(** ** The OPTTOL line (C1) *)

Lemma fdiv_Val (a b q : float) : fdiv a b = Val q -> q = (a / b)%float.
Proof.
  unfold fdiv. destruct (PrimFloat.eqb b 0); intros H; inversion H. reflexivity.
Qed.

(** Whatever the tokens, the loop leaves [geotargets] as it was or sets
    it to a value and the quotient of 3 by that value. *)
Lemma opttol_loop_targets (temp : list string) :
  forall (xs : list string) (i : Z) (s s' : pstate),
    opttol_loop temp i xs s = Ok tt s' ->
    inputfile s' = inputfile s
    /\ (geotargets (self s') = geotargets (self s)
        \/ exists opttol,
            geotargets (self s') = Some [opttol; (3 / opttol)%float]).
Proof.
  induction xs as [|x xs IH]; intros i s s' H; simpl in H.
  - inversion H; subst. split; [reflexivity | left; reflexivity].
  - bind_ok H. apply IH in H as [Hi Hg].
    assert (Hs : inputfile s0 = inputfile s
                 /\ (geotargets (self s0) = geotargets (self s)
                     \/ exists opttol,
                         geotargets (self s0) = Some [opttol; (3 / opttol)%float])).
    { destruct (0 <=? find "OPTTOL" x).
      - bind_ok Hm. bind_ok Hm. unfold modify in Hm. inversion Hm; subst.
        apply lift_Ok in Hmm as [_ ->]. apply lift_Ok in Hmm0 as [Hq ->].
        apply fdiv_Val in Hq. subst. simpl. split; [reflexivity|].
        right. eexists. reflexivity.
      - inversion Hm; subst. split; [reflexivity | left; reflexivity]. }
    destruct Hs as [Hi0 Hg0]. split; [congruence|].
    destruct Hg as [Hg|Hg]; [|right; exact Hg].
    rewrite Hg. exact Hg0.
Qed.

(** C1, at the line of a log: the second target is 3 divided by OPTTOL,
    30000 for OPTTOL = 0.0001, and not 3 times OPTTOL. *)
Theorem opttol_targets_quotient :
  exists opttol : float,
    float_of_str "1.000E-04" = Val opttol
    /\ extract_opttol opttol_line (mkState [] new_GAMESS)
       = Ok opttol_line
           (mkState [] (set_geotargets (Some [opttol; (3 / opttol)%float]) new_GAMESS))
    /\ (3 / opttol)%float = 30000%float
    /\ (3 / opttol)%float <> (3 * opttol)%float.
Proof.
  eexists. split; [vm_compute; reflexivity|].
  split; [vm_compute; reflexivity|].
  split; [vm_compute; reflexivity|].
  intros H.
  apply (f_equal (fun x => PrimFloat.eqb x 30000)) in H.
  vm_compute in H. discriminate.
Qed.

(** ** The coupled-cluster cascade (C3) *)

Section Properties.

Variable convertor : float -> string -> string -> float.

(** What the block does on a line that fires it, step by step. *)
Lemma extract_ccsd_unfold (l1 : string) (v1 : float) (s : pstate) :
  slice (Some 8) (Some 23) l1 = "CCSD    ENERGY:" ->
  tok_float l1 2 = Val v1 ->
  extract_ccsd convertor l1 s =
  match inputfile s with
  | [] => Raise StopIteration
            (mkState [] (set_ccenergies (Some (entries (ccenergies (self s)))) (self s)))
  | l2 :: rest =>
      if String.eqb (slice (Some 8) (Some 23) l2) "CCSD[T] ENERGY:" then
        match tok_float l2 2 with
        | Exc e => Raise e (mkState rest
                     (set_ccenergies (Some (entries (ccenergies (self s)))) (self s)))
        | Val v2 =>
            match rest with
            | [] => Raise StopIteration (mkState []
                      (set_ccenergies (Some (entries (ccenergies (self s)))) (self s)))
            | l3 :: rest' =>
                if String.eqb (slice (Some 8) (Some 23) l3) "CCSD(T) ENERGY:" then
                  match tok_float l3 2 with
                  | Exc e => Raise e (mkState rest'
                      (set_ccenergies (Some (entries (ccenergies (self s)))) (self s)))
                  | Val v3 =>
                      Ok l3 (mkState rest'
                        (set_ccenergies
                           (Some (entries (ccenergies (self s))
                                  ++ [convertor v3 "hartree" "eV"])%list) (self s)))
                  end
                else
                  Ok l3 (mkState rest'
                    (set_ccenergies
                       (Some (entries (ccenergies (self s))
                              ++ [convertor v2 "hartree" "eV"])%list) (self s)))
            end
        end
      else
        Ok l2 (mkState rest
          (set_ccenergies
             (Some (entries (ccenergies (self s))
                    ++ [convertor v1 "hartree" "eV"])%list) (self s)))
  end.
Proof.
  intros H1 F1. unfold extract_ccsd. rewrite H1. simpl String.eqb. cbv iota.
  destruct s as [inp g]. destruct g.
  unfold init_list, append_attr, bind, modify, get_self, lift, append_to, next,
    ret, set_ccenergies, entries. simpl. rewrite F1.
  destruct ccenergies0, inp as [|l2 rest]; simpl; try reflexivity;
    destruct (String.eqb (slice (Some 8) (Some 23) l2) "CCSD[T] ENERGY:");
    try reflexivity;
    destruct (tok_float l2 2); try reflexivity;
    destruct rest as [|l3 rest']; simpl; try reflexivity;
    destruct (String.eqb (slice (Some 8) (Some 23) l3) "CCSD(T) ENERGY:");
    try reflexivity;
    destruct (tok_float l3 2); reflexivity.
Qed.

(** C3: on a CCSD line followed by a CCSD[T] line and a CCSD(T) line, the
    block appends one value to [ccenergies], the converted CCSD(T)
    value, and leaves the CCSD(T) line in [line]. *)
Theorem ccsd_cascade_last_wins (l1 l2 l3 : string) (rest : list string)
    (g : GAMESS) (v1 v2 v3 : float) :
  slice (Some 8) (Some 23) l1 = "CCSD    ENERGY:" ->
  slice (Some 8) (Some 23) l2 = "CCSD[T] ENERGY:" ->
  slice (Some 8) (Some 23) l3 = "CCSD(T) ENERGY:" ->
  tok_float l1 2 = Val v1 ->
  tok_float l2 2 = Val v2 ->
  tok_float l3 2 = Val v3 ->
  extract_ccsd convertor l1 (mkState (l2 :: l3 :: rest) g)
  = Ok l3 (mkState rest
             (set_ccenergies
                (Some (entries (ccenergies g) ++ [convertor v3 "hartree" "eV"])%list)
                g)).
Proof.
  intros H1 H2 H3 F1 F2 F3.
  rewrite (extract_ccsd_unfold l1 v1 _ H1 F1). simpl.
  rewrite H2, F2, H3, F3. reflexivity.
Qed.

(** X3: the shortest cascade: when the line after the CCSD line is not a
    CCSD[T] line, the CCSD value is the one appended, and that next line
    has been read. *)
Lemma ccsd_alone (l1 l2 : string) (rest : list string) (g : GAMESS) (v1 : float) :
  slice (Some 8) (Some 23) l1 = "CCSD    ENERGY:" ->
  slice (Some 8) (Some 23) l2 <> "CCSD[T] ENERGY:" ->
  tok_float l1 2 = Val v1 ->
  extract_ccsd convertor l1 (mkState (l2 :: rest) g)
  = Ok l2 (mkState rest
             (set_ccenergies
                (Some (entries (ccenergies g) ++ [convertor v1 "hartree" "eV"])%list)
                g)).
Proof.
  intros H1 H2 F1. rewrite (extract_ccsd_unfold l1 v1 _ H1 F1). simpl.
  apply String.eqb_neq in H2. rewrite H2. reflexivity.
Qed.

(** X4: when a CCSD[T] line follows but no CCSD(T) line, the CCSD[T]
    value is the one appended, and two further lines have been read. *)
Lemma ccsd_then_square (l1 l2 l3 : string) (rest : list string) (g : GAMESS)
    (v1 v2 : float) :
  slice (Some 8) (Some 23) l1 = "CCSD    ENERGY:" ->
  slice (Some 8) (Some 23) l2 = "CCSD[T] ENERGY:" ->
  slice (Some 8) (Some 23) l3 <> "CCSD(T) ENERGY:" ->
  tok_float l1 2 = Val v1 ->
  tok_float l2 2 = Val v2 ->
  extract_ccsd convertor l1 (mkState (l2 :: l3 :: rest) g)
  = Ok l3 (mkState rest
             (set_ccenergies
                (Some (entries (ccenergies g) ++ [convertor v2 "hartree" "eV"])%list)
                g)).
Proof.
  intros H1 H2 H3 F1 F2. rewrite (extract_ccsd_unfold l1 v1 _ H1 F1). simpl.
  apply String.eqb_neq in H3. rewrite H2, F2, H3. reflexivity.
Qed.

End Properties.

Lemma ccsd_cascade_last_wins_witness :
  slice (Some 8) (Some 23) ccsd_line = "CCSD    ENERGY:"
  /\ slice (Some 8) (Some 23) ccsd_t_square_line = "CCSD[T] ENERGY:"
  /\ slice (Some 8) (Some 23) ccsd_t_round_line = "CCSD(T) ENERGY:"
  /\ exists v1 v2 v3 : float,
      tok_float ccsd_line 2 = Val v1
      /\ tok_float ccsd_t_square_line 2 = Val v2
      /\ tok_float ccsd_t_round_line 2 = Val v3
      /\ extract_ccsd sample_convertor ccsd_line
           (mkState [ccsd_t_square_line; ccsd_t_round_line] new_GAMESS)
         = Ok ccsd_t_round_line
             (mkState []
                (set_ccenergies
                   (Some (entries (ccenergies new_GAMESS)
                          ++ [sample_convertor v3 "hartree" "eV"])%list)
                   new_GAMESS)).
Proof.
  split; [reflexivity|]. split; [reflexivity|]. split; [reflexivity|].
  eexists. eexists. eexists.
  split; [vm_compute; reflexivity|].
  split; [vm_compute; reflexivity|].
  split; [vm_compute; reflexivity|].
  eapply (ccsd_cascade_last_wins sample_convertor ccsd_line ccsd_t_square_line
            ccsd_t_round_line); vm_compute; reflexivity.
Defined.

(** ** The CIS contributions (C7) *)

Lemma getitem_first_of_last {A} (xs : list A) (a : A) :
  getitem xs (-1) = Val a -> exists b, getitem xs 0 = Val b.
Proof.
  destruct xs as [|b xs]; [discriminate|]. intros _. exists b. reflexivity.
Qed.

(** A pass of the loop that succeeds adds one contribution, the one the
    specification describes. *)
Lemma cis_row_contrib (ham : hamtyp) (row : string) (acc acc' : list contrib) :
  cis_row ham row acc = Val acc' ->
  exists c, acc' = (acc ++ [c])%list /\ contrib_of ham row c.
Proof.
  unfold cis_row. intros H.
  apply res_bind_Val in H as (motype & Hm & H).
  apply res_bind_Val in H as (fromMO & Hf & H).
  apply res_bind_Val in H as (toMO & Ht & H).
  apply res_bind_Val in H as (raw & Hr & H).
  inversion H; subst; clear H.
  eexists. split; [reflexivity|].
  assert (Hfirst : exists first, tok row 0 = Val first).
  { unfold tok_float in Hr. apply res_bind_Val in Hr as (t & Ht' & _).
    eapply getitem_first_of_last. exact Ht'. }
  destruct Hfirst as [first Hfirst].
  exists fromMO, toMO, raw, first. repeat split; try assumption.
  unfold cis_motype in Hm. unfold cis_scale. destruct ham.
  - inversion Hm; subst. reflexivity.
  - inversion Hm; subst. reflexivity.
  - rewrite Hfirst in Hm. simpl in Hm. inversion Hm; subst. reflexivity.
Qed.

(** The loop over the rows: the lines it went through, up to the line
    it stopped at, each gave its contribution, in order. *)
Lemma cis_cond_true (row : string) :
  cis_cond row = Val true -> row_before_dash row.
Proof.
  unfold cis_cond, row_before_dash. intros H.
  apply res_bind_Val in H as (c & Hc & H). exists c. split; [assumption|].
  injection H as Hneg. intros E. subst c. discriminate Hneg.
Qed.

Lemma cis_cond_false (l : string) :
  cis_cond l = Val false -> starts_with_dash l.
Proof.
  unfold cis_cond, starts_with_dash. intros H.
  apply res_bind_Val in H as (c & Hc & H). injection H as Hneg.
  destruct (Ascii.eqb c "-") eqn:E; [|discriminate].
  apply Ascii.eqb_eq in E. now subst.
Qed.

Lemma cis_rows_contribs (ham : hamtyp) :
  forall (rest : list string) (line : string) (acc acc' : list contrib)
         (line' : string) (rest' : list string),
    while_lines cis_cond (cis_row ham) line acc rest = (Val (acc', line'), rest') ->
    exists rows cs,
      line :: rest = (rows ++ line' :: rest')%list
      /\ acc' = (acc ++ cs)%list
      /\ Forall2 (contrib_of ham) rows cs
      /\ Forall (fun row => cis_cond row = Val true) rows
      /\ cis_cond line' = Val false.
Proof.
  induction rest as [|l rest IH]; intros line acc acc' line' rest' H; simpl in H.
  - destruct (cis_cond line) as [[|]|e] eqn:Hcond; try (inversion H; fail).
    + destruct (cis_row ham line acc); inversion H.
    + inversion H; subst. exists [], []. rewrite app_nil_r.
      split; [reflexivity|]. split; [reflexivity|].
      split; [constructor|]. split; [constructor | assumption].
  - destruct (cis_cond line) as [[|]|e] eqn:Hcond; try (inversion H; fail).
    + destruct (cis_row ham line acc) as [acc1|e] eqn:Hrow; [|inversion H].
      apply cis_row_contrib in Hrow as (c & -> & Hc).
      apply IH in H as (rows & cs & Hl & -> & Hall & Hconds & Hstop).
      exists (line :: rows), (c :: cs). rewrite Hl, <- app_assoc.
      split; [reflexivity|]. split; [reflexivity|].
      split; [constructor; assumption|].
      split; [constructor; assumption | assumption].
    + inversion H; subst. exists [], []. rewrite app_nil_r.
      split; [reflexivity|]. split; [reflexivity|].
      split; [constructor|]. split; [constructor | assumption].
Qed.

Lemma while_next_Ok {A} (cond : string -> res bool) (body : string -> A -> res A)
    (line : string) (acc : A) (s s' : pstate) (r : A * string) :
  while_next cond body line acc s = Ok r s' ->
  while_lines cond body line acc (inputfile s) = (Val r, inputfile s')
  /\ self s' = self s.
Proof.
  unfold while_next.
  destruct (while_lines cond body line acc (inputfile s)) as [[r0|e] rest];
    intros H; inversion H; subst. split; reflexivity.
Qed.

Lemma skip_lines_Ok :
  forall (n : nat) (line line' : string) (s s' : pstate),
    skip_lines (S n) line s = Ok line' s' ->
    exists skipped,
      List.length skipped = n
      /\ inputfile s = (skipped ++ line' :: inputfile s')%list
      /\ self s' = self s.
Proof.
  induction n as [|n IH]; intros line line' s s' H.
  - simpl in H. bind_ok H. inversion H; subst.
    unfold next in Hm. destruct (inputfile s) as [|l rest] eqn:E; inversion Hm; subst.
    exists []. simpl. repeat split.
  - change (skip_lines (S (S n)) line)
      with (bind next (fun l => skip_lines (S n) l)) in H.
    bind_ok H. apply IH in H as (skipped & Hlen & Hin & Hself).
    unfold next in Hm. destruct (inputfile s) as [|l rest] eqn:E; inversion Hm; subst.
    simpl in *. exists (a :: skipped). simpl. rewrite Hin.
    split; [lia|]. split; [reflexivity | assumption].
Qed.

Lemma append_attr_Ok {A} (get : GAMESS -> option (list A))
    (set : option (list A) -> GAMESS -> GAMESS) (v : A) (s s' : pstate) (u : unit) :
  append_attr get set v s = Ok u s' ->
  exists l, get (self s) = Some l
            /\ s' = mkState (inputfile s) (set (Some (l ++ [v])%list) (self s)).
Proof.
  unfold append_attr, bind, get_self, lift, append_to, modify.
  destruct (get (self s)) as [l|]; intros H; inversion H; subst.
  exists l. split; reflexivity.
Qed.

Lemma next_Ok (s s' : pstate) (l : string) :
  next s = Ok l s' -> inputfile s = l :: inputfile s' /\ self s' = self s.
Proof.
  unfold next. destruct (inputfile s) as [|l0 rest]; intros H; inversion H; subst.
  split; reflexivity.
Qed.

(** One step of the inversion of a block that returned. *)
Ltac m_step :=
  match goal with
  | H : lift _ _ = Ok _ _ |- _ =>
      let E := fresh "E" in apply lift_Ok in H as [E ?]; subst
  | H : ret _ _ = Ok _ _ |- _ => inversion H; subst; clear H
  | H : get_self _ = Ok _ _ |- _ => inversion H; subst; clear H
  | H : modify _ _ = Ok _ _ |- _ => inversion H; subst; clear H
  | H : init_list _ _ _ = Ok _ _ |- _ => inversion H; subst; clear H
  | H : raise _ _ = Ok _ _ |- _ => inversion H
  | H : next _ = Ok _ _ |- _ =>
      let E := fresh "Hnext" in
      let F := fresh "Hself" in apply next_Ok in H as [E F]
  | H : while_next _ _ _ _ _ = Ok _ _ |- _ =>
      let E := fresh "Hloop" in
      let F := fresh "Hself" in apply while_next_Ok in H as [E F]
  | H : append_attr _ _ _ _ = Ok _ _ |- _ =>
      let l := fresh "l" in
      let E := fresh "Hattr" in
      apply append_attr_Ok in H as (l & E & ?); subst
  | H : (let (_, _) := ?x in _) _ = Ok _ _ |- _ => destruct x
  | H : bind _ _ _ = Ok _ _ |- _ => bind_ok H
  end.

(** C7: when the EXCITED STATE block returns, the rows it read are the
    lines from the sixth line after the head up to the first line that
    starts with a dash (after stripping), which is the line it returns;
    the state it appended to [etsecs] holds one contribution for each of
    these rows, in order, and each is as the specification says for the
    Hamiltonian type in force: the coefficient divided by the square root
    of 2 for "saps" and unscaled otherwise, the spin channel 1 only for
    "dets" with a row starting with "BETA". *)
Theorem excited_state_contributions (line line' : string) (s s' : pstate) :
  slice (Some 1) (Some 14) line = "EXCITED STATE" ->
  extract_excited_state line s = Ok line' s' ->
  exists (skipped rows : list string) (cs : list contrib),
    List.length skipped = 5%nat
    /\ inputfile s = (skipped ++ rows ++ line' :: inputfile s')%list
    /\ etsecs (self s') = Some (entries (etsecs (self s)) ++ [cs])%list
    /\ cihamtyp (self s') = cihamtyp (self s)
    /\ Forall2 (contrib_of (cihamtyp (self s))) rows cs
    /\ Forall (fun row => cis_cond row = Val true) rows
    /\ cis_cond line' = Val false
    /\ Forall row_before_dash rows
    /\ starts_with_dash line'.
Proof.
  intros Htrig H. unfold extract_excited_state in H. rewrite Htrig in H.
  simpl String.eqb in H. cbv iota in H.
  bind_ok H. bind_ok H. bind_ok H. bind_ok H. bind_ok H. bind_ok H.
  bind_ok H. bind_ok H. bind_ok H. bind_ok H. bind_ok H.
  destruct a9 as [CIScontribs line1]. bind_ok H. inversion H; subst; clear H.
  unfold init_list, modify in Hm, Hm0. inversion Hm; subst; clear Hm.
  inversion Hm0; subst; clear Hm0.
  apply lift_Ok in Hm1 as [_ Hs2]. apply lift_Ok in Hm2 as [_ Hs3].
  assert (Hs4 : s4 = s3).
  { destruct (a2 =? 0); [inversion Hm3; reflexivity|].
    destruct (a2 =? 1); [inversion Hm3; reflexivity | inversion Hm3]. }
  clear Hm3. apply lift_Ok in Hm4 as [_ Hs5].
  apply append_attr_Ok in Hm5 as (syms & Hsyms & Hs6).
  apply skip_lines_Ok in Hm6 as (skipped1 & Hlen & Hin & Hself).
  apply next_Ok in Hm7 as [Hin7 Hself7].
  inversion Hm8; subst; clear Hm8.
  apply while_next_Ok in Hm9 as [Hloop Hself9].
  apply cis_rows_contribs in Hloop as (rows & cs & Hrows & Hcs & Hall & Hconds & Hstop).
  apply append_attr_Ok in Hm10 as (secs & Hsecs & Hs').
  simpl in *. subst.
  exists (skipped1 ++ [a6])%list, rows, cs.
  split; [rewrite length_app; simpl; lia|].
  split; [simpl; rewrite Hin, Hin7, Hrows, <- app_assoc; reflexivity|].
  rewrite Hself9, Hself7, Hself in *. clear Hself9 Hself7 Hself.
  destruct s as [inp g].
  destruct g as [fso gof ham gt se cc sec0 sym0 ac an st sv vf vi vd vr gb
                   mp chg mul ete eto gv moe mos nm nb moc atb aon hom nat0 aoo
                   core].
  simpl in *.
  destruct sec0, sym0; simpl in *; inversion Hsecs; subst;
    (split; [reflexivity | split; [reflexivity | split; [assumption|]]]);
    (split; [assumption|]); (split; [assumption|]);
    (split; [|apply cis_cond_false; assumption]);
    (eapply Forall_impl; [|eassumption]); intros row Hrow;
    apply cis_cond_true; assumption.
Qed.

Lemma excited_state_contributions_witness :
  slice (Some 1) (Some 14) excited_state_line = "EXCITED STATE"
  /\ exists (line' : string) (s' : pstate),
      extract_excited_state excited_state_line excited_state_start = Ok line' s'
      /\ exists (skipped rows : list string) (cs : list contrib),
          List.length skipped = 5%nat
          /\ inputfile excited_state_start
             = (skipped ++ rows ++ line' :: inputfile s')%list
          /\ etsecs (self s')
             = Some (entries (etsecs (self excited_state_start)) ++ [cs])%list
          /\ cihamtyp (self s') = cihamtyp (self excited_state_start)
          /\ Forall2 (contrib_of (cihamtyp (self excited_state_start))) rows cs
          /\ Forall (fun row => cis_cond row = Val true) rows
          /\ cis_cond line' = Val false
          /\ Forall row_before_dash rows
          /\ starts_with_dash line'.
Proof.
  split; [reflexivity|].
  eexists. eexists. split; [vm_compute; reflexivity|].
  apply (excited_state_contributions excited_state_line);
    [reflexivity | vm_compute; reflexivity].
Defined.

(** ** The truncated SCF table (C9) *)

Lemma while_lines_eq {A} (cond : string -> res bool)
    (body : string -> A -> res A) (line : string) (acc : A) (rest : list string) :
  while_lines cond body line acc rest =
  match cond line with
  | Exc e => (Exc e, rest)
  | Val false => (Val (acc, line), rest)
  | Val true =>
      match body line acc with
      | Exc e => (Exc e, rest)
      | Val acc' =>
          match rest with
          | [] => (Exc StopIteration, [])
          | l :: rest' => while_lines cond body l acc' rest'
          end
      end
  end.
Proof. destruct rest; reflexivity. Qed.

(** A loop whose test holds and whose pass succeeds on every line left
    runs into the end of the input. *)
Lemma while_lines_exhaust {A} (cond : string -> res bool)
    (body : string -> A -> res A) :
  forall (rest : list string) (line : string) (acc : A),
    Forall (fun l => cond l = Val true /\ forall a, exists a', body l a = Val a')
           (line :: rest) ->
    while_lines cond body line acc rest = (Exc StopIteration, []).
Proof.
  induction rest as [|l rest IH]; intros line acc Hall; simpl;
    inversion Hall as [|? ? [Hc Hb] Hrest]; subst;
    rewrite Hc; destruct (Hb acc) as [acc' ->].
  - reflexivity.
  - apply IH. assumption.
Qed.

(** A loop that goes through [pre] and stops at [stop]. *)
Lemma while_lines_stop {A} (cond : string -> res bool)
    (body : string -> A -> res A) (stop : string) (rest : list string) :
  cond stop = Val false ->
  forall (pre : list string) (line : string) (tail : list string) (acc : A),
    Forall (fun l => cond l = Val true /\ forall a, exists a', body l a = Val a') pre ->
    (line :: tail = pre ++ stop :: rest)%list ->
    exists acc', while_lines cond body line acc tail = (Val (acc', stop), rest).
Proof.
  intros Hstop. induction pre as [|p pre IH]; intros line tail acc Hall Heq.
  - simpl in Heq. inversion Heq; subst. exists acc.
    destruct rest; simpl; rewrite Hstop; reflexivity.
  - simpl in Heq. inversion Heq; subst. inversion Hall as [|? ? [Hc Hb] Hpre]; subst.
    destruct (Hb acc) as [acc1 Hacc1].
    destruct pre as [|q pre]; simpl.
    + rewrite Hc, Hacc1. apply (IH stop rest acc1 Hpre). reflexivity.
    + rewrite Hc, Hacc1. apply (IH q (pre ++ stop :: rest)%list acc1 Hpre). reflexivity.
Qed.

Lemma scf_header_row_total (l : string) :
  header_line_ok l ->
  forall acc, exists acc',
    scf_header_row l acc = Val acc'
    /\ (is_conv_line l = true -> acc' <> None)
    /\ (acc <> None -> acc' <> None).
Proof.
  intros [_ [t Ht]] acc. unfold scf_header_row in *. fold (is_conv_line l) in *.
  destruct (is_conv_line l).
  - exists t. split; [exact Ht|].
    assert (Hsome : t <> None).
    { apply res_bind_Val in Ht as (x & _ & Ht).
      apply res_bind_Val in Ht as (v & _ & Ht). inversion Ht. discriminate. }
    split; intros _; exact Hsome.
  - exists acc. split; [reflexivity|]. split; [discriminate | trivial].
Qed.

Lemma scf_header_cond_true (l : string) :
  header_line_ok l -> scf_header_cond l = Val true.
Proof.
  intros [H _]. unfold scf_header_cond. apply Z.ltb_lt in H. now rewrite H.
Qed.

Lemma scf_header_exhaust (rest : list string) (line : string) (acc : option float) :
  Forall header_line_ok (line :: rest) ->
  while_lines scf_header_cond scf_header_row line acc rest = (Exc StopIteration, []).
Proof.
  intros H. apply while_lines_exhaust.
  eapply Forall_impl; [|exact H]. intros l Hl. split.
  - apply scf_header_cond_true, Hl.
  - intros a. destruct (scf_header_row_total l Hl a) as (a' & Ha & _). eauto.
Qed.

(** The loop that looks for the header: it stops at the header with the
    target bound when a line with the threshold came before. *)
Lemma scf_header_loop (hdr : string) (table : list string) :
  0 <= find "ITER EX" hdr ->
  forall (pre : list string) (line : string) (tail : list string)
         (acc : option float),
    Forall header_line_ok pre ->
    (line :: tail = pre ++ hdr :: table)%list ->
    acc <> None \/ Exists (fun l => is_conv_line l = true) pre ->
    exists v,
      while_lines scf_header_cond scf_header_row line acc tail
      = (Val (Some v, hdr), table).
Proof.
  intros Hhdr.
  assert (Hstop : scf_header_cond hdr = Val false).
  { unfold scf_header_cond. destruct (find "ITER EX" hdr <? 0) eqn:E;
      [apply Z.ltb_lt in E; lia | reflexivity]. }
  induction pre as [|p pre IH]; intros line tail acc Hall Heq Hacc.
  - simpl in Heq. inversion Heq; subst.
    destruct Hacc as [Hacc|Hex]; [|inversion Hex].
    destruct acc as [v|]; [|contradiction]. exists v.
    rewrite while_lines_eq, Hstop. reflexivity.
  - simpl in Heq. inversion Heq; subst.
    inversion Hall as [|? ? Hp Hpre]; subst.
    destruct (scf_header_row_total p Hp acc) as (acc1 & Hrow & Hconv & Hkeep).
    assert (Hacc1 : acc1 <> None \/ Exists (fun l => is_conv_line l = true) pre).
    { destruct Hacc as [Hacc|Hex]; [left; auto|].
      inversion Hex; subst; [left; auto | right; assumption]. }
    rewrite while_lines_eq, (scf_header_cond_true p Hp), Hrow.
    destruct pre as [|q pre].
    + apply (IH hdr table acc1 Hpre eq_refl Hacc1).
    + apply (IH q (pre ++ hdr :: table)%list acc1 Hpre eq_refl Hacc1).
Qed.

Lemma scf_table_exhaust (rest : list string) (line : string)
    (acc : list (list float)) :
  Forall table_row_ok (line :: rest) ->
  while_lines nonblank scf_table_row line acc rest = (Exc StopIteration, []).
Proof.
  intros H. apply while_lines_exhaust.
  eapply Forall_impl; [|exact H]. intros l [Hl [vs Hvs]]. split.
  - unfold nonblank. now rewrite Hl.
  - intros a. unfold scf_table_row in *.
    destruct (int_of_str (slice (Some 0) (Some 4) l)); [|eauto].
    destruct (tok_float l 5); simpl in *; [eauto | discriminate].
Qed.

(** When the input ends before the blank line that closes the SCF
    iteration table (the header of the table is never found, or no blank
    line follows it) and the lines read parse, the block raises
    [StopIteration] with the input used up, and [scfvalues] has the
    entries it had: no partial entry is appended. *)
Lemma scf_truncated_stops (line : string) (s : pstate) :
  slice (Some (-15)) None (rstrip line) = "SCF CALCULATION" ->
  scf_truncated (inputfile s) ->
  exists s',
    extract_scf line s = Raise StopIteration s'
    /\ inputfile s' = []
    /\ entries (scfvalues (self s')) = entries (scfvalues (self s)).
Proof.
  intros Htrig Htrunc. unfold extract_scf. rewrite Htrig. simpl String.eqb.
  cbv iota. destruct s as [inp g]. simpl in Htrunc.
  inversion Htrunc as [lines Hall|pre hdr table Hpre Hex Hhdr Htable]; subst.
  - (* the header of the table is never found *)
    destruct inp as [|l rest].
    + eexists. split; [reflexivity|]. split; reflexivity.
    + unfold bind, next, while_next. simpl.
      rewrite (scf_header_exhaust rest l None Hall).
      eexists. split; [reflexivity|]. split; reflexivity.
  - (* the table is open when the input ends *)
    destruct pre as [|p pre]; [inversion Hex|].
    destruct (scf_header_loop hdr table Hhdr (p :: pre) p (pre ++ hdr :: table)%list
                None Hpre eq_refl (or_intror Hex)) as [v Hloop].
    unfold bind, next, while_next. simpl. rewrite Hloop.
    destruct g as [fso gof ham gt se cc sec0 sym0 ac an st sv vf vi vd vr gb
                   mp chg mul ete eto gv moe mos nm nb moc atb aon hom nat0 aoo
                   core].
    unfold init_list, append_attr, bind, modify, get_self, lift, append_to.
    simpl.
    destruct table as [|row rows].
    + destruct st, sv; simpl; eexists; (split; [reflexivity|]); split; reflexivity.
    + destruct st, sv; simpl; rewrite (scf_table_exhaust rows row [] Htable);
        eexists; (split; [reflexivity|]); split; reflexivity.
Qed.

Lemma scf_truncated_stops_witness :
  slice (Some (-15)) None (rstrip scf_line) = "SCF CALCULATION"
  /\ scf_truncated scf_truncated_lines
  /\ exists s',
      extract_scf scf_line (mkState scf_truncated_lines new_GAMESS)
      = Raise StopIteration s'
      /\ inputfile s' = []
      /\ entries (scfvalues (self s')) = entries (scfvalues new_GAMESS).
Proof.
  assert (H : scf_truncated scf_truncated_lines).
  { apply (truncated_in_table
             [EmptyString; "     DENSITY CONV=  1.00E-05"]
             " ITER EX DEM  TOTAL ENERGY      E CHANGE  DENSITY CHANGE    DIIS ERROR"
             [ "   1  0  0 -379.7 -379.7 0.56 0.0";
               " * * *   INITIATING DIIS PROCEDURE   * * *";
               "   2  1  0 -379.7 -379.7 0.16 0.0" ]).
    - repeat constructor; try (vm_compute; congruence);
        eexists; vm_compute; reflexivity.
    - apply Exists_cons_tl. apply Exists_cons_hd. reflexivity.
    - vm_compute. congruence.
    - repeat constructor; try reflexivity; eexists; vm_compute; reflexivity. }
  split; [reflexivity|]. split; [exact H|].
  apply (scf_truncated_stops scf_line (mkState scf_truncated_lines new_GAMESS));
    [reflexivity | exact H].
Defined.

(** The loop that looks for the header, on an input without the closing
    blank line: it raises, or it stops at the header with no blank line
    among the lines left. *)
Lemma scf_header_open :
  forall (rest : list string) (line : string) (acc : option float),
    open_table (line :: rest) = true ->
    match while_lines scf_header_cond scf_header_row line acc rest with
    | (Exc _, _) => True
    | (Val _, rest') => forallb (fun r => truthy (strip r)) rest' = true
    end.
Proof.
  induction rest as [|l rest IH]; intros line acc H;
    rewrite while_lines_eq; unfold scf_header_cond at 1;
    cbn [open_table] in H; destruct (find "ITER EX" line <? 0).
  - destruct (scf_header_row line acc); exact I.
  - exact H.
  - destruct (scf_header_row line acc) as [acc'|e]; [|exact I].
    apply IH. exact H.
  - exact H.
Qed.

(** The loop over the table never returns when no line is blank. *)
Lemma scf_table_open :
  forall (rest : list string) (line : string) (acc : list (list float)),
    truthy (strip line) = true ->
    forallb (fun r => truthy (strip r)) rest = true ->
    exists e rest',
      while_lines nonblank scf_table_row line acc rest = (Exc e, rest').
Proof.
  induction rest as [|l rest IH]; intros line acc Hl Hrest;
    rewrite while_lines_eq; unfold nonblank at 1; rewrite Hl.
  - destruct (scf_table_row line acc); eauto.
  - destruct (scf_table_row line acc) as [acc'|e]; [|eauto].
    cbn [forallb] in Hrest. apply andb_true_iff in Hrest as [Hl' Hrest'].
    apply IH; assumption.
Qed.

(** C9, as the code has it: when the lines left at the start of an SCF
    section do not hold the blank line that closes the iteration table,
    the block does not return: it raises an exception, and [scfvalues]
    holds the entries it held (an absent [scfvalues] may have been
    created empty; nothing is appended).  The exception is
    [StopIteration], with the input used up, when moreover the lines
    read parse and a threshold line comes before the header of the
    table. *)
Theorem scf_open_table_raises (line : string) (s : pstate) :
  slice (Some (-15)) None (rstrip line) = "SCF CALCULATION" ->
  open_table (inputfile s) = true ->
  exists (e : exn) (s' : pstate),
    extract_scf line s = Raise e s'
    /\ entries (scfvalues (self s')) = entries (scfvalues (self s))
    /\ (scf_truncated (inputfile s) -> e = StopIteration /\ inputfile s' = []).
Proof.
  intros Htrig Hopen.
  assert (G : exists (e : exn) (s' : pstate),
             extract_scf line s = Raise e s'
             /\ entries (scfvalues (self s')) = entries (scfvalues (self s))).
  { unfold extract_scf. rewrite Htrig, String.eqb_refl.
    destruct s as [inp g]. simpl in Hopen.
    destruct inp as [|l rest]; [eexists; eexists; split; reflexivity|].
    unfold bind at 1. unfold next at 1. cbn [inputfile self].
    unfold bind at 1. unfold while_next at 1. cbn [inputfile self].
    pose proof (scf_header_open rest l None Hopen) as Hhdr.
    destruct (while_lines scf_header_cond scf_header_row l None rest)
      as [[[scftarget hdr]|e] rest'];
      [|eexists; eexists; split; reflexivity].
    destruct g as [fso gof ham gt se cc sec0 sym0 ac an st sv vf vi vd vr gb
                     mp chg mul ete eto gv moe mos nm nb moc atb aon hom nat0 aoo
                     core].
    unfold init_list, append_attr, bind, modify, get_self, lift, append_to,
      raise, ret, next, while_next.
    cbn [inputfile self scftargets scfvalues set_scftargets set_scfvalues].
    destruct scftarget as [v|];
      [|destruct st; eexists; eexists; split; reflexivity].
    destruct rest' as [|row rows].
    - destruct st, sv; simpl; eexists; eexists; split; reflexivity.
    - cbn [forallb] in Hhdr. apply andb_true_iff in Hhdr as [Hrow Hrows].
      destruct (scf_table_open rows row [] Hrow Hrows) as (e & rest'' & Hloop).
      destruct st, sv; simpl; rewrite Hloop;
        eexists; eexists; split; reflexivity. }
  destruct G as (e & s' & Hrun & Hvalues).
  exists e, s'. split; [exact Hrun|]. split; [exact Hvalues|].
  intros Htrunc.
  destruct (scf_truncated_stops line s Htrig Htrunc) as (s'' & Hstop & Hin & _).
  rewrite Hstop in Hrun. injection Hrun as <- <-. split; [reflexivity | exact Hin].
Qed.

Lemma scf_open_table_raises_witness :
  open_table scf_truncated_lines = true
  /\ exists (e : exn) (s' : pstate),
      extract_scf scf_line (mkState scf_truncated_lines new_GAMESS) = Raise e s'
      /\ entries (scfvalues (self s')) = entries (scfvalues new_GAMESS)
      /\ (scf_truncated scf_truncated_lines -> e = StopIteration /\ inputfile s' = []).
Proof.
  split; [reflexivity|].
  apply (scf_open_table_raises scf_line (mkState scf_truncated_lines new_GAMESS));
    reflexivity.
Defined.

(** C9, as the specification has it, fails on [scf_cut_lines]: the table
    is cut in its second row, whose number parses and whose sixth token
    is missing, and the block raises [IndexError], not the exhaustion of
    the stream. *)
Lemma scf_cut_row_raises_index_error :
  ~ truncation_is_stream_exhaustion
  /\ open_table scf_cut_lines = true
  /\ exists s' : pstate,
      extract_scf scf_line (mkState scf_cut_lines new_GAMESS) = Raise IndexError s'
      /\ inputfile s' = []
      /\ scfvalues (self s') = Some []
      /\ scftargets (self s') = Some [[1.0e-5%float]].
Proof.
  assert (Hrun : exists s' : pstate,
             extract_scf scf_line (mkState scf_cut_lines new_GAMESS)
             = Raise IndexError s'
             /\ inputfile s' = []
             /\ scfvalues (self s') = Some []
             /\ scftargets (self s') = Some [[1.0e-5%float]]).
  { eexists. split; [vm_compute; reflexivity|]. repeat split. }
  split; [|split; [reflexivity | exact Hrun]].
  intros H.
  destruct (H scf_line (mkState scf_cut_lines new_GAMESS) eq_refl eq_refl)
    as (s' & Hstop & _).
  destruct Hrun as (s'' & Hidx & _). rewrite Hidx in Hstop. discriminate.
Qed.

(** ** Relations kept by the blocks *)

Section Steps.

Variable R : GAMESS -> GAMESS -> Prop.
Hypothesis R_refl : forall g, R g g.
Hypothesis R_trans : forall g1 g2 g3, R g1 g2 -> R g2 g3 -> R g1 g3.

Lemma steps_ret {A} (a : A) : steps R (ret a).
Proof. intros s. apply R_refl. Qed.

Lemma steps_raise {A} (e : exn) : steps R (@raise A e).
Proof. intros s. apply R_refl. Qed.

Lemma steps_lift {A} (r : res A) : steps R (lift r).
Proof. intros s. unfold lift. destruct r; apply R_refl. Qed.

Lemma steps_next : steps R next.
Proof. intros s. unfold next. destruct (inputfile s); apply R_refl. Qed.

Lemma steps_get_self : steps R get_self.
Proof. intros s. apply R_refl. Qed.

Lemma steps_timeout {A} : steps R (fun _ => @Timeout A).
Proof. intros s. exact I. Qed.

Lemma steps_bind {A B} (m : M A) (k : A -> M B) :
  steps R m -> (forall a, steps R (k a)) -> steps R (bind m k).
Proof.
  intros Hm Hk s. unfold bind. specialize (Hm s).
  destruct (m s) as [a s1|e s1|]; [|assumption|exact I].
  specialize (Hk a s1). destruct (k a s1); try exact I; eapply R_trans; eassumption.
Qed.

Lemma steps_modify (f : GAMESS -> GAMESS) :
  (forall g, R g (f g)) -> steps R (modify f).
Proof. intros H s. apply H. Qed.

Lemma steps_while_next {A} (cond : string -> res bool)
    (body : string -> A -> res A) (line : string) (acc : A) :
  steps R (while_next cond body line acc).
Proof.
  intros s. unfold while_next.
  destruct (while_lines cond body line acc (inputfile s)) as [[r|e] rest];
    apply R_refl.
Qed.

Lemma steps_skip_lines (n : nat) : forall line, steps R (skip_lines n line).
Proof.
  induction n as [|n IH]; intros line; simpl.
  - apply steps_ret.
  - apply steps_bind; [apply steps_next | intros l; apply IH].
Qed.

Lemma steps_find_modes (line : string) : steps R (find_modes line).
Proof.
  intros s. unfold find_modes.
  destruct (modes_lines line false (inputfile s)) as [[r|e] rest]; apply R_refl.
Qed.

Lemma steps_attr {A} (get : GAMESS -> option A) : steps R (attr get).
Proof.
  intros s. unfold attr, bind, get_self, lift.
  destruct (get (self s)); apply R_refl.
Qed.

Lemma steps_budget : steps R budget.
Proof. intros s. apply R_refl. Qed.

Lemma steps_while_M {A} (cond : A -> M bool) (step : A -> M A) :
  (forall a, steps R (cond a)) ->
  (forall a, steps R (step a)) ->
  forall fuel a, steps R (while_M fuel cond step a).
Proof.
  intros Hc Hs. induction fuel as [|fuel IH]; intros a; cbn [while_M];
    (apply steps_bind; [apply Hc|]); intros [|];
    try apply steps_ret; try apply steps_timeout.
  apply steps_bind; [apply Hs | intros a'; apply IH].
Qed.

Lemma steps_for_fold {A B} (body : A -> B -> M B) :
  (forall x b, steps R (body x b)) ->
  forall xs b, steps R (for_fold xs body b).
Proof.
  intros Hb. induction xs as [|x xs IH]; intros b; cbn [for_fold].
  - apply steps_ret.
  - apply steps_bind; [apply Hb | intros b'; apply IH].
Qed.

End Steps.

(** Takes a goal [steps R m] apart along the binds and the tests of [m];
    what is left are the steps that change the parser object. *)
Ltac steps_tac :=
  repeat first
    [ apply steps_ret; assumption
    | apply steps_raise; assumption
    | apply steps_lift; assumption
    | apply steps_next; assumption
    | apply steps_get_self; assumption
    | apply steps_timeout
    | apply steps_while_next; assumption
    | apply steps_skip_lines; assumption
    | apply steps_find_modes; assumption
    | apply steps_attr; assumption
    | apply steps_budget; assumption
    | apply steps_bind; [assumption | | intros ]
    | match goal with
      | |- steps _ (if ?b then _ else _) => destruct b
      | |- steps _ (match ?x with _ => _ end) => destruct x
      | |- steps _ (let (_, _) := ?x in _) => destruct x
      end ].

Section BlockSteps.

Variable convertor : float -> string -> string -> float.
Variable R : GAMESS -> GAMESS -> Prop.
Hypothesis R_refl : forall g, R g g.
Hypothesis R_trans : forall g1 g2 g3, R g1 g2 -> R g2 g3 -> R g1 g3.

(** The assignments to attributes that [R] lets through. *)
Hypothesis R_geooptfinished : forall v g, R g (set_geooptfinished v g).
Hypothesis R_cihamtyp : forall v g, R g (set_cihamtyp v g).
Hypothesis R_geotargets : forall v g, R g (set_geotargets v g).
Hypothesis R_scfenergies : forall v g, R g (set_scfenergies v g).
Hypothesis R_ccenergies : forall v g, R g (set_ccenergies v g).
Hypothesis R_etsecs : forall v g, R g (set_etsecs v g).
Hypothesis R_etsyms : forall v g, R g (set_etsyms v g).
Hypothesis R_vibfreqs : forall v g, R g (set_vibfreqs v g).
Hypothesis R_vibirs : forall v g, R g (set_vibirs v g).
Hypothesis R_vibdisps : forall v g, R g (set_vibdisps v g).
Hypothesis R_vibramans : forall v g, R g (set_vibramans v g).
Hypothesis R_gbasis : forall v g, R g (set_gbasis v g).

Lemma steps_init_list {A} (get : GAMESS -> option (list A))
    (set : option (list A) -> GAMESS -> GAMESS) :
  (forall v g, R g (set v g)) -> steps R (init_list get set).
Proof.
  intros H. apply steps_modify. intros g. destruct (get g); [apply R_refl | apply H].
Qed.

(** Closes the goals [steps_tac] leaves: assignments [R] lets through. *)
Ltac steps_set :=
  first [ apply steps_init_list; solve [auto]
        | apply steps_modify; intros; solve [auto]
        | intros ?; solve [auto] ].

Lemma steps_opttol_loop (temp : list string) :
  forall xs i, steps R (opttol_loop temp i xs).
Proof.
  induction xs as [|x xs IH]; intros i; simpl; steps_tac;
    first [apply IH | steps_set].
Qed.

Lemma steps_extract_opttol (line : string) : steps R (extract_opttol line).
Proof.
  unfold extract_opttol. steps_tac. apply steps_opttol_loop.
Qed.

Lemma steps_extract_scfenergy (line : string) :
  steps R (extract_scfenergy convertor line).
Proof. unfold extract_scfenergy. steps_tac; steps_set. Qed.

Lemma steps_extract_ccd (line : string) : steps R (extract_ccd convertor line).
Proof. unfold extract_ccd. steps_tac; steps_set. Qed.

Lemma steps_extract_ccsd (line : string) : steps R (extract_ccsd convertor line).
Proof. unfold extract_ccsd. steps_tac; steps_set. Qed.

Lemma steps_extract_cihamtyp (line : string) : steps R (extract_cihamtyp line).
Proof. unfold extract_cihamtyp. steps_tac; steps_set. Qed.

Lemma steps_extract_excited_state (line : string) :
  steps R (extract_excited_state line).
Proof. unfold extract_excited_state. steps_tac; steps_set. Qed.

Lemma steps_extract_equilibrium (line : string) :
  steps R (extract_equilibrium line).
Proof. unfold extract_equilibrium. steps_tac; steps_set. Qed.

Lemma steps_disp_axes : forall k q broken, steps R (disp_axes k q broken).
Proof.
  induction k as [|k IH]; intros q broken; simpl; steps_tac. apply IH.
Qed.

Lemma steps_disp_atoms : forall j p broken, steps R (disp_atoms j p broken).
Proof.
  induction j as [|j IH]; intros p broken; simpl; steps_tac;
    first [apply steps_disp_axes | apply IH].
Qed.

Lemma steps_until_blank (blank line : string) : steps R (until_blank blank line).
Proof. unfold until_blank. steps_tac. Qed.

Lemma steps_vib_block (blank : string) : steps R (vib_block convertor blank).
Proof.
  unfold vib_block, extend_vibramans. steps_tac;
    first [ apply steps_disp_atoms
          | steps_set
          | apply steps_modify; intros g0;
            destruct (vibramans g0); [apply R_refl | apply R_vibramans] ].
Qed.

Lemma steps_vib_blocks :
  forall fuel blank freqNo line, steps R (vib_blocks convertor fuel blank freqNo line).
Proof.
  induction fuel as [|fuel IH]; intros blank freqNo line; cbn [vib_blocks];
    destruct (find "SAYVETZ" freqNo =? -1);
    try (apply steps_ret; assumption); try apply steps_timeout.
  apply steps_bind; [assumption | apply steps_vib_block |].
  intros [[blank' freqNo'] line']. apply IH.
Qed.

Lemma steps_vib_exclude (startrot endrot : Z) :
  steps R (vib_exclude startrot endrot).
Proof. unfold vib_exclude. steps_tac; steps_set. Qed.

Lemma steps_vib_read (line : string) : steps R (vib_read convertor line).
Proof.
  unfold vib_read.
  repeat first
    [ apply steps_until_blank
    | apply steps_vib_blocks
    | apply steps_find_modes; assumption
    | apply steps_next; assumption
    | apply steps_lift; assumption
    | apply steps_ret; assumption
    | steps_set
    | apply steps_bind; [assumption | | intros ]
    | match goal with
      | |- steps _ (if ?b then _ else _) => destruct b
      | |- steps _ (let (_, _) := ?x in _) => destruct x
      end ].
Qed.

Lemma steps_extract_vib (line : string) : steps R (extract_vib convertor line).
Proof.
  unfold extract_vib.
  destruct (0 <=? find "NORMAL COORDINATE ANALYSIS IN THE HARMONIC APPROXIMATION" line);
    [|apply steps_ret; assumption].
  apply steps_bind; [assumption | apply steps_vib_read |].
  intros [[startrot endrot] line'].
  apply steps_bind; [assumption | apply steps_vib_exclude |].
  intros _. apply steps_ret; assumption.
Qed.

Lemma steps_basis_shells :
  forall fuel line gb shellsize sym, steps R (basis_shells fuel line gb shellsize sym).
Proof.
  induction fuel as [|fuel IH]; intros line gb shellsize sym; cbn [basis_shells];
    destruct (negb (Nat.eqb (List.length (split line)) 1)
              && (find "TOTAL NUMBER" line <? 0))%bool;
    try (apply steps_ret; assumption); try apply steps_timeout.
  apply steps_bind; [assumption | apply steps_while_next; assumption |].
  intros [[coeff sym'] line'].
  apply steps_bind; [assumption | apply steps_lift; assumption |]. intros new.
  apply steps_bind; [assumption | apply steps_next; assumption |]. intros line''.
  apply IH.
Qed.

Lemma steps_basis_atoms :
  forall fuel line shellcounter sym, steps R (basis_atoms fuel line shellcounter sym).
Proof.
  induction fuel as [|fuel IH]; intros line shellcounter sym; cbn [basis_atoms];
    destruct (find "TOTAL NUMBER" line <? 0);
    try (apply steps_ret; assumption); try apply steps_timeout.
  apply steps_bind; [assumption | apply steps_next; assumption |]. intros blank.
  apply steps_bind; [assumption | apply steps_next; assumption |]. intros line'.
  apply steps_bind; [assumption | apply steps_lift; assumption |]. intros shellno.
  apply steps_bind; [assumption | apply steps_basis_shells |].
  intros [[[line'' gb] shellsize] sym'].
  apply steps_bind; [assumption | apply steps_lift; assumption |]. intros numtoadd.
  apply steps_bind; [assumption | apply steps_get_self; assumption |]. intros g.
  apply steps_bind; [assumption | apply steps_lift; assumption |]. intros l.
  apply steps_bind; [assumption | steps_set |]. intros _.
  apply IH.
Qed.

Lemma steps_extract_basis (line : string) : steps R (extract_basis line).
Proof.
  unfold extract_basis.
  destruct (String.eqb (slice (Some 5) (Some 21) line) "ATOMIC BASIS SET");
    [|apply steps_ret; assumption].
  apply steps_bind; [assumption | steps_set |]. intros _.
  apply steps_bind; [assumption | apply steps_next; assumption |]. intros line0.
  apply steps_bind; [assumption | apply steps_while_next; assumption |].
  intros [u line1].
  apply steps_bind; [assumption | apply steps_next; assumption |]. intros blank.
  apply steps_bind; [assumption | apply steps_next; assumption |]. intros atomname.
  apply steps_bind; [assumption | intros s0; apply R_refl |]. intros fuel.
  apply steps_basis_atoms.
Qed.

End BlockSteps.

(** The same for the blocks that write the other attributes. *)
Section OtherBlockSteps.

Variable convertor : float -> string -> string -> float.
Variable R : GAMESS -> GAMESS -> Prop.
Hypothesis R_refl : forall g, R g g.
Hypothesis R_trans : forall g1 g2 g3, R g1 g2 -> R g2 g3 -> R g1 g3.

Hypothesis R_mpenergies : forall v g, R g (set_mpenergies v g).
Hypothesis R_charge : forall v g, R g (set_charge v g).
Hypothesis R_mult : forall v g, R g (set_mult v g).
Hypothesis R_etenergies : forall v g, R g (set_etenergies v g).
Hypothesis R_etoscs : forall v g, R g (set_etoscs v g).
Hypothesis R_geovalues : forall v g, R g (set_geovalues v g).
Hypothesis R_moenergies : forall v g, R g (set_moenergies v g).
Hypothesis R_mosyms : forall v g, R g (set_mosyms v g).
Hypothesis R_nmo : forall v g, R g (set_nmo v g).
Hypothesis R_nbasis : forall v g, R g (set_nbasis v g).
Hypothesis R_mocoeffs : forall v g, R g (set_mocoeffs v g).
Hypothesis R_atombasis : forall v g, R g (set_atombasis v g).
Hypothesis R_aonames : forall v g, R g (set_aonames v g).
Hypothesis R_homos : forall v g, R g (set_homos v g).
Hypothesis R_natom : forall v g, R g (set_natom v g).
Hypothesis R_aooverlaps : forall v g, R g (set_aooverlaps v g).
Hypothesis R_coreelectrons : forall v g, R g (set_coreelectrons v g).

(** Goes through a block along its binds, tests and loops; the
    assignments are those [R] lets through. *)
Ltac steps_block :=
  repeat match goal with
    | |- steps _ (bind _ _) => apply steps_bind; [assumption | | intros]
    | |- steps _ (ret _) => apply steps_ret; assumption
    | |- steps _ (raise _) => apply steps_raise; assumption
    | |- steps _ (lift _) => apply steps_lift; assumption
    | |- steps _ next => apply steps_next; assumption
    | |- steps _ get_self => apply steps_get_self; assumption
    | |- steps _ (attr _) => apply steps_attr; assumption
    | |- steps _ budget => apply steps_budget; assumption
    | |- steps _ (while_next _ _ _ _) => apply steps_while_next; assumption
    | |- steps _ (skip_lines _ _) => apply steps_skip_lines; assumption
    | |- steps _ (init_list _ _) => apply steps_init_list; solve [auto]
    | |- steps _ (append_attr _ _ _) => unfold append_attr
    | |- steps _ (modify _) => apply steps_modify; intros; solve [auto]
    | |- steps _ (while_M _ _ _ _) =>
        apply steps_while_M; [assumption | assumption | intros | intros]
    | |- steps _ (for_fold _ _ _) =>
        apply steps_for_fold; [assumption | assumption | intros]
    | |- steps _ (if ?b then _ else _) => destruct b
    | |- steps _ (match ?x with _ => _ end) => destruct x
    end.

Lemma steps_append_last (v : float) : steps R (append_last v).
Proof. unfold append_last. steps_block. Qed.

Lemma steps_mp_energy (labels : list string) (i : Z) (line : string) :
  steps R (mp_energy convertor labels i line).
Proof. unfold mp_energy. steps_block. apply steps_append_last. Qed.

Lemma steps_extract_mp (line : string) : steps R (extract_mp convertor line).
Proof. unfold extract_mp. steps_block; apply steps_mp_energy. Qed.

Lemma steps_extract_mbpt (line : string) : steps R (extract_mbpt convertor line).
Proof. unfold extract_mbpt. steps_block. apply steps_append_last. Qed.

Lemma steps_extract_charge (line : string) : steps R (extract_charge line).
Proof. unfold extract_charge. steps_block. Qed.

Lemma steps_extract_etenergies (line : string) :
  steps R (extract_etenergies convertor line).
Proof. unfold extract_etenergies. steps_block. Qed.

Lemma steps_extract_etoscs (line : string) : steps R (extract_etoscs line).
Proof. unfold extract_etoscs. steps_block. Qed.

Lemma steps_extract_geovalues (line : string) : steps R (extract_geovalues line).
Proof. unfold extract_geovalues. steps_block. Qed.

Lemma steps_extend_at {A} (get : GAMESS -> option (list (list A)))
    (set : option (list (list A)) -> GAMESS -> GAMESS) (k : Z) (xs : list A) :
  (forall v g, R g (set v g)) -> steps R (extend_at get set k xs).
Proof. intros H. unfold extend_at. steps_block. Qed.

Lemma steps_mo_cols (spin base i : Z) (coeffs : string) :
  steps R (mo_cols spin base i coeffs).
Proof. unfold mo_cols. steps_block. Qed.

Lemma steps_mo_block (spin : Z) (readatombasis : bool) (base : Z) (line : string) :
  steps R (mo_block convertor spin readatombasis base line).
Proof.
  unfold mo_block. steps_block;
    first [apply steps_extend_at; solve [auto] | apply steps_mo_cols].
Qed.

Lemma steps_extract_eigenvectors (line : string) :
  steps R (extract_eigenvectors convertor line).
Proof. unfold extract_eigenvectors. steps_block; apply steps_mo_block. Qed.

Lemma steps_extract_homos (line : string) : steps R (extract_homos line).
Proof. unfold extract_homos. steps_block. Qed.

Lemma steps_extract_guess (line : string) : steps R (extract_guess line).
Proof. unfold extract_guess. steps_block. Qed.

Lemma steps_extract_natom (line : string) : steps R (extract_natom line).
Proof. unfold extract_natom. steps_block. Qed.

Lemma steps_overlap_set (r c : Z) (t : string) : steps R (overlap_set r c t).
Proof. unfold overlap_set. steps_block. Qed.

Lemma steps_overlap_row (base i : Z) (line : string) :
  steps R (overlap_row base i line).
Proof. unfold overlap_row. steps_block; apply steps_overlap_set. Qed.

Lemma steps_extract_overlap (line : string) : steps R (extract_overlap line).
Proof. unfold extract_overlap. steps_block. apply steps_overlap_row. Qed.

Lemma steps_extract_nbasis_chain (line : string) :
  steps R (extract_nbasis_chain line).
Proof. unfold extract_nbasis_chain. steps_block. apply steps_extract_overlap. Qed.

Lemma steps_ecp_pass (header : string) : steps R (ecp_pass header).
Proof. unfold ecp_pass. steps_block. Qed.

Lemma steps_extract_ecp (line : string) : steps R (extract_ecp line).
Proof. unfold extract_ecp. steps_block. apply steps_ecp_pass. Qed.

End OtherBlockSteps.

Section GeometrySteps.

Variable convertor : float -> string -> string -> float.
Variable R : GAMESS -> GAMESS -> Prop.
Hypothesis R_refl : forall g, R g g.
Hypothesis R_trans : forall g1 g2 g3, R g1 g2 -> R g2 g3 -> R g1 g3.

Hypothesis R_firststdorient : forall v g, R g (set_firststdorient v g).
Hypothesis R_atomcoords : forall v g, R g (set_atomcoords v g).
Hypothesis R_atomnos : forall v g, R g (set_atomnos v g).
Hypothesis R_scftargets : forall v g, R g (set_scftargets v g).
Hypothesis R_scfvalues : forall v g, R g (set_scfvalues v g).

Lemma steps_extract_atomic_coordinates (line : string) :
  steps R (extract_atomic_coordinates convertor line).
Proof.
  unfold extract_atomic_coordinates, append_attr. steps_tac;
    apply steps_modify; intros g0; auto.
  destruct (atomcoords g0); [apply R_refl|].
  eapply R_trans; [apply R_atomcoords | apply R_atomnos].
Qed.

Lemma steps_extract_std_orientation (line : string) :
  steps R (extract_std_orientation line).
Proof.
  unfold extract_std_orientation, append_attr. steps_tac;
    apply steps_modify; intros g0; auto.
Qed.

Lemma steps_extract_scf (line : string) : steps R (extract_scf line).
Proof.
  unfold extract_scf, append_attr. steps_tac;
    first [ apply steps_init_list; solve [auto]
          | apply steps_modify; intros g0; auto ].
Qed.

End GeometrySteps.

(** Goes through the blocks of [extract] in their order; [special] is
    tried first on each block, the blocks it leaves are those that let
    every assignment through, which [set_tac] has to show of [R]. *)
Ltac extract_steps special refl trans set_tac :=
  unfold extract;
  do 24 (apply steps_bind;
         [ exact trans
         | first
             [ special
             | apply steps_extract_opttol; first [exact refl | exact trans | set_tac]
             | apply steps_extract_scfenergy; first [exact refl | exact trans | set_tac]
             | apply steps_extract_mp; first [exact refl | exact trans | set_tac]
             | apply steps_extract_ccd; first [exact refl | exact trans | set_tac]
             | apply steps_extract_ccsd; first [exact refl | exact trans | set_tac]
             | apply steps_extract_mbpt; first [exact refl | exact trans | set_tac]
             | apply steps_extract_charge; first [exact refl | exact trans | set_tac]
             | apply steps_extract_etenergies;
               first [exact refl | exact trans | set_tac]
             | apply steps_extract_cihamtyp; first [exact refl | exact trans | set_tac]
             | apply steps_extract_excited_state;
               first [exact refl | exact trans | set_tac]
             | apply steps_extract_etoscs; first [exact refl | exact trans | set_tac]
             | apply steps_extract_geovalues;
               first [exact refl | exact trans | set_tac]
             | apply steps_extract_atomic_coordinates;
               first [exact refl | exact trans | set_tac]
             | apply steps_extract_equilibrium;
               first [exact refl | exact trans | set_tac]
             | apply steps_extract_std_orientation;
               first [exact refl | exact trans | set_tac]
             | apply steps_extract_scf; first [exact refl | exact trans | set_tac]
             | apply steps_extract_vib; first [exact refl | exact trans | set_tac]
             | apply steps_extract_basis; first [exact refl | exact trans | set_tac]
             | apply steps_extract_eigenvectors;
               first [exact refl | exact trans | set_tac]
             | apply steps_extract_homos; first [exact refl | exact trans | set_tac]
             | apply steps_extract_guess; first [exact refl | exact trans | set_tac]
             | apply steps_extract_natom; first [exact refl | exact trans | set_tac]
             | apply steps_extract_nbasis_chain;
               first [exact refl | exact trans | set_tac]
             | apply steps_extract_ecp; first [exact refl | exact trans | set_tac] ]
         | intros ? ]);
  apply steps_ret; exact refl.


(** ** The geometry sequence (C8) *)

Lemma grows_refl (g : GAMESS) : grows g g.
Proof.
  intros H. split; [assumption|]. intros l Hl. exists []. now rewrite app_nil_r.
Qed.

Lemma grows_trans (g1 g2 g3 : GAMESS) : grows g1 g2 -> grows g2 g3 -> grows g1 g3.
Proof.
  intros H12 H23 H1. destruct (H12 H1) as [H2 Hl2]. destruct (H23 H2) as [H3 Hl3].
  split; [assumption|]. intros l Hl.
  destruct (Hl2 l Hl) as [m1 Hm1]. destruct (Hl3 _ Hm1) as [m2 Hm2].
  exists (m1 ++ m2)%list. now rewrite app_assoc.
Qed.

(** An assignment to an attribute other than the flag and the geometry
    sequence. *)
Ltac grows_set :=
  let v := fresh "v" in
  let g := fresh "g" in
  let H := fresh "H" in
  let l := fresh "l" in
  let Hl := fresh "Hl" in
  intros v g H; split; [exact H|]; intros l Hl; exists [];
  rewrite app_nil_r; exact Hl.

Lemma grows_append (v : geometry) :
  steps grows (append_attr atomcoords set_atomcoords v).
Proof.
  intros s. unfold append_attr, bind, get_self, lift, append_to, modify.
  destruct (atomcoords (self s)) as [l|] eqn:E; simpl; [|apply grows_refl].
  intros H. split; [exact H|]. intros l0 Hl0. rewrite E in Hl0.
  inversion Hl0; subst. exists [v]. reflexivity.
Qed.

Section Geometry.

Variable convertor : float -> string -> string -> float.

Lemma grows_atomic_coordinates (line : string) :
  steps grows (extract_atomic_coordinates convertor line).
Proof.
  unfold extract_atomic_coordinates.
  destruct (String.eqb (slice (Some 11) (Some 50) line)
              "ATOMIC                      COORDINATES");
    [|apply steps_ret, grows_refl].
  apply steps_bind; [exact grows_trans | |intros _].
  { apply steps_modify. intros g.
    destruct (atomcoords g) eqn:E; [apply grows_refl|].
    intros H. split; [exact H|]. intros l Hl. rewrite E in Hl. discriminate. }
  apply steps_bind; [exact grows_trans | apply steps_next, grows_refl | intros l0].
  apply steps_bind; [exact grows_trans | apply steps_next, grows_refl | intros l1].
  apply steps_bind;
    [exact grows_trans | apply steps_while_next, grows_refl | intros [cn l2]].
  apply steps_bind; [exact grows_trans | |intros _].
  { apply steps_modify. intros g H. split; [exact H|].
    intros l Hl. exists []. rewrite app_nil_r. exact Hl. }
  apply steps_bind; [exact grows_trans | apply grows_append | intros _].
  apply steps_ret, grows_refl.
Qed.

Lemma grows_std_orientation (line : string) :
  steps grows (extract_std_orientation line).
Proof.
  intros s. unfold extract_std_orientation.
  change ((g <- get_self ;; ?k) s) with (k (self s) s). cbv beta.
  unfold bind at 1. unfold get_self.
  destruct (String.eqb (slice (Some 1) (Some 29) line) "COORDINATES OF ALL ATOMS ARE"
            && negb (geooptfinished (self s)))%bool;
    [|apply grows_refl].
  destruct (firststdorient (self s)) eqn:E.
  - match goal with
    | |- match ?m with _ => _ end =>
        destruct m; try exact I; intros H; rewrite E in H; discriminate
    end.
  - assert (H : steps grows
       (ret tt ;;
        line0 <- next ;;
        hyphens <- next ;;
        line1 <- next ;;
        ' (coords, line2) <- while_next nonblank std_row line1 [] ;;
        append_attr atomcoords set_atomcoords coords ;; ret line2)).
    { apply steps_bind; [exact grows_trans | apply steps_ret, grows_refl | intros _].
      apply steps_bind; [exact grows_trans | apply steps_next, grows_refl | intros l0].
      apply steps_bind; [exact grows_trans | apply steps_next, grows_refl | intros l1].
      apply steps_bind; [exact grows_trans | apply steps_next, grows_refl | intros l2].
      apply steps_bind;
        [exact grows_trans | apply steps_while_next, grows_refl | intros [c l3]].
      apply steps_bind; [exact grows_trans | apply grows_append | intros _].
      apply steps_ret, grows_refl. }
    apply (H s).
Qed.

Lemma grows_extract_scf (line : string) : steps grows (extract_scf line).
Proof.
  unfold extract_scf, init_list, append_attr.
  repeat first
    [ apply steps_ret, grows_refl
    | apply steps_raise, grows_refl
    | apply steps_next, grows_refl
    | apply steps_lift, grows_refl
    | apply steps_get_self, grows_refl
    | apply steps_while_next, grows_refl
    | apply steps_modify; intros g0 H0;
      match goal with
      | |- context [match ?x with _ => _ end] => destruct x
      | _ => idtac
      end;
      (split; [exact H0|]; intros l0 Hl0; exists []; rewrite app_nil_r; exact Hl0)
    | apply steps_bind; [exact grows_trans | | intros ]
    | match goal with
      | |- steps _ (if ?b then _ else _) => destruct b
      | |- steps _ (match ?x with _ => _ end) => destruct x
      | |- steps _ (let (_, _) := ?x in _) => destruct x
      end ].
Qed.

(** Every call of [extract] keeps the flag cleared and the geometry
    sequence growing. *)
Lemma grows_extract (line : string) : steps grows (extract convertor line).
Proof.
  extract_steps
    ltac:(first [ apply grows_atomic_coordinates | apply grows_std_orientation
                | apply grows_extract_scf ])
    grows_refl grows_trans ltac:(grows_set).
Qed.

End Geometry.

(** The lines a loop went through when each pass adds one item. *)
Lemma while_lines_rows {A} (cond : string -> res bool)
    (body : string -> list A -> res (list A)) (P : string -> A -> Prop) :
  (forall l acc acc', body l acc = Val acc' ->
                      exists c, acc' = (acc ++ [c])%list /\ P l c) ->
  forall (rest : list string) (line : string) (acc acc' : list A)
         (line' : string) (rest' : list string),
    while_lines cond body line acc rest = (Val (acc', line'), rest') ->
    exists rows cs,
      line :: rest = (rows ++ line' :: rest')%list
      /\ acc' = (acc ++ cs)%list
      /\ Forall2 P rows cs.
Proof.
  intros Hbody.
  induction rest as [|l rest IH]; intros line acc acc' line' rest' H;
    rewrite while_lines_eq in H;
    destruct (cond line) as [[|]|e]; try (inversion H; fail).
  - destruct (body line acc); inversion H.
  - inversion H; subst. exists [], []. rewrite app_nil_r. repeat split. constructor.
  - destruct (body line acc) as [acc1|e] eqn:Hrow; [|inversion H].
    apply Hbody in Hrow as (c & -> & Hc).
    apply IH in H as (rows & cs & Hl & -> & Hall).
    exists (line :: rows), (c :: cs). rewrite Hl, <- app_assoc.
    repeat split. constructor; assumption.
  - inversion H; subst. exists [], []. rewrite app_nil_r. repeat split. constructor.
Qed.

Lemma std_row_appends (l : string) (acc acc' : geometry) :
  std_row l acc = Val acc' -> exists xyz, acc' = (acc ++ [xyz])%list /\ std_row_of l xyz.
Proof.
  unfold std_row, std_row_of. intros H.
  apply res_bind_Val in H as (xyz & Hx & H). inversion H; subst.
  exists xyz. split; [reflexivity | assumption].
Qed.

Section GeometryClaims.

Variable convertor : float -> string -> string -> float.

(** The first standard-orientation block: what was pushed before is
    dropped, the sequence is the geometry of the block. *)
Lemma first_std_orientation (line line' : string) (s s' : pstate) :
  slice (Some 1) (Some 29) line = "COORDINATES OF ALL ATOMS ARE" ->
  geooptfinished (self s) = false ->
  firststdorient (self s) = true ->
  extract_std_orientation line s = Ok line' s' ->
  firststdorient (self s') = false
  /\ exists (l0 l1 : string) (rows : list string) (g : geometry),
      inputfile s = (l0 :: l1 :: rows ++ line' :: inputfile s')%list
      /\ Forall2 std_row_of rows g
      /\ atomcoords (self s') = Some [g].
Proof.
  intros Htrig Hgeo Hfirst H. unfold extract_std_orientation in H.
  bind_ok H. inversion Hm; subst; clear Hm.
  rewrite Htrig, Hgeo, Hfirst in H. simpl in H.
  repeat m_step. simpl in *.
  apply (while_lines_rows nonblank std_row std_row_of std_row_appends) in Hloop
    as (rows & g' & Hrows & Hg & Hall).
  simpl in Hg. subst g.
  rewrite Hself2, Hself1, Hself0, Hself in Hattr. simpl in Hattr.
  inversion Hattr; subst l.
  split; [rewrite Hself2, Hself1, Hself0, Hself; reflexivity|].
  exists a0, a1, rows, g'.
  split; [rewrite Hnext, Hnext0, Hnext1, Hrows; reflexivity|].
  split; [assumption | reflexivity].
Qed.

(** An input-orientation block pushes its geometry at the end of the
    sequence, whatever the flag. *)
Lemma atomic_coordinates_appends (line line' : string) (s s' : pstate)
    (l : list geometry) :
  slice (Some 11) (Some 50) line = "ATOMIC                      COORDINATES" ->
  atomcoords (self s) = Some l ->
  extract_atomic_coordinates convertor line s = Ok line' s' ->
  firststdorient (self s') = firststdorient (self s)
  /\ exists g, atomcoords (self s') = Some (l ++ [g])%list.
Proof.
  intros Htrig Hl H. unfold extract_atomic_coordinates in H.
  rewrite Htrig, String.eqb_refl in H.
  repeat m_step. simpl in *. rewrite Hl in Hself. 
  rewrite Hself1, Hself0, Hself in *. rewrite Hl in Hattr.
  inversion Hattr; subst l0.
  split; [reflexivity|]. exists (fst p). reflexivity.
Qed.

End GeometryClaims.

(** C8, as the code has it: the first standard-orientation block drops
    what was pushed before it, so that the sequence is its geometry
    alone, and clears the flag; from a state with the flag cleared, every
    call of [extract] leaves the flag cleared and the sequence with the
    entries it had, in their places, with more at the end; and an
    input-orientation block pushes its geometry at the end of the
    sequence whatever the flag, so that after the first standard
    orientation it stays, also ahead of later ones. *)
Theorem geometry_sequence_after_first_standard
    (convertor : float -> string -> string -> float) :
  (forall (line line' : string) (s s' : pstate),
      slice (Some 1) (Some 29) line = "COORDINATES OF ALL ATOMS ARE" ->
      geooptfinished (self s) = false ->
      firststdorient (self s) = true ->
      extract_std_orientation line s = Ok line' s' ->
      firststdorient (self s') = false
      /\ exists (l0 l1 : string) (rows : list string) (g : geometry),
          inputfile s = (l0 :: l1 :: rows ++ line' :: inputfile s')%list
          /\ Forall2 std_row_of rows g
          /\ atomcoords (self s') = Some [g])
  /\ (forall (line : string) (s : pstate),
         firststdorient (self s) = false ->
         match extract convertor line s with
         | Ok _ s' | Raise _ s' =>
             firststdorient (self s') = false
             /\ forall l, atomcoords (self s) = Some l ->
                          exists more, atomcoords (self s') = Some (l ++ more)%list
         | Timeout => True
         end)
  /\ (forall (line line' : string) (s s' : pstate) (l : list geometry),
         slice (Some 11) (Some 50) line = "ATOMIC                      COORDINATES" ->
         atomcoords (self s) = Some l ->
         extract_atomic_coordinates convertor line s = Ok line' s' ->
         firststdorient (self s') = firststdorient (self s)
         /\ exists g, atomcoords (self s') = Some (l ++ [g])%list).
Proof.
  split; [exact first_std_orientation|]. split.
  - intros line s H. pose proof (grows_extract convertor line s) as G.
    destruct (extract convertor line s); try exact I; exact (G H).
  - apply atomic_coordinates_appends.
Qed.

(** C8, as the specification has it, fails on [geometry_log]: the parse
    ends with the flag cleared and three geometries, and the second one
    is the geometry the second input-orientation block pushed (in
    Angstrom), ahead of the geometry of the second standard-orientation
    block. *)
Lemma input_geometry_kept_after_standard :
  ~ placeholders_never_retained sample_convertor
  /\ exists s' : pstate,
    parse sample_convertor geometry_log new_GAMESS = Ok tt s'
    /\ firststdorient (self s') = false
    /\ atomcoords (self s')
       = Some [first_std_geometry; second_input_geometry; second_std_geometry]
    /\ (exists (line : string) (s1 : pstate),
          extract_atomic_coordinates sample_convertor
            (nth 11 geometry_log EmptyString)
            (mkState (skipn 12 geometry_log)
               (set_atomcoords (Some [first_std_geometry])
                  (set_firststdorient false new_GAMESS)))
          = Ok line s1
          /\ atomcoords (self s1)
             = Some [first_std_geometry; second_input_geometry]).
Proof.
  split.
  - intros H.
    specialize (H (nth 11 geometry_log EmptyString)
                  (nth 15 geometry_log EmptyString)
                  (mkState (skipn 12 geometry_log)
                     (set_atomcoords (Some [first_std_geometry])
                        (set_firststdorient false new_GAMESS)))
                  (mkState (skipn 16 geometry_log)
                     (set_atomnos (Some [6; 1])
                        (set_atomcoords
                           (Some [first_std_geometry; second_input_geometry])
                           (set_firststdorient false new_GAMESS))))
                  eq_refl).
    assert (E : extract_atomic_coordinates sample_convertor
                  (nth 11 geometry_log EmptyString)
                  (mkState (skipn 12 geometry_log)
                     (set_atomcoords (Some [first_std_geometry])
                        (set_firststdorient false new_GAMESS)))
                = Ok (nth 15 geometry_log EmptyString)
                    (mkState (skipn 16 geometry_log)
                       (set_atomnos (Some [6; 1])
                          (set_atomcoords
                             (Some [first_std_geometry; second_input_geometry])
                             (set_firststdorient false new_GAMESS)))))
      by (vm_compute; reflexivity).
    specialize (H E). simpl in H. inversion H.
  - eexists. split; [vm_compute; reflexivity|].
    split; [reflexivity|]. split; [vm_compute; reflexivity|].
    eexists. eexists. split; vm_compute; reflexivity.
Qed.

(** ** The shells shared between atoms (C5) *)

(** Reading the shells of an atom leaves the parser object as it is. *)
Lemma basis_shells_self (fuel : nat) (line : string) (gb : list shell)
    (shellsize : Z) (sym : option string) (s s' : pstate)
    (r : string * list shell * Z * option string) :
  basis_shells fuel line gb shellsize sym s = Ok r s' -> self s' = self s.
Proof.
  intros H.
  pose proof (steps_basis_shells (fun g g' => g' = g) (fun g => eq_refl)
                (fun g1 g2 g3 H12 H23 => eq_trans H23 H12)
                fuel line gb shellsize sym s) as G.
  rewrite H in G. exact G.
Qed.

(** One pass of the loop over the atoms: the description that starts at
    shell [shellno] and has [shellsize] shells is appended
    [1 + (shellno - shellcounter) / shellsize] times. *)
Lemma basis_atoms_pass (fuel : nat) (line blank l1 : string) (rest : list string)
    (shellcounter shellno shellsize : Z) (sym sym' : option string)
    (line' : string) (gb : list shell) (g : GAMESS) (s1 : pstate)
    (G : list (list shell)) :
  find "TOTAL NUMBER" line < 0 ->
  tok_int l1 0 = Val shellno ->
  basis_shells (S fuel) l1 [] 0 sym (mkState rest g)
  = Ok (line', gb, shellsize, sym') s1 ->
  shellsize <> 0 ->
  gbasis g = Some G ->
  basis_atoms (S fuel) line shellcounter sym (mkState (blank :: l1 :: rest) g)
  = basis_atoms fuel line' (shellno + shellsize) sym'
      (mkState (inputfile s1)
         (set_gbasis
            (Some (G ++ repeat gb
                          (Z.to_nat (1 + (shellno - shellcounter) / shellsize)))%list)
            g)).
Proof.
  intros Hline Hno Hshells Hsize HG.
  pose proof (basis_shells_self _ _ _ _ _ _ _ _ Hshells) as Hself. simpl in Hself.
  cbn [basis_atoms]. apply Z.ltb_lt in Hline. rewrite Hline.
  unfold bind at 1. unfold next at 1. cbn [inputfile self].
  unfold bind at 1. unfold next at 1. cbn [inputfile self].
  unfold bind at 1. unfold lift at 1. rewrite Hno.
  unfold bind at 1. rewrite Hshells.
  unfold bind at 1. unfold lift at 1. unfold numtoadd_of.
  apply Z.eqb_neq in Hsize. rewrite Hsize.
  unfold bind at 1. unfold get_self at 1.
  unfold bind at 1. unfold lift at 1. rewrite Hself, HG.
  unfold bind at 1. unfold modify at 1. rewrite Hself. reflexivity.
Qed.

(** When the first description starts at shell 1 and has 3 shells, and
    the second starts at shell 4, the gap is 0 for both and each is
    appended to [gbasis] once, the first before the second. *)
Lemma shells_1_to_3_then_4 (fuel : nat) (header blank1 l1 : string)
    (rest1 : list string) (g : GAMESS) (G : list (list shell))
    (name2 blank2 l2 last : string) (rest2 : list string)
    (gb1 gb2 : list shell) (size2 : Z) (sym1 sym2 : option string)
    (s1 s2 : pstate) :
  find "TOTAL NUMBER" header < 0 ->
  gbasis g = Some G ->
  tok_int l1 0 = Val 1 ->
  basis_shells (S (S fuel)) l1 [] 0 None (mkState rest1 g)
  = Ok (name2, gb1, 3, sym1) s1 ->
  find "TOTAL NUMBER" name2 < 0 ->
  inputfile s1 = blank2 :: l2 :: rest2 ->
  tok_int l2 0 = Val 4 ->
  basis_shells (S fuel) l2 [] 0 sym1
    (mkState rest2 (set_gbasis (Some (G ++ [gb1])%list) g))
  = Ok (last, gb2, size2, sym2) s2 ->
  size2 <> 0 ->
  0 <= find "TOTAL NUMBER" last ->
  numtoadd_of (1 - 1) 3 = Val 1
  /\ numtoadd_of (4 - (1 + 3)) size2 = Val 1
  /\ basis_atoms (S (S fuel)) header 1 None (mkState (blank1 :: l1 :: rest1) g)
     = Ok last (mkState (inputfile s2)
                  (set_gbasis (Some (G ++ [gb1; gb2])%list) g)).
Proof.
  intros Hhdr HG Hno1 Hsh1 Hname Hin1 Hno2 Hsh2 Hsize Hlast.
  split; [reflexivity|]. split.
  { unfold numtoadd_of. apply Z.eqb_neq in Hsize. rewrite Hsize. reflexivity. }
  rewrite (basis_atoms_pass (S fuel) header blank1 l1 rest1 1 1 3 None sym1 name2
             gb1 g s1 G Hhdr Hno1 Hsh1 ltac:(lia) HG).
  rewrite Hin1.
  change (Z.to_nat (1 + (1 - 1) / 3)) with 1%nat. cbn [repeat].
  rewrite (basis_atoms_pass fuel name2 blank2 l2 rest2 (1 + 3) 4 size2 sym1 sym2 last
             gb2 _ s2 (G ++ [gb1])%list Hname Hno2 Hsh2 Hsize eq_refl).
  replace (4 - (1 + 3)) with 0 by lia. rewrite Z.div_0_l by assumption.
  change (Z.to_nat (1 + 0)) with 1%nat. cbn [repeat].
  rewrite <- app_assoc. simpl app.
  destruct fuel; cbn [basis_atoms];
    (destruct (find "TOTAL NUMBER" last <? 0) eqn:E;
     [apply Z.ltb_lt in E; lia|]);
    unfold ret; f_equal; f_equal;
    destruct g; reflexivity.
Qed.

Lemma shells_1_to_3_then_4_witness :
  exists (last : string) (rest : list string) (gb1 gb2 : list shell) (size2 : Z),
    numtoadd_of (1 - 1) 3 = Val 1
    /\ numtoadd_of (4 - (1 + 3)) size2 = Val 1
    /\ basis_atoms 16 (nth 3 basis_log EmptyString) 1 None
         (mkState (nth 6 basis_log EmptyString :: nth 7 basis_log EmptyString
                   :: skipn 8 basis_log)
            (set_gbasis (Some []) new_GAMESS))
       = Ok last (mkState rest
                    (set_gbasis (Some ([] ++ [gb1; gb2])%list)
                       (set_gbasis (Some []) new_GAMESS))).
Proof.
  do 5 eexists.
  eapply (shells_1_to_3_then_4 14 (nth 3 basis_log EmptyString)
            (nth 6 basis_log EmptyString) (nth 7 basis_log EmptyString)
            (skipn 8 basis_log) (set_gbasis (Some []) new_GAMESS) []).
  - vm_compute. reflexivity.
  - reflexivity.
  - vm_compute. reflexivity.
  - vm_compute. reflexivity.
  - vm_compute. reflexivity.
  - vm_compute. reflexivity.
  - vm_compute. reflexivity.
  - vm_compute. reflexivity.
  - discriminate.
  - vm_compute. discriminate.
Defined.




(** ** The exclusion of rotations and translations (C6) *)

Lemma lslice_prefix {A} (k : Z) (xs : list A) :
  0 <= k <= Z.of_nat (List.length xs) ->
  lslice None (Some k) xs = firstn (Z.to_nat k) xs.
Proof.
  intros Hk. unfold lslice, clamp.
  destruct (k <? 0) eqn:E; [apply Z.ltb_lt in E; lia|].
  simpl skipn. f_equal. lia.
Qed.

Lemma lslice_suffix {A} (k : Z) (xs : list A) :
  0 <= k <= Z.of_nat (List.length xs) ->
  lslice (Some k) None xs = skipn (Z.to_nat k) xs.
Proof.
  intros Hk. unfold lslice, clamp.
  destruct (k <? 0) eqn:E; [apply Z.ltb_lt in E; lia|].
  replace (Z.to_nat (Z.max 0 (Z.min (Z.of_nat (List.length xs)) k)))
    with (Z.to_nat k) by lia.
  rewrite <- (length_skipn (Z.to_nat k) xs). apply firstn_all.
Qed.

(** The slices of the source cut the window out, and leave as many
    entries as the specification says. *)
Lemma exclude_window {A} (startrot endrot : Z) (xs : list A) :
  1 <= startrot -> startrot - 1 <= endrot ->
  endrot <= Z.of_nat (List.length xs) ->
  exclude startrot endrot xs = without_window startrot endrot xs
  /\ Z.of_nat (List.length (exclude startrot endrot xs))
     = Z.of_nat (List.length xs) - (endrot - startrot + 1).
Proof.
  intros H1 H2 H3. unfold exclude, without_window.
  rewrite lslice_prefix, lslice_suffix by lia. split; [reflexivity|].
  rewrite length_app, length_firstn, length_skipn. lia.
Qed.

(** What the last statements of the block leave when they return. *)
Lemma vib_exclude_Ok (startrot endrot : Z) (s s' : pstate)
    (fs irs : list float) (ds : list geometry) (u : unit) :
  vibfreqs (self s) = Some fs ->
  vibirs (self s) = Some irs ->
  vibdisps (self s) = Some ds ->
  vib_exclude startrot endrot s = Ok u s' ->
  vibfreqs (self s') = Some (exclude startrot endrot fs)
  /\ vibirs (self s') = Some (exclude startrot endrot irs)
  /\ vibdisps (self s') = Some (exclude startrot endrot ds)
  /\ match vibramans (self s) with
     | None => vibramans (self s') = None
     | Some (PyList rs) =>
         vibramans (self s') = Some (NdArray (exclude startrot endrot rs))
     | Some (NdArray _) => True
     end.
Proof.
  destruct s as [inp g].
  destruct g as [fso gof ham gt se cc sec0 sym0 ac an st sv vf vi vd vr gb
                   mp chg mul ete eto gv moe mos nm nb moc atb aon hom nat0 aoo
                   core].
  simpl. intros -> -> -> H.
  unfold vib_exclude, bind, get_self, lift, modify, ret, raise in H. simpl in H.
  destruct (rectangular (exclude startrot endrot ds)); [|discriminate].
  destruct vr as [[rs|rs]|]; simpl in H.
  - inversion H; subst. simpl. repeat split.
  - destruct (array_add _ _); inversion H; subst. simpl. repeat split.
  - inversion H; subst. simpl. repeat split.
Qed.

Section Vibrations.

Variable convertor : float -> string -> string -> float.

(** When the block returns, and before the exclusion the sequences
    held one entry for each of the [n] modes read, with the window
    [startrot] to [endrot] of the header inside these modes, then
    [vibfreqs], [vibirs], [vibdisps], and [vibramans] when present, are
    the sequences read with the entries [startrot - 1] up to [endrot]
    (counted from 0, the last one excluded) cut out, and each has
    [n - (endrot - startrot + 1)] entries. *)
Lemma vib_lengths_after_exclusion (line line' l : string) (s s1 s' : pstate)
    (startrot endrot : Z) (n : nat) (fs irs : list float) (ds : list geometry) :
  0 <= find "NORMAL COORDINATE ANALYSIS IN THE HARMONIC APPROXIMATION" line ->
  vib_read convertor line s = Ok (startrot, endrot, l) s1 ->
  vibfreqs (self s1) = Some fs ->
  vibirs (self s1) = Some irs ->
  vibdisps (self s1) = Some ds ->
  List.length fs = n ->
  List.length irs = n ->
  List.length ds = n ->
  ramans_ok n (vibramans (self s1)) ->
  1 <= startrot ->
  startrot - 1 <= endrot ->
  endrot <= Z.of_nat n ->
  extract_vib convertor line s = Ok line' s' ->
  let m := Z.of_nat n - (endrot - startrot + 1) in
  (exists fs' irs' ds',
      vibfreqs (self s') = Some fs' /\ fs' = without_window startrot endrot fs
      /\ vibirs (self s') = Some irs' /\ irs' = without_window startrot endrot irs
      /\ vibdisps (self s') = Some ds' /\ ds' = without_window startrot endrot ds
      /\ Z.of_nat (List.length fs') = m
      /\ Z.of_nat (List.length irs') = m
      /\ Z.of_nat (List.length ds') = m)
  /\ match vibramans (self s1) with
     | Some rs =>
         exists rs', vibramans (self s') = Some (NdArray rs')
                     /\ rs' = without_window startrot endrot (items rs)
                     /\ Z.of_nat (List.length rs') = m
     | None => vibramans (self s') = None
     end.
Proof.
  intros Htrig Hread Hfs Hirs Hds Lfs Lirs Lds Hram H1 H2 H3 H m.
  unfold extract_vib in H. apply Z.leb_le in Htrig. rewrite Htrig in H.
  unfold bind at 1 in H. rewrite Hread in H.
  bind_ok H. inversion H; subst; clear H.
  destruct (vib_exclude_Ok _ _ _ _ _ _ _ _ Hfs Hirs Hds Hm)
    as (Ef & Ei & Ed & Er).
  destruct (exclude_window startrot endrot fs H1 H2 ltac:(lia)) as [Wf Nf].
  destruct (exclude_window startrot endrot irs H1 H2 ltac:(lia)) as [Wi Ni].
  destruct (exclude_window startrot endrot ds H1 H2 ltac:(lia)) as [Wd Nd].
  split.
  - exists (exclude startrot endrot fs), (exclude startrot endrot irs),
      (exclude startrot endrot ds).
    unfold m. repeat split; try assumption; lia.
  - destruct (vibramans (self s1)) as [[rs|rs]|]; simpl in Hram.
    + destruct (exclude_window startrot endrot rs H1 H2 ltac:(lia)) as [Wr Nr].
      exists (exclude startrot endrot rs). unfold m. simpl.
      repeat split; try assumption; lia.
    + contradiction.
    + assumption.
Qed.

End Vibrations.

Lemma vib_lengths_after_exclusion_witness :
  exists (line' l : string) (s1 s' : pstate) (fs irs : list float)
         (ds : list geometry),
    vib_read sample_convertor vib_line vib_start = Ok (1, 2, l) s1
    /\ vibfreqs (self s1) = Some fs
    /\ vibirs (self s1) = Some irs
    /\ vibdisps (self s1) = Some ds
    /\ extract_vib sample_convertor vib_line vib_start = Ok line' s'
    /\ (exists fs' irs' ds',
           vibfreqs (self s') = Some fs' /\ fs' = without_window 1 2 fs
           /\ vibirs (self s') = Some irs' /\ irs' = without_window 1 2 irs
           /\ vibdisps (self s') = Some ds' /\ ds' = without_window 1 2 ds
           /\ Z.of_nat (List.length fs') = Z.of_nat 3 - (2 - 1 + 1)
           /\ Z.of_nat (List.length irs') = Z.of_nat 3 - (2 - 1 + 1)
           /\ Z.of_nat (List.length ds') = Z.of_nat 3 - (2 - 1 + 1))
    /\ match vibramans (self s1) with
       | Some rs =>
           exists rs', vibramans (self s') = Some (NdArray rs')
                       /\ rs' = without_window 1 2 (items rs)
                       /\ Z.of_nat (List.length rs') = Z.of_nat 3 - (2 - 1 + 1)
       | None => vibramans (self s') = None
       end.
Proof.
  do 7 eexists.
  assert (Hread : vib_read sample_convertor vib_line vib_start = Ok (1, 2, _) _)
    by (vm_compute; reflexivity).
  assert (Hrun : extract_vib sample_convertor vib_line vib_start = Ok _ _)
    by (vm_compute; reflexivity).
  split; [exact Hread|].
  split; [reflexivity|]. split; [reflexivity|]. split; [reflexivity|].
  split; [exact Hrun|].
  apply (vib_lengths_after_exclusion sample_convertor vib_line _ _ vib_start _ _
           1 2 3 _ _ _ ltac:(vm_compute; discriminate) Hread
           eq_refl eq_refl eq_refl eq_refl eq_refl eq_refl eq_refl
           ltac:(lia) ltac:(lia) ltac:(lia) Hrun).
Defined.


Section VibrationSlices.

Variable convertor : float -> string -> string -> float.



End VibrationSlices.



(** ** The loop budgets are never exhausted *)

Lemma budget_ret {A} (a : A) : within_budget (ret a).
Proof. intros s. unfold within_budget_at, ret. lia. Qed.

Lemma budget_raise {A} (e : exn) : within_budget (@raise A e).
Proof. intros s. unfold within_budget_at, raise. lia. Qed.

Lemma budget_lift {A} (r : res A) : within_budget (lift r).
Proof. intros s. unfold within_budget_at, lift. destruct r; lia. Qed.

Lemma budget_get_self : within_budget get_self.
Proof. intros s. unfold within_budget_at, get_self. lia. Qed.

Lemma budget_modify (f : GAMESS -> GAMESS) : within_budget (modify f).
Proof. intros s. unfold within_budget_at, modify. simpl. lia. Qed.

Lemma budget_next : within_budget next.
Proof.
  intros s. unfold within_budget_at, next.
  destruct (inputfile s) as [|l rest] eqn:E; simpl; rewrite ?E; simpl; lia.
Qed.

Lemma budget_at_bind {A B} (m : M A) (k : A -> M B) (s : pstate) :
  within_budget_at m s ->
  (forall a s1, m s = Ok a s1 -> within_budget_at (k a) s1) ->
  within_budget_at (bind m k) s.
Proof.
  unfold within_budget_at, bind. intros Hm Hk.
  destruct (m s) as [a s1|e s1|]; [|assumption|assumption].
  specialize (Hk a s1 eq_refl). destruct (k a s1); [lia | lia | assumption].
Qed.

Lemma budget_bind {A B} (m : M A) (k : A -> M B) :
  within_budget m -> (forall a, within_budget (k a)) -> within_budget (bind m k).
Proof.
  intros Hm Hk s. apply budget_at_bind; [apply Hm|]. intros a s1 _. apply Hk.
Qed.

Lemma while_lines_length {A} (cond : string -> res bool)
    (body : string -> A -> res A) :
  forall (rest : list string) (line : string) (acc : A),
    (List.length (snd (while_lines cond body line acc rest)) <= List.length rest)%nat.
Proof.
  induction rest as [|l rest IH]; intros line acc; simpl;
    destruct (cond line) as [[|]|e]; simpl; try lia;
    destruct (body line acc); simpl; try lia.
  specialize (IH l a). lia.
Qed.

Lemma budget_while_next {A} (cond : string -> res bool)
    (body : string -> A -> res A) (line : string) (acc : A) :
  within_budget (while_next cond body line acc).
Proof.
  intros s. unfold within_budget_at, while_next.
  pose proof (while_lines_length cond body (inputfile s) line acc) as H.
  destruct (while_lines cond body line acc (inputfile s)) as [[r|e] rest];
    simpl in *; exact H.
Qed.

Lemma budget_skip_lines (n : nat) : forall line, within_budget (skip_lines n line).
Proof.
  induction n as [|n IH]; intros line; simpl.
  - apply budget_ret.
  - apply budget_bind; [apply budget_next | intros l; apply IH].
Qed.

Lemma modes_lines_length :
  forall (rest : list string) (line : string) (warning : bool),
    (List.length (snd (modes_lines line warning rest)) <= List.length rest)%nat.
Proof.
  induction rest as [|l rest IH]; intros line warning; simpl;
    destruct (find "MODES" line =? -1); simpl; try lia.
  match goal with |- context [modes_lines l ?w rest] => specialize (IH l w) end.
  lia.
Qed.

Lemma budget_find_modes (line : string) : within_budget (find_modes line).
Proof.
  intros s. unfold within_budget_at, find_modes.
  pose proof (modes_lines_length (inputfile s) line false) as H.
  destruct (modes_lines line false (inputfile s)) as [[r|e] rest];
    simpl in *; exact H.
Qed.

Lemma budget_attr {A} (get : GAMESS -> option A) : within_budget (attr get).
Proof.
  intros s. unfold within_budget_at, attr, bind, get_self, lift.
  destruct (get (self s)); lia.
Qed.

Lemma budget_budget : within_budget budget.
Proof. intros s. unfold within_budget_at, budget. lia. Qed.

Lemma budget_for_fold {A B} (body : A -> B -> M B) :
  (forall x b, within_budget (body x b)) ->
  forall xs b, within_budget (for_fold xs body b).
Proof.
  intros Hb. induction xs as [|x xs IH]; intros b; cbn [for_fold].
  - apply budget_ret.
  - apply budget_bind; [apply Hb | intros b'; apply IH].
Qed.

Lemma consumes_within {A} (m : M A) : consumes m -> within_budget m.
Proof.
  intros H s. specialize (H s). unfold within_budget_at.
  destruct (m s); [lia | lia | assumption].
Qed.

Lemma consumes_next : consumes next.
Proof.
  intros s. unfold next.
  destruct (inputfile s) as [|l rest] eqn:E; simpl; rewrite ?E; simpl; lia.
Qed.

Lemma consumes_then {A B} (m : M A) (k : A -> M B) :
  consumes m -> (forall a, within_budget (k a)) -> consumes (bind m k).
Proof.
  intros Hm Hk s. unfold bind. specialize (Hm s).
  destruct (m s) as [a s1|e s1|]; [|assumption|assumption].
  specialize (Hk a s1). unfold within_budget_at in Hk.
  destruct (k a s1); [lia | lia | assumption].
Qed.

Lemma consumes_after {A B} (m : M A) (k : A -> M B) :
  within_budget m -> (forall a, consumes (k a)) -> consumes (bind m k).
Proof.
  intros Hm Hk s. unfold bind. specialize (Hm s). unfold within_budget_at in Hm.
  destruct (m s) as [a s1|e s1|]; [|assumption|assumption].
  specialize (Hk a s1). destruct (k a s1); [lia | lia | assumption].
Qed.

(** A loop whose passes read lines stays within the budget of the lines
    left. *)
Lemma budget_while_M {A} (cond : A -> M bool) (step : A -> M A) :
  (forall a, within_budget (cond a)) ->
  (forall a, consumes (step a)) ->
  forall (fuel : nat) (a : A) (s : pstate),
    (List.length (inputfile s) < fuel)%nat ->
    within_budget_at (while_M fuel cond step a) s.
Proof.
  intros Hc Hs. induction fuel as [|fuel IH]; intros a s Hfuel; [lia|].
  cbn [while_M]. apply budget_at_bind; [apply Hc|].
  intros c s1 H1. pose proof (Hc a s) as B1. unfold within_budget_at in B1.
  rewrite H1 in B1. destruct c; [|apply budget_ret].
  apply budget_at_bind; [apply consumes_within, Hs|].
  intros a' s2 H2. pose proof (Hs a s1) as B2. rewrite H2 in B2.
  apply IH. lia.
Qed.

(** A loop whose passes decrease a measure stays within a budget above
    the measure. *)
Lemma budget_while_measure {A} (mu : A -> nat) (cond : A -> M bool)
    (step : A -> M A) :
  (forall a, within_budget (cond a)) ->
  (forall a, within_budget (step a)) ->
  (forall a s s1 a' s', cond a s = Ok true s1 -> step a s1 = Ok a' s' ->
                        (mu a' < mu a)%nat) ->
  forall (fuel : nat) (a : A),
    (mu a < fuel)%nat -> within_budget (while_M fuel cond step a).
Proof.
  intros Hc Hs Hmu. induction fuel as [|fuel IH]; intros a Hfuel s; [lia|].
  cbn [while_M]. apply budget_at_bind; [apply Hc|].
  intros c s1 H1. destruct c; [|apply budget_ret].
  apply budget_at_bind; [apply Hs|].
  intros a' s2 H2. apply IH. specialize (Hmu a s s1 a' s2 H1 H2). lia.
Qed.

(** A computation that starts with a read leaves fewer lines. *)
Lemma next_then_consumes {A} (k : string -> M A) (s : pstate) :
  (forall l, within_budget (k l)) ->
  match (bind next k) s with
  | Ok _ s' => (List.length (inputfile s') < List.length (inputfile s))%nat
  | Raise _ s' => (List.length (inputfile s') <= List.length (inputfile s))%nat
  | Timeout => False
  end.
Proof.
  intros Hk. unfold bind, next. destruct (inputfile s) as [|l rest] eqn:E;
    [rewrite E; simpl; lia|].
  specialize (Hk l (mkState rest (self s))). unfold within_budget_at in Hk.
  destruct (k l (mkState rest (self s))); simpl in *;
    [lia | lia | assumption].
Qed.

(** Takes a goal [within_budget m] apart along the binds and the tests of [m]. *)
Ltac budget_tac :=
  repeat first
    [ apply budget_ret
    | apply budget_raise
    | apply budget_lift
    | apply budget_next
    | apply budget_get_self
    | apply budget_modify
    | apply budget_while_next
    | apply budget_skip_lines
    | apply budget_find_modes
    | apply budget_attr
    | apply budget_budget
    | apply budget_bind; [ | intros ]
    | match goal with
      | |- within_budget (if ?b then _ else _) => destruct b
      | |- within_budget (match ?x with _ => _ end) => destruct x
      | |- within_budget (let (_, _) := ?x in _) => destruct x
      end ].

Lemma budget_disp_axes : forall k q broken, within_budget (disp_axes k q broken).
Proof.
  induction k as [|k IH]; intros q broken; cbn [disp_axes]; [apply budget_ret|].
  apply budget_bind; [apply budget_next | intros l].
  apply budget_bind; [apply budget_lift | intros b].
  apply budget_bind; [apply budget_lift | intros q'].
  apply IH.
Qed.

Lemma budget_disp_atoms : forall j p broken, within_budget (disp_atoms j p broken).
Proof.
  induction j as [|j IH]; intros p broken; cbn [disp_atoms]; [apply budget_ret|].
  apply budget_bind; [apply budget_disp_axes | intros [q b]].
  apply budget_bind; [destruct b; [apply budget_ret | apply budget_raise] | intros n].
  apply budget_bind; [apply budget_lift | intros p'].
  apply IH.
Qed.

Section Budgets.

Variable convertor : float -> string -> string -> float.

Lemma budget_vib_block_tail (blank l : string) :
  within_budget
    (let freq := lslice (Some 1) None (split (strip l)) in
     newfreq <- lift (newfreq_loop freq []) ;;
     g <- get_self ;;
     fs <- lift (match vibfreqs g with
                 | Some fs => Val fs
                 | None => Exc AttributeError
                 end) ;;
     modify (set_vibfreqs (Some (fs ++ newfreq)%list)) ;;
     line <- next ;;
     line <- (if 0 <=? find "REDUCED" line then next else ret line) ;;
     irIntensity <- lift (map_res float_of_str
                            (lslice (Some 2) None (split (strip line)))) ;;
     g <- get_self ;;
     irs <- lift (match vibirs g with
                  | Some irs => Val irs
                  | None => Exc AttributeError
                  end) ;;
     modify (set_vibirs
               (Some (irs ++ map (fun x => convertor x "Debye^2/amu-Angstrom^2" "km/mol")
                               irIntensity)%list)) ;;
     line <- next ;;
     line <- (if 0 <=? find "RAMAN" line then
                modify (fun g => match vibramans g with
                                 | None => set_vibramans (Some (PyList [])) g
                                 | Some _ => g
                                 end) ;;
                let ramanIntensity := split (strip line) in
                extend_vibramans
                  (map_res float_of_str (lslice (Some 2) None ramanIntensity)) ;;
                depolar <- next ;;
                next
              else ret line) ;;
     (if String.eqb line blank then ret tt else raise AssertionError) ;;
     g <- get_self ;;
     natom <- lift (match atomnos g with
                    | Some nos => Val (List.length nos)
                    | None => Exc AttributeError
                    end) ;;
     ' (p, broken) <- disp_atoms natom five None ;;
     n <- match broken with
          | Some b => ret (Z.of_nat (List.length b))
          | None => raise UnboundLocalError
          end ;;
     g <- get_self ;;
     ds <- lift (match vibdisps g with
                 | Some ds => Val ds
                 | None => Exc AttributeError
                 end) ;;
     modify (set_vibdisps (Some (ds ++ lslice None (Some n) p)%list)) ;;
     line <- skip_lines 10 line ;;
     blank <- next ;;
     freqNo <- next ;;
     ret (blank, freqNo, line)).
Proof.
  cbv zeta. unfold extend_vibramans.
  repeat first
    [ apply budget_disp_atoms
    | apply budget_ret
    | apply budget_raise
    | apply budget_lift
    | apply budget_next
    | apply budget_get_self
    | apply budget_modify
    | apply budget_skip_lines
    | apply budget_bind; [ | intros ]
    | match goal with
      | |- within_budget (if ?b then _ else _) => destruct b
      | |- within_budget (match ?x with _ => _ end) => destruct x
      | |- within_budget (let (_, _) := ?x in _) => destruct x
      end ].
Qed.

Lemma budget_vib_block (blank : string) (s : pstate) :
  match vib_block convertor blank s with
  | Ok _ s' => (List.length (inputfile s') < List.length (inputfile s))%nat
  | Raise _ s' => (List.length (inputfile s') <= List.length (inputfile s))%nat
  | Timeout => False
  end.
Proof.
  apply (next_then_consumes _ s (budget_vib_block_tail blank)).
Qed.

Lemma budget_vib_blocks :
  forall (fuel : nat) (blank freqNo line : string) (s : pstate),
    (List.length (inputfile s) < fuel)%nat ->
    within_budget_at (vib_blocks convertor fuel blank freqNo line) s.
Proof.
  induction fuel as [|fuel IH]; intros blank freqNo line s Hfuel; [lia|].
  cbn [vib_blocks]. destruct (find "SAYVETZ" freqNo =? -1); [|apply budget_ret].
  pose proof (budget_vib_block blank s) as Hb.
  apply budget_at_bind.
  - unfold within_budget_at.
    destruct (vib_block convertor blank s); [lia | lia | assumption].
  - intros [[blank' freqNo'] line'] s1 Hm. rewrite Hm in Hb.
    pose proof (IH blank' freqNo' line' s1 ltac:(lia)) as G.
    unfold within_budget_at in *.
    destruct (vib_blocks convertor fuel blank' freqNo' line' s1);
      [lia | lia | assumption].
Qed.

Lemma budget_until_blank (blank line : string) :
  within_budget (until_blank blank line).
Proof.
  unfold until_blank. apply budget_bind; [apply budget_while_next|].
  intros [u l]. apply budget_ret.
Qed.

Lemma budget_vib_read (line : string) : within_budget (vib_read convertor line).
Proof.
  unfold vib_read.
  do 3 (apply budget_bind; [apply budget_modify | intros _]).
  apply budget_bind; [apply budget_find_modes | intros [warning line0]].
  do 2 (apply budget_bind; [apply budget_lift | intros ?]).
  do 2 (apply budget_bind; [apply budget_next | intros ?]).
  apply budget_bind; [apply budget_until_blank | intros ?].
  apply budget_bind.
  { destruct warning; [|apply budget_ret].
    apply budget_bind; [apply budget_next | intros ?]. apply budget_until_blank. }
  intros ?.
  apply budget_bind; [apply budget_next | intros freqNo].
  intros s. unfold bind at 1. cbv beta iota.
  pose proof (budget_vib_blocks (S (List.length (inputfile s))) a1 freqNo a4 s
                ltac:(lia)) as G.
  unfold within_budget_at in *. unfold bind.
  destruct (vib_blocks convertor (S (List.length (inputfile s))) a1 freqNo a4 s);
    simpl; [lia | lia | assumption].
Qed.

Lemma budget_vib_exclude (startrot endrot : Z) :
  within_budget (vib_exclude startrot endrot).
Proof. unfold vib_exclude. budget_tac. Qed.

Lemma budget_extract_vib (line : string) :
  within_budget (extract_vib convertor line).
Proof.
  unfold extract_vib.
  destruct (0 <=? find "NORMAL COORDINATE ANALYSIS IN THE HARMONIC APPROXIMATION"
                    line); [|apply budget_ret].
  apply budget_bind; [apply budget_vib_read | intros [[startrot endrot] l]].
  apply budget_bind; [apply budget_vib_exclude | intros _]. apply budget_ret.
Qed.

Lemma within_budget_no_timeout {A} (m : M A) (s : pstate) :
  within_budget m -> m s <> Timeout.
Proof.
  intros H E. specialize (H s). unfold within_budget_at in H.
  rewrite E in H. exact H.
Qed.

(** The vibrational block never exhausts the budget of its loop. *)
Lemma vib_no_timeout (line : string) (s : pstate) :
  extract_vib convertor line s <> Timeout.
Proof. apply within_budget_no_timeout, budget_extract_vib. Qed.

Lemma budget_basis_shells :
  forall (fuel : nat) (line : string) (gb : list shell) (shellsize : Z)
         (sym : option string) (s : pstate),
    (List.length (inputfile s) < fuel)%nat ->
    within_budget_at (basis_shells fuel line gb shellsize sym) s.
Proof.
  induction fuel as [|fuel IH]; intros line gb shellsize sym s Hfuel; [lia|].
  cbn [basis_shells].
  destruct (negb (Nat.eqb (List.length (split line)) 1)
            && (find "TOTAL NUMBER" line <? 0))%bool; [|apply budget_ret].
  apply budget_at_bind; [apply budget_while_next|].
  intros [[coeff sym'] line'] s1 H1.
  pose proof (budget_while_next nonblank basis_row line ([], sym) s) as B1.
  unfold within_budget_at in B1. rewrite H1 in B1.
  apply budget_at_bind; [apply budget_lift|]. intros new s2 H2.
  apply lift_Ok in H2 as [_ ->].
  apply budget_at_bind; [apply budget_next|]. intros line'' s3 H3.
  apply next_Ok in H3 as [H3 _].
  apply IH. rewrite H3 in B1. simpl in B1. lia.
Qed.

Lemma budget_basis_atoms :
  forall (fuel : nat) (line : string) (shellcounter : Z) (sym : option string)
         (s : pstate),
    (List.length (inputfile s) < fuel)%nat ->
    within_budget_at (basis_atoms fuel line shellcounter sym) s.
Proof.
  induction fuel as [|fuel IH]; intros line shellcounter sym s Hfuel; [lia|].
  cbn [basis_atoms]. destruct (find "TOTAL NUMBER" line <? 0); [|apply budget_ret].
  apply budget_at_bind; [apply budget_next|]. intros blank s1 H1.
  apply next_Ok in H1 as [H1 _].
  apply budget_at_bind; [apply budget_next|]. intros line' s2 H2.
  apply next_Ok in H2 as [H2 _].
  apply budget_at_bind; [apply budget_lift|]. intros shellno s3 H3.
  apply lift_Ok in H3 as [_ ->].
  assert (L2 : (List.length (inputfile s2) < fuel)%nat).
  { rewrite H1 in Hfuel. rewrite H2 in Hfuel. simpl in Hfuel. lia. }
  pose proof (budget_basis_shells (S fuel) line' [] 0 sym s2 ltac:(lia)) as B.
  apply budget_at_bind; [exact B|].
  intros [[[line'' gb] shellsize] sym'] s4 H4.
  unfold within_budget_at in B. rewrite H4 in B.
  apply budget_at_bind; [apply budget_lift|]. intros numtoadd s5 H5.
  apply lift_Ok in H5 as [_ ->].
  apply budget_at_bind; [apply budget_get_self|]. intros g s6 H6.
  inversion H6; subst; clear H6.
  apply budget_at_bind; [apply budget_lift|]. intros l s7 H7.
  apply lift_Ok in H7 as [_ ->].
  apply budget_at_bind; [apply budget_modify|]. intros u s8 H8.
  inversion H8; subst; clear H8.
  apply IH. simpl. lia.
Qed.

Lemma budget_extract_basis (line : string) : within_budget (extract_basis line).
Proof.
  unfold extract_basis.
  destruct (String.eqb (slice (Some 5) (Some 21) line) "ATOMIC BASIS SET");
    [|apply budget_ret].
  apply budget_bind; [apply budget_modify | intros _].
  apply budget_bind; [apply budget_next | intros line0].
  apply budget_bind; [apply budget_while_next | intros [u line1]].
  apply budget_bind; [apply budget_next | intros blank].
  apply budget_bind; [apply budget_next | intros atomname].
  intros s0. unfold bind at 1. cbv beta iota.
  apply budget_basis_atoms. lia.
Qed.

(** The basis-set block never exhausts the budget of its loops. *)
Lemma basis_no_timeout (line : string) (s : pstate) :
  extract_basis line s <> Timeout.
Proof. apply within_budget_no_timeout, budget_extract_basis. Qed.

Lemma budget_opttol_loop (temp : list string) :
  forall xs i, within_budget (opttol_loop temp i xs).
Proof.
  induction xs as [|x xs IH]; intros i; cbn [opttol_loop]; [apply budget_ret|].
  apply budget_bind; [|intros _; apply IH].
  destruct (0 <=? find "OPTTOL" x); budget_tac.
Qed.

Lemma budget_with_budget {A} (k : nat -> M A) :
  (forall s, within_budget_at (k (S (List.length (inputfile s)))) s) ->
  within_budget (bind budget k).
Proof. intros H s. exact (H s). Qed.

(** Goes through a block along its binds and tests; the loops with a
    budget are left. *)
Ltac budget_block :=
  repeat match goal with
    | |- within_budget (bind budget _) => apply budget_with_budget; intros ?
    | |- within_budget (bind _ _) => apply budget_bind; [ | intros]
    | |- within_budget (ret _) => apply budget_ret
    | |- within_budget (raise _) => apply budget_raise
    | |- within_budget (lift _) => apply budget_lift
    | |- within_budget next => apply budget_next
    | |- within_budget get_self => apply budget_get_self
    | |- within_budget (attr _) => apply budget_attr
    | |- within_budget (modify _) => apply budget_modify
    | |- within_budget (while_next _ _ _ _) => apply budget_while_next
    | |- within_budget (skip_lines _ _) => apply budget_skip_lines
    | |- within_budget (init_list _ _) => unfold init_list
    | |- within_budget (append_attr _ _ _) => unfold append_attr
    | |- within_budget (for_fold _ _ _) => apply budget_for_fold; intros
    | |- within_budget (let _ := _ in _) => cbv zeta
    | |- within_budget (if ?b then _ else _) => destruct b
    | |- within_budget (match ?x with _ => _ end) => destruct x
    end.

Lemma budget_mp_energy (labels : list string) (i : Z) (line : string) :
  within_budget (mp_energy convertor labels i line).
Proof. unfold mp_energy, append_last. budget_block. Qed.

Lemma budget_extract_mp (line : string) : within_budget (extract_mp convertor line).
Proof.
  unfold extract_mp. budget_block.
  apply budget_while_M; [intros; apply budget_ret | | lia].
  intros _. apply consumes_then; [apply consumes_next|].
  intros l. budget_block; apply budget_mp_energy.
Qed.

Lemma budget_extract_mbpt (line : string) :
  within_budget (extract_mbpt convertor line).
Proof. unfold extract_mbpt, append_last. budget_block. Qed.

Lemma budget_extract_charge (line : string) : within_budget (extract_charge line).
Proof. unfold extract_charge. budget_block. Qed.

Lemma budget_extract_etenergies (line : string) :
  within_budget (extract_etenergies convertor line).
Proof.
  unfold extract_etenergies. budget_block.
  apply budget_while_M; [intros; apply budget_ret | | lia].
  intros l. apply consumes_after; [apply budget_lift | intros e].
  apply consumes_after; [budget_block | intros _; apply consumes_next].
Qed.

Lemma budget_extract_etoscs (line : string) : within_budget (extract_etoscs line).
Proof. unfold extract_etoscs. budget_block. Qed.

Lemma budget_extract_geovalues (line : string) :
  within_budget (extract_geovalues line).
Proof. unfold extract_geovalues. budget_block. Qed.

Lemma budget_mo_cols (spin base i : Z) (coeffs : string) :
  within_budget (mo_cols spin base i coeffs).
Proof.
  unfold mo_cols. apply budget_bind; [|intros; apply budget_ret].
  apply (budget_while_measure (fun j => Z.to_nat (len coeffs - j * 11))).
  - intros j. apply budget_ret.
  - intros j. budget_block.
  - intros j s s1 j' s' Hc Hs. inversion Hc as [Hlt]. clear Hc.
    repeat bind_ok Hs. inversion Hs; subst.
    apply Z.ltb_lt in Hlt. unfold len in *. lia.
  - unfold len. lia.
Qed.

Lemma budget_mo_block (spin : Z) (readatombasis : bool) (base : Z) (line : string) :
  within_budget (mo_block convertor spin readatombasis base line).
Proof. unfold mo_block, extend_at. budget_block; apply budget_mo_cols. Qed.

Lemma budget_extract_eigenvectors (line : string) :
  within_budget (extract_eigenvectors convertor line).
Proof. unfold extract_eigenvectors. budget_block; apply budget_mo_block. Qed.

Lemma budget_extract_homos (line : string) : within_budget (extract_homos line).
Proof. unfold extract_homos. budget_block. Qed.

Lemma budget_extract_guess (line : string) : within_budget (extract_guess line).
Proof. unfold extract_guess. budget_block. Qed.

Lemma budget_extract_natom (line : string) : within_budget (extract_natom line).
Proof. unfold extract_natom. budget_block. Qed.

Lemma budget_overlap_row (base i : Z) (line : string) :
  within_budget (overlap_row base i line).
Proof. unfold overlap_row, overlap_set. budget_block. Qed.

Lemma budget_extract_overlap (line : string) :
  within_budget (extract_overlap line).
Proof.
  unfold extract_overlap. budget_block.
  apply budget_at_bind.
  - apply budget_while_M; [intros [base l]; budget_block | | lia].
    intros [base l]. apply consumes_then; [apply consumes_next|].
    intros blank. budget_block. apply budget_overlap_row.
  - intros [base l] s1 _. apply budget_ret.
Qed.

Lemma budget_extract_nbasis_chain (line : string) :
  within_budget (extract_nbasis_chain line).
Proof. unfold extract_nbasis_chain. budget_block. apply budget_extract_overlap. Qed.

Lemma budget_ecp_pass (header : string) : consumes (ecp_pass header).
Proof.
  unfold ecp_pass.
  apply consumes_after; [apply budget_lift | intros atomnum].
  apply consumes_after; [budget_block | intros _].
  apply consumes_after; [budget_block | intros _].
  apply consumes_then; [apply consumes_next|].
  intros l. budget_block.
Qed.

Lemma budget_extract_ecp (line : string) : within_budget (extract_ecp line).
Proof.
  unfold extract_ecp. budget_block.
  apply budget_at_bind.
  - apply budget_while_M; [intros [header l]; budget_block | | lia].
    intros [header l]. apply budget_ecp_pass.
  - intros [header l] s1 _. apply budget_ret.
Qed.

Lemma budget_extract (line : string) : within_budget (extract convertor line).
Proof.
  unfold extract.
  apply budget_bind; [|intros ?].
  { unfold extract_opttol.
    destruct (0 <=? find "OPTTOL" line); [|apply budget_ret].
    apply budget_bind; [apply budget_get_self | intros g].
    destruct (geotargets g); [apply budget_ret|].
    apply budget_bind; [apply budget_opttol_loop | intros _; apply budget_ret]. }
  apply budget_bind; [unfold extract_scfenergy, init_list, append_attr; budget_tac
                     | intros ?].
  apply budget_bind; [apply budget_extract_mp | intros ?].
  apply budget_bind; [unfold extract_ccd, init_list, append_attr; budget_tac
                     | intros ?].
  apply budget_bind; [unfold extract_ccsd, init_list, append_attr; budget_tac
                     | intros ?].
  apply budget_bind; [apply budget_extract_mbpt | intros ?].
  apply budget_bind; [apply budget_extract_charge | intros ?].
  apply budget_bind; [apply budget_extract_etenergies | intros ?].
  apply budget_bind; [unfold extract_cihamtyp; budget_tac | intros ?].
  apply budget_bind;
    [unfold extract_excited_state, init_list, append_attr; budget_tac | intros ?].
  apply budget_bind; [apply budget_extract_etoscs | intros ?].
  apply budget_bind; [apply budget_extract_geovalues | intros ?].
  apply budget_bind;
    [unfold extract_atomic_coordinates, init_list, append_attr; budget_tac
    | intros ?].
  apply budget_bind; [unfold extract_equilibrium; budget_tac | intros ?].
  apply budget_bind;
    [unfold extract_std_orientation, init_list, append_attr; budget_tac | intros ?].
  apply budget_bind; [unfold extract_scf, init_list, append_attr; budget_tac
                     | intros ?].
  apply budget_bind; [apply budget_extract_vib | intros ?].
  apply budget_bind; [apply budget_extract_basis | intros ?].
  apply budget_bind; [apply budget_extract_eigenvectors | intros ?].
  apply budget_bind; [apply budget_extract_homos | intros ?].
  apply budget_bind; [apply budget_extract_guess | intros ?].
  apply budget_bind; [apply budget_extract_natom | intros ?].
  apply budget_bind; [apply budget_extract_nbasis_chain | intros ?].
  apply budget_bind; [apply budget_extract_ecp | intros ?].
  apply budget_ret.
Qed.

Lemma budget_parse_lines :
  forall (fuel : nat) (s : pstate),
    (List.length (inputfile s) <= fuel)%nat ->
    within_budget_at (parse_lines convertor fuel) s.
Proof.
  induction fuel as [|fuel IH]; intros s Hfuel; unfold within_budget_at;
    destruct s as [inp g]; destruct inp as [|line rest]; simpl in *;
    try lia.
  pose proof (budget_extract line (mkState rest g)) as B.
  unfold within_budget_at in B. unfold bind.
  destruct (extract convertor line (mkState rest g)) as [u s1|e s1|];
    simpl in *; [|lia|exact B].
  pose proof (IH s1 ltac:(lia)) as G. unfold within_budget_at in G.
  destruct (parse_lines convertor fuel s1); [lia | lia | exact G].
Qed.

(** A parse never exhausts a budget. *)
Lemma parse_no_timeout (lines : list string) (g : GAMESS) :
  parse convertor lines g <> Timeout.
Proof.
  unfold parse. intros E.
  pose proof (budget_parse_lines (List.length lines)
                (mkState lines (before_parsing g)) (le_n _)) as B.
  unfold within_budget_at in B. rewrite E in B. exact B.
Qed.

End Budgets.

(** ** Whole calls of [extract] on the sample lines *)

(** Whenever the OPTTOL block sets [geotargets], the second entry is the
    quotient of 3 by the first. *)
Lemma extract_opttol_targets (line line' : string) (s s' : pstate) :
  extract_opttol line s = Ok line' s' ->
  geotargets (self s') = geotargets (self s)
  \/ exists opttol, geotargets (self s') = Some [opttol; (3 / opttol)%float].
Proof.
  unfold extract_opttol. intros H.
  destruct (0 <=? find "OPTTOL" line); [|inversion H; left; reflexivity].
  bind_ok H. inversion Hm; subst; clear Hm.
  destruct (geotargets (self s0)) eqn:E.
  - inversion H; subst. left. congruence.
  - bind_ok H. inversion H; subst; clear H. destruct a.
    apply opttol_loop_targets in Hm as [_ Hm]. rewrite E in Hm. exact Hm.
Qed.

(** The line with the CCSD energy does not fire the CCD block. *)
Lemma ccsd_line_is_not_ccd (line : string) :
  slice (Some 8) (Some 23) line = "CCSD    ENERGY:" ->
  slice (Some 12) (Some 23) line <> "CCD ENERGY:".
Proof.
  intros H F.
  pose proof (slice_get 8 23 line 4 " " ltac:(lia)) as G1.
  rewrite H in G1. specialize (G1 eq_refl).
  pose proof (slice_get 12 23 line 0 "C" ltac:(lia)) as G2.
  rewrite F in G2. specialize (G2 eq_refl).
  simpl in G1, G2. rewrite G1 in G2. discriminate.
Qed.

(** A call of [extract] on the CCSD line of the sample reads the two
    lines after it and leaves one coupled-cluster energy. *)
Lemma extract_ccsd_sample :
  exists (v3 : float) (s' : pstate),
    tok_float ccsd_t_round_line 2 = Val v3
    /\ extract sample_convertor ccsd_line
         (mkState [ccsd_t_square_line; ccsd_t_round_line] new_GAMESS)
       = Ok tt s'
    /\ inputfile s' = []
    /\ ccenergies (self s') = Some [sample_convertor v3 "hartree" "eV"].
Proof.
  eexists. eexists. split; [vm_compute; reflexivity|].
  split; [vm_compute; reflexivity|]. split; reflexivity.
Qed.

(** A parse of the truncated SCF section ends with [StopIteration], with
    one target and no entry in [scfvalues]. *)
Lemma parse_truncated_scf_sample :
  exists s' : pstate,
    parse sample_convertor (scf_line :: scf_truncated_lines) new_GAMESS
    = Raise StopIteration s'
    /\ inputfile s' = []
    /\ scfvalues (self s') = Some []
    /\ List.length (entries (scftargets (self s'))) = 1%nat.
Proof.
  eexists. split; [vm_compute; reflexivity|]. repeat split.
Qed.

(** * Further properties of the code *)

(** ** Symmetry labels *)

Lemma lower_ug_quote (c : ascii) : lower_ug c = "'"%char -> c = "'"%char.
Proof.
  unfold lower_ug. destruct (Ascii.eqb c "U"); [discriminate|].
  destruct (Ascii.eqb c "G"); [discriminate | trivial].
Qed.

Lemma lower_ug_idempotent (c : ascii) : lower_ug (lower_ug c) = lower_ug c.
Proof.
  unfold lower_ug.
  destruct (Ascii.eqb c "U") eqn:EU; [reflexivity|].
  destruct (Ascii.eqb c "G") eqn:EG; [reflexivity|].
  now rewrite EU, EG.
Qed.

Lemma map_lower_ug_idempotent (s : string) :
  map_string lower_ug (map_string lower_ug s) = map_string lower_ug s.
Proof.
  induction s as [|c s IH]; simpl; [reflexivity|].
  now rewrite IH, lower_ug_idempotent.
Qed.

Lemma map_lower_ug_quotes (s : string) :
  map_string lower_ug s = "''" -> s = "''".
Proof.
  destruct s as [|a [|b [|c s]]]; simpl; intros H; try discriminate.
  injection H as Ha Hb.
  apply lower_ug_quote in Ha. apply lower_ug_quote in Hb. now subst.
Qed.

(** X1: a normalised label is left as it is by a second normalisation. *)
Theorem normalisesym_idempotent (label v : string) :
  normalisesym label = Val v -> normalisesym v = Val v.
Proof.
  destruct label as [|c rest]; [discriminate|].
  rewrite normalisesym_cons. intros H. inversion H; subst; clear H.
  unfold normalize_rule.
  destruct (String.eqb rest "''") eqn:E.
  - reflexivity.
  - rewrite normalisesym_cons. unfold normalize_rule.
    destruct (String.eqb (map_string lower_ug rest) "''") eqn:E2.
    + apply String.eqb_eq, map_lower_ug_quotes in E2.
      apply String.eqb_neq in E. contradiction.
    + now rewrite map_lower_ug_idempotent.
Qed.

Lemma normalisesym_idempotent_witness :
  normalisesym "B1U" = Val "B1u" /\ normalisesym "B1u" = Val "B1u".
Proof.
  split; [reflexivity|]. apply (normalisesym_idempotent "B1U"). reflexivity.
Defined.

(** ** Triggers and the coupled-cluster cascade *)

Lemma eigenvectors_at_offset_10_witness :
  slice (Some 10) (Some 22) "          EIGENVECTORS" = "EIGENVECTORS"
  /\ eigenvectors_trigger "          EIGENVECTORS" = true.
Proof.
  split; [reflexivity|].
  apply (eigenvectors_at_offset_10 "          EIGENVECTORS"). reflexivity.
Defined.

Lemma ccsd_alone_witness :
  exists v1 : float,
    tok_float ccsd_line 2 = Val v1
    /\ extract_ccsd sample_convertor ccsd_line (mkState [" next line"] new_GAMESS)
       = Ok " next line"
           (mkState []
              (set_ccenergies
                 (Some (entries (ccenergies new_GAMESS)
                        ++ [sample_convertor v1 "hartree" "eV"])%list)
                 new_GAMESS)).
Proof.
  eexists. split; [vm_compute; reflexivity|].
  eapply (ccsd_alone sample_convertor ccsd_line " next line");
    [reflexivity | vm_compute; discriminate | vm_compute; reflexivity].
Defined.

Lemma ccsd_then_square_witness :
  exists v2 : float,
    tok_float ccsd_t_square_line 2 = Val v2
    /\ extract_ccsd sample_convertor ccsd_line
         (mkState [ccsd_t_square_line; " next line"] new_GAMESS)
       = Ok " next line"
           (mkState []
              (set_ccenergies
                 (Some (entries (ccenergies new_GAMESS)
                        ++ [sample_convertor v2 "hartree" "eV"])%list)
                 new_GAMESS)).
Proof.
  eexists. split; [vm_compute; reflexivity|].
  eapply (ccsd_then_square sample_convertor ccsd_line ccsd_t_square_line " next line");
    [reflexivity | reflexivity | vm_compute; discriminate
    | vm_compute; reflexivity | vm_compute; reflexivity].
Defined.

(** ** Relations kept by a whole call of [extract] *)

(** *** The flag [geooptfinished] *)

Lemma flag_kept_refl (g : GAMESS) : flag_kept g g.
Proof. intros H. exact H. Qed.

Lemma flag_kept_trans (g1 g2 g3 : GAMESS) :
  flag_kept g1 g2 -> flag_kept g2 g3 -> flag_kept g1 g3.
Proof. unfold flag_kept. auto. Qed.

Lemma flag_kept_equilibrium (line : string) :
  steps flag_kept (extract_equilibrium line).
Proof.
  unfold extract_equilibrium.
  destruct (String.eqb (slice (Some 12) (Some 40) line) "EQUILIBRIUM GEOMETRY LOCATED");
    [|apply steps_ret, flag_kept_refl].
  apply steps_bind; [exact flag_kept_trans | | intros _; apply steps_ret, flag_kept_refl].
  apply steps_modify. intros g _. reflexivity.
Qed.

(** *** The optimisation targets *)




(** *** The attributes that are only appended to *)

Lemma extends_refl {A} (a : option (list A)) : extends a a.
Proof. intros l H. exists []. now rewrite app_nil_r. Qed.

Lemma extends_trans {A} (a b c : option (list A)) :
  extends a b -> extends b c -> extends a c.
Proof.
  intros Hab Hbc l Hl. destruct (Hab l Hl) as [m1 H1].
  destruct (Hbc _ H1) as [m2 H2]. exists (m1 ++ m2)%list. now rewrite app_assoc.
Qed.

Lemma extends_init {A} (a : option (list A)) :
  extends a (match a with None => Some [] | Some l => Some l end).
Proof. destruct a; [apply extends_refl | intros l H; discriminate]. Qed.

Lemma extends_append {A} (a : option (list A)) (l : list A) (v : A) :
  a = Some l -> extends a (Some (l ++ [v])%list).
Proof. intros -> l0 H. inversion H; subst. now exists [v]. Qed.

Lemma append_only_refl (g : GAMESS) : append_only g g.
Proof.
  split; [|split; [|split; [|split; [|split]]]]; apply extends_refl.
Qed.

Lemma append_only_trans (g1 g2 g3 : GAMESS) :
  append_only g1 g2 -> append_only g2 g3 -> append_only g1 g3.
Proof.
  intros (A1 & A2 & A3 & A4 & A5 & A6) (B1 & B2 & B3 & B4 & B5 & B6).
  split; [|split; [|split; [|split; [|split]]]]; eapply extends_trans; eassumption.
Qed.

(** The two ways in which the blocks touch these attributes: the creation
    of an absent list and the [append]. *)
Ltac append_only_step :=
  let s := fresh "s" in
  intros s; unfold init_list, append_attr, bind, get_self, lift, append_to, modify;
  cbn;
  match goal with
  | |- context [match ?get (self s) with _ => _ end] =>
      destruct (get (self s)) eqn:?
  end; cbn;
  try apply append_only_refl;
  (split; [|split; [|split; [|split; [|split]]]]);
  first [ apply extends_refl
        | eapply extends_append; eassumption
        | intros ? ?; congruence ].

Ltac append_only_block :=
  repeat match goal with
    | |- steps _ (init_list _ _) => append_only_step
    | |- steps _ (append_attr _ _ _) => append_only_step
    | |- steps _ (bind _ _) =>
        apply steps_bind; [exact append_only_trans | | intros ]
    | |- steps _ (ret _) => apply steps_ret; exact append_only_refl
    | |- steps _ (raise _) => apply steps_raise; exact append_only_refl
    | |- steps _ (lift _) => apply steps_lift; exact append_only_refl
    | |- steps _ next => apply steps_next; exact append_only_refl
    | |- steps _ get_self => apply steps_get_self; exact append_only_refl
    | |- steps _ (while_next _ _ _ _) =>
        apply steps_while_next; exact append_only_refl
    | |- steps _ (skip_lines _ _) =>
        apply steps_skip_lines; [exact append_only_refl | exact append_only_trans]
    | |- steps _ (if ?b then _ else _) => destruct b
    | |- steps _ (match ?x with _ => _ end) => destruct x
    end.

Section AppendOnly.

Variable convertor : float -> string -> string -> float.

Lemma append_only_scfenergy (line : string) :
  steps append_only (extract_scfenergy convertor line).
Proof.
  unfold extract_scfenergy.
  append_only_block.
Qed.

Lemma append_only_ccd (line : string) : steps append_only (extract_ccd convertor line).
Proof.
  unfold extract_ccd.
  append_only_block.
Qed.

Lemma append_only_ccsd (line : string) : steps append_only (extract_ccsd convertor line).
Proof.
  unfold extract_ccsd.
  append_only_block.
Qed.

Lemma append_only_excited_state (line : string) :
  steps append_only (extract_excited_state line).
Proof.
  unfold extract_excited_state.
  append_only_block.
Qed.

Lemma append_only_scf (line : string) : steps append_only (extract_scf line).
Proof.
  unfold extract_scf.
  append_only_block.
Qed.

End AppendOnly.

Section Invariants.

Variable convertor : float -> string -> string -> float.

(** X5: no call of [extract] clears [geooptfinished]: once the line
    "EQUILIBRIUM GEOMETRY LOCATED" has set it, it stays set whatever is
    read afterwards, also when the call ends in an exception. *)
Theorem geooptfinished_never_cleared (line : string) :
  steps flag_kept (extract convertor line).
Proof.
  extract_steps ltac:(apply flag_kept_equilibrium)
                flag_kept_refl flag_kept_trans
                ltac:(intros ? ? H; exact H).
Qed.


(** X7: the energies, the excited-state data and the SCF data are
    append-only: a call of [extract] leaves what [scfenergies],
    [ccenergies], [etsecs], [etsyms], [scftargets] and [scfvalues] held in
    place and adds at the end only, also when it ends in an exception. *)
Theorem parsed_lists_append_only (line : string) :
  steps append_only (extract convertor line).
Proof.
  extract_steps
    ltac:(first [ apply append_only_scfenergy | apply append_only_ccd
                | apply append_only_ccsd | apply append_only_excited_state
                | apply append_only_scf ])
    append_only_refl append_only_trans
    ltac:(intros ? ?; (split; [|split; [|split; [|split; [|split]]]]);
          apply extends_refl).
Qed.

End Invariants.

(** ** Lines too short to start a block *)

Lemma substring_length_le_source (s : string) :
  forall n m : nat, (String.length (substring n m s) <= String.length s)%nat.
Proof.
  induction s as [|a s IH]; intros n m.
  - destruct n, m; simpl; lia.
  - destruct n as [|n].
    + destruct m as [|m]; simpl; [lia|]. specialize (IH 0%nat m). lia.
    + simpl. specialize (IH n m). lia.
Qed.

Lemma slice_length_le (i j : option Z) (s : string) :
  (String.length (slice i j s) <= String.length s)%nat.
Proof. unfold slice. apply substring_length_le_source. Qed.

Lemma rstrip_length_le (s : string) :
  (String.length (rstrip s) <= String.length s)%nat.
Proof.
  induction s as [|c s IH]; simpl; [lia|].
  destruct (rstrip s); [destruct (isspace c)|]; simpl in *; lia.
Qed.

Lemma find_short (sub s : string) :
  (String.length s < String.length sub)%nat -> find sub s = -1.
Proof.
  intros H. unfold find. destruct (String.index 0 sub s) as [n|] eqn:E; [|reflexivity].
  apply index_correct1 in E.
  pose proof (substring_length_le_source s n (String.length sub)) as L.
  rewrite E in L. lia.
Qed.

Lemma find_bound (sub s : string) :
  0 < len sub -> 0 <= find sub s -> find sub s + len sub <= len s.
Proof.
  unfold find, len. intros Hsub.
  destruct (String.index 0 sub s) as [n|] eqn:E; [|lia].
  intros _. apply index_correct1 in E.
  assert (L : forall (t : string) (n m : nat),
             String.length (substring n (S m) t) = S m ->
             (n + S m <= String.length t)%nat).
  { induction t as [|a t IH]; intros n0 m H.
    - destruct n0; simpl in H; discriminate.
    - destruct n0 as [|n0].
      + simpl in *. injection H as H. destruct m as [|m]; [lia|].
        apply (IH 0%nat) in H. lia.
      + simpl in *. apply IH in H. lia. }
  assert (Hl : String.length (substring n (String.length sub) s) = String.length sub)
    by now rewrite E.
  destruct (String.length sub) as [|m] eqn:Em; [lia|].
  apply L in Hl. lia.
Qed.

Lemma eqb_short (a p : string) :
  (String.length a < String.length p)%nat -> String.eqb a p = false.
Proof. intros H. apply String.eqb_neq. intros ->. lia. Qed.

Lemma slice_short (i j : option Z) (s p : string) :
  (String.length s < String.length p)%nat -> String.eqb (slice i j s) p = false.
Proof.
  intros H. apply eqb_short. pose proof (slice_length_le i j s). lia.
Qed.

Lemma bind_step {A B} (m : M A) (k : A -> M B) (s s1 : pstate) (a : A) :
  m s = Ok a s1 -> bind m k s = k a s1.
Proof. intros H. unfold bind. now rewrite H. Qed.

Section ShortLines.

Variable convertor : float -> string -> string -> float.
Variable line : string.
Hypothesis short : (String.length line < 6)%nat.

Lemma short_find (sub : string) :
  (6 <= String.length sub)%nat -> find sub line = -1.
Proof. intros H. apply find_short. lia. Qed.

Lemma short_find_at (sub : string) (n : Z) :
  0 <= n -> 0 < len sub -> 6 <= n + len sub -> (find sub line =? n) = false.
Proof.
  intros Hn Hs H. apply Z.eqb_neq. intros E.
  pose proof (find_bound sub line) as B. unfold len in *.
  destruct (String.length sub) eqn:Es; lia.
Qed.

Lemma short_slice (i j : option Z) (p : string) :
  (6 <= String.length p)%nat -> String.eqb (slice i j line) p = false.
Proof. intros H. apply slice_short. lia. Qed.

Lemma short_rstrip_slice (i j : option Z) (p : string) :
  (6 <= String.length p)%nat -> String.eqb (slice i j (rstrip line)) p = false.
Proof. intros H. apply slice_short. pose proof (rstrip_length_le line). lia. Qed.

(** No test of [extract] holds of the line. *)
Ltac short_block :=
  intros;
  unfold extract_opttol, extract_scfenergy, extract_mp, extract_ccd, extract_ccsd,
    extract_mbpt, extract_charge, extract_etenergies, extract_cihamtyp,
    extract_excited_state, extract_etoscs, extract_geovalues,
    extract_atomic_coordinates, extract_equilibrium, extract_std_orientation,
    extract_scf, extract_vib, extract_basis, extract_eigenvectors, extract_homos,
    extract_guess, extract_natom, extract_nbasis_chain, extract_ecp,
    mp_trigger, mbpt_trigger, charge_trigger, etenergies_trigger, etoscs_trigger,
    geovalues_trigger, eigenvectors_trigger, homos_trigger, guess_trigger,
    natom_trigger, ecp_trigger, contains;
  rewrite ?short_rstrip_slice, ?short_find, ?short_slice by (simpl; lia);
  rewrite ?short_find_at by (unfold len; simpl; lia);
  reflexivity.

Lemma short_line_blocks (s : pstate) :
  Forall (fun block : string -> M string => block line s = Ok line s)
    [ extract_opttol; extract_scfenergy convertor; extract_mp convertor;
      extract_ccd convertor; extract_ccsd convertor; extract_mbpt convertor;
      extract_charge; extract_etenergies convertor; extract_cihamtyp;
      extract_excited_state; extract_etoscs; extract_geovalues;
      extract_atomic_coordinates convertor; extract_equilibrium;
      extract_std_orientation; extract_scf; extract_vib convertor; extract_basis;
      extract_eigenvectors convertor; extract_homos; extract_guess; extract_natom;
      extract_nbasis_chain; extract_ecp ].
Proof. destruct s as [inp g]. repeat constructor; short_block. Qed.

(** X8: a line of fewer than six characters starts no block: [extract]
    returns with the parser object as it was and without reading a
    line. *)
Theorem short_line_ignored (s : pstate) : extract convertor line s = Ok tt s.
Proof.
  pose proof (short_line_blocks s) as U.
  repeat match type of U with
         | Forall _ (_ :: _) =>
             let U1 := fresh "U" in
             let U2 := fresh "U" in
             inversion U as [|? ? U1 U2]; subst; clear U; rename U2 into U
         end.
  unfold extract.
  repeat (erewrite bind_step; [|eassumption]).
  reflexivity.
Qed.

End ShortLines.

Lemma short_line_ignored_witness :
  (String.length " $END" < 6)%nat
  /\ extract sample_convertor " $END" (mkState [" next"] new_GAMESS)
     = Ok tt (mkState [" next"] new_GAMESS).
Proof.
  split; [simpl; lia|]. apply (short_line_ignored sample_convertor " $END").
  simpl. lia.
Defined.

(** ** Single blocks: errors and completed reads *)

Lemma lindex_absent (x : string) (xs : list string) :
  ~ In x xs -> lindex x xs = Exc ValueError.
Proof.
  induction xs as [|y ys IH]; intros H; simpl; [reflexivity|].
  destruct (String.eqb x y) eqn:E.
  - apply String.eqb_eq in E. subst. exfalso. apply H. now left.
  - rewrite IH; [reflexivity|]. intros Hin. apply H. now right.
Qed.

(** An invariant of the accumulator of a loop over lines. *)
Lemma while_lines_invariant {A} (cond : string -> res bool)
    (body : string -> A -> res A) (P : A -> Prop) :
  (forall l a a', body l a = Val a' -> P a -> P a') ->
  forall (rest : list string) (line : string) (acc acc' : A)
         (line' : string) (rest' : list string),
    P acc ->
    while_lines cond body line acc rest = (Val (acc', line'), rest') ->
    P acc'.
Proof.
  intros Hbody.
  induction rest as [|l rest IH]; intros line acc acc' line' rest' Hacc H;
    rewrite while_lines_eq in H;
    destruct (cond line) as [[|]|e]; try (inversion H; fail).
  - destruct (body line acc); inversion H.
  - inversion H; subst. assumption.
  - destruct (body line acc) as [acc1|e] eqn:Hrow; [|inversion H].
    eapply IH; [|eassumption]. eapply Hbody; eassumption.
  - inversion H; subst. assumption.
Qed.

Lemma map_res_length {A B} (f : A -> res B) :
  forall (l : list A) (ys : list B),
    map_res f l = Val ys -> List.length ys = List.length l.
Proof.
  induction l as [|x xs IH]; intros ys H; simpl in H.
  - inversion H. reflexivity.
  - apply res_bind_Val in H as (y & _ & H).
    apply res_bind_Val in H as (ys' & Hys & H). inversion H; subst.
    simpl. f_equal. apply IH. assumption.
Qed.

Lemma lslice_2_5_length {A} (xs : list A) :
  (List.length (lslice (Some 2%Z) (Some 5%Z) xs) <= 3)%nat.
Proof.
  unfold lslice. rewrite length_firstn. unfold clamp.
  change (2 <? 0) with false. change (5 <? 0) with false. cbv iota. lia.
Qed.

Section Blocks.

Variable convertor : float -> string -> string -> float.

(** X9: a line with "FINAL" at offset 1 and no token "IS" makes the
    energy block raise [ValueError]; by then [scfenergies] has been
    created if it was absent, and nothing has been appended or read. *)
Theorem final_energy_without_is (line : string) (s : pstate) :
  find "FINAL" line = 1 ->
  ~ In "IS" (split line) ->
  exists s',
    extract_scfenergy convertor line s = Raise ValueError s'
    /\ inputfile s' = inputfile s
    /\ scfenergies (self s') = Some (entries (scfenergies (self s))).
Proof.
  intros Hf Hin. unfold extract_scfenergy. rewrite Hf. simpl Z.eqb. cbv iota.
  unfold bind, init_list, modify, lift. rewrite (lindex_absent _ _ Hin).
  eexists. split; [reflexivity|]. split; [reflexivity|]. simpl.
  destruct (scfenergies (self s)) eqn:E; simpl; [exact E | reflexivity].
Qed.

(** X10: an EXCITED STATE line whose spin is neither 0 nor 1 leaves the
    local [sym] unbound: the block raises [UnboundLocalError] before it
    appends a symmetry or reads a line. *)
Theorem excited_state_other_spin (line : string) (s : pstate)
    (statenumber spin : Z) (x : float) :
  slice (Some 1) (Some 14) line = "EXCITED STATE" ->
  tok_int line 2 = Val statenumber ->
  tok_float line 7 = Val x ->
  int_of_float x = Val spin ->
  spin <> 0 -> spin <> 1 ->
  exists s',
    extract_excited_state line s = Raise UnboundLocalError s'
    /\ inputfile s' = inputfile s
    /\ entries (etsyms (self s')) = entries (etsyms (self s))
    /\ entries (etsecs (self s')) = entries (etsecs (self s)).
Proof.
  intros Ht Hn Hx Hs H0 H1. unfold extract_excited_state.
  rewrite Ht, String.eqb_refl.
  unfold bind, init_list, modify, lift, raise. rewrite Hn, Hx. simpl res_bind.
  rewrite Hs. apply Z.eqb_neq in H0, H1. rewrite H0, H1.
  eexists. split; [reflexivity|].
  destruct s as [inp g].
  destruct g as [fso gof ham gt se cc sec0 sym0 ac an st sv vf vi vd vr gb
                   mp chg mul ete eto gv moe mos nm nb moc atb aon hom nat0 aoo
                   core].
  destruct sec0, sym0; simpl; (split; [reflexivity | split; reflexivity]).
Qed.

Lemma scf_header_no_threshold (hdr : string) (table : list string) :
  0 <= find "ITER EX" hdr ->
  forall (pre : list string) (line : string) (tail : list string),
    Forall (fun l => find "ITER EX" l < 0 /\ is_conv_line l = false) pre ->
    (line :: tail = pre ++ hdr :: table)%list ->
    while_lines scf_header_cond scf_header_row line None tail
    = (Val (None, hdr), table).
Proof.
  intros Hhdr.
  assert (Hstop : scf_header_cond hdr = Val false).
  { unfold scf_header_cond. destruct (find "ITER EX" hdr <? 0) eqn:E;
      [apply Z.ltb_lt in E; lia | reflexivity]. }
  induction pre as [|p pre IH]; intros line tail Hall Heq.
  - simpl in Heq. inversion Heq; subst. rewrite while_lines_eq, Hstop. reflexivity.
  - simpl in Heq. inversion Heq; subst.
    inversion Hall as [|? ? [Hp Hc] Hpre]; subst.
    rewrite while_lines_eq. unfold scf_header_cond at 1.
    apply Z.ltb_lt in Hp. rewrite Hp.
    unfold scf_header_row at 1. fold (is_conv_line p). rewrite Hc.
    destruct pre as [|q pre].
    + apply (IH hdr table Hpre eq_refl).
    + apply (IH q (pre ++ hdr :: table)%list Hpre eq_refl).
Qed.

(** X11: when no line with "DENSITY CONV=" or "DENSITY MATRIX CONV="
    comes between the start of an SCF section and the header of its
    table, the local [scftarget] is unbound: the block raises
    [UnboundLocalError] at the header, with [scftargets] created if it was
    absent and nothing appended to it. *)
Theorem scf_without_threshold (line : string) (s : pstate)
    (pre : list string) (hdr : string) (table : list string) :
  slice (Some (-15)) None (rstrip line) = "SCF CALCULATION" ->
  inputfile s = (pre ++ hdr :: table)%list ->
  Forall (fun l => find "ITER EX" l < 0 /\ is_conv_line l = false) pre ->
  0 <= find "ITER EX" hdr ->
  exists s',
    extract_scf line s = Raise UnboundLocalError s'
    /\ inputfile s' = table
    /\ scftargets (self s') = Some (entries (scftargets (self s)))
    /\ scfvalues (self s') = scfvalues (self s).
Proof.
  intros Ht Hin Hall Hhdr. unfold extract_scf. rewrite Ht, String.eqb_refl.
  destruct s as [inp g]. simpl in Hin. subst inp.
  assert (Hloop : forall l tail, (l :: tail = pre ++ hdr :: table)%list ->
            while_lines scf_header_cond scf_header_row l None tail
            = (Val (None, hdr), table)).
  { intros l tail Heq. eapply scf_header_no_threshold; eassumption. }
  unfold bind, next, while_next. simpl inputfile.
  destruct (pre ++ hdr :: table)%list as [|l tail] eqn:E;
    [destruct pre; discriminate|].
  simpl. rewrite (Hloop l tail eq_refl).
  unfold init_list, modify, raise. simpl.
  eexists. split; [reflexivity|]. simpl.
  destruct (scftargets g) eqn:Et; simpl; repeat split; assumption.
Qed.

Lemma scf_table_row_values (row : string) (acc acc' : list (list float)) :
  scf_table_row row acc = Val acc' -> acc' = (acc ++ scf_row_values row)%list.
Proof.
  unfold scf_table_row, scf_row_values.
  destruct (int_of_str (slice (Some 0) (Some 4) row)).
  - destruct (tok_float row 5); simpl; intros H; inversion H. reflexivity.
  - intros H. inversion H. now rewrite app_nil_r.
Qed.



Lemma atomic_row_lengths (l : string) (a a' : geometry * list Z) :
  atomic_row convertor l a = Val a' ->
  List.length (fst a) = List.length (snd a)
  /\ Forall (fun xyz => (List.length xyz <= 3)%nat) (fst a) ->
  List.length (fst a') = List.length (snd a')
  /\ Forall (fun xyz => (List.length xyz <= 3)%nat) (fst a').
Proof.
  destruct a as [coords nos]. unfold atomic_row. intros H [Hlen Hall].
  apply res_bind_Val in H as (xyz & Hxyz & H).
  apply res_bind_Val in H as (t & _ & H).
  apply res_bind_Val in H as (z & _ & H).
  apply res_bind_Val in H as (n & _ & H).
  inversion H; subst. simpl in *. split.
  - rewrite !length_app. simpl. lia.
  - apply Forall_app. split; [assumption|]. constructor; [|constructor].
    rewrite length_map. apply map_res_length in Hxyz. rewrite Hxyz.
    apply lslice_2_5_length.
Qed.

(** X13: the input-orientation block leaves one atomic number for each
    row of the geometry it appends, and no row of that geometry has more
    than three coordinates. *)
Theorem atomic_coordinates_one_number_per_row (line line' : string)
    (s s' : pstate) :
  slice (Some 11) (Some 50) line = "ATOMIC                      COORDINATES" ->
  extract_atomic_coordinates convertor line s = Ok line' s' ->
  exists (coords : geometry) (nos : list Z),
    atomnos (self s') = Some nos
    /\ atomcoords (self s') = Some (entries (atomcoords (self s)) ++ [coords])%list
    /\ List.length coords = List.length nos
    /\ Forall (fun xyz => (List.length xyz <= 3)%nat) coords.
Proof.
  intros Htrig H. unfold extract_atomic_coordinates in H.
  rewrite Htrig, String.eqb_refl in H.
  repeat m_step.
  destruct p as [coords nos]. exists coords, nos.
  assert (Hinv : List.length coords = List.length nos
                 /\ Forall (fun xyz => (List.length xyz <= 3)%nat) coords).
  { apply (while_lines_invariant nonblank (atomic_row convertor)
             (fun a => List.length (fst a) = List.length (snd a)
                       /\ Forall (fun xyz => (List.length xyz <= 3)%nat) (fst a))
             atomic_row_lengths (inputfile s1) a0 ([], []) (coords, nos) line'
             (inputfile s2)); [|exact Hloop].
    split; [reflexivity | constructor]. }
  destruct Hinv as [Hlen Hall].
  simpl in *. rewrite Hself1, Hself0 in *. rewrite Hself in Hattr.
  assert (Hl : l = entries (atomcoords (self s))).
  { destruct (atomcoords (self s)) as [l0|] eqn:E; simpl in *.
    - rewrite E in Hattr. now inversion Hattr.
    - now inversion Hattr. }
  subst l. split; [reflexivity|]. split; [reflexivity|]. split; assumption.
Qed.

(** X14: once [geooptfinished] is set, the standard-orientation block
    does nothing, whatever the line: it returns the line with the parser
    object and the input as they were. *)
Theorem std_orientation_skipped_when_finished (line : string) (s : pstate) :
  geooptfinished (self s) = true ->
  extract_std_orientation line s = Ok line s.
Proof.
  intros H. unfold extract_std_orientation, bind, get_self. rewrite H.
  rewrite andb_false_r. reflexivity.
Qed.

End Blocks.

Lemma final_energy_without_is_witness :
  exists s',
    extract_scfenergy sample_convertor final_line_without_is
      (mkState [" next"] new_GAMESS) = Raise ValueError s'
    /\ inputfile s' = [" next"]
    /\ scfenergies (self s') = Some [].
Proof.
  apply (final_energy_without_is sample_convertor final_line_without_is
           (mkState [" next"] new_GAMESS)).
  - reflexivity.
  - vm_compute. intros [H|[H|[H|H]]]; try discriminate H. exact H.
Defined.

Lemma excited_state_other_spin_witness :
  exists s',
    extract_excited_state quintet_state_line (mkState excited_state_lines new_GAMESS)
    = Raise UnboundLocalError s'
    /\ inputfile s' = excited_state_lines
    /\ entries (etsyms (self s')) = []
    /\ entries (etsecs (self s')) = [].
Proof.
  apply (excited_state_other_spin quintet_state_line
           (mkState excited_state_lines new_GAMESS) 1 2 2%float);
    first [reflexivity | vm_compute; reflexivity | lia].
Defined.

Lemma scf_without_threshold_witness :
  exists s',
    extract_scf scf_line
      (mkState (EmptyString :: scf_header_line :: scf_rows) new_GAMESS)
    = Raise UnboundLocalError s'
    /\ inputfile s' = scf_rows
    /\ scftargets (self s') = Some []
    /\ scfvalues (self s') = None.
Proof.
  apply (scf_without_threshold scf_line
           (mkState (EmptyString :: scf_header_line :: scf_rows) new_GAMESS)
           [EmptyString] scf_header_line scf_rows).
  - reflexivity.
  - reflexivity.
  - repeat constructor.
  - vm_compute. discriminate.
Defined.


Lemma atomic_coordinates_one_number_per_row_witness :
  exists (line' : string) (s' : pstate),
    extract_atomic_coordinates sample_convertor
      " ATOM      ATOMIC                      COORDINATES (BOHR)"
      (mkState (tl geometry_log) new_GAMESS) = Ok line' s'
    /\ exists (coords : geometry) (nos : list Z),
         atomnos (self s') = Some nos
         /\ atomcoords (self s') = Some ([] ++ [coords])%list
         /\ List.length coords = List.length nos
         /\ Forall (fun xyz => (List.length xyz <= 3)%nat) coords.
Proof.
  eexists. eexists. split; [vm_compute; reflexivity|].
  eapply (atomic_coordinates_one_number_per_row sample_convertor
            " ATOM      ATOMIC                      COORDINATES (BOHR)" _
            (mkState (tl geometry_log) new_GAMESS));
    [reflexivity | vm_compute; reflexivity].
Defined.

Lemma std_orientation_skipped_when_finished_witness :
  extract_std_orientation " COORDINATES OF ALL ATOMS ARE (ANGS)"
    (mkState (tl geometry_log) (set_geooptfinished true new_GAMESS))
  = Ok " COORDINATES OF ALL ATOMS ARE (ANGS)"
      (mkState (tl geometry_log) (set_geooptfinished true new_GAMESS)).
Proof. apply std_orientation_skipped_when_finished. reflexivity. Defined.

(** ** Vibrations: the FREQUENCY row and the Raman intensities *)

(** X15: the loop over the tokens of a FREQUENCY row keeps one value for
    each token other than "I": an "I" replaces the value before it by its
    negation and adds none. *)
Theorem newfreq_loop_length (freq : list string) :
  forall acc r : list float,
    newfreq_loop freq acc = Val r ->
    List.length r
    = (List.length acc
       + List.length (filter (fun x => negb (String.eqb x "I")) freq))%nat.
Proof.
  induction freq as [|x xs IH]; intros acc r H; simpl in H.
  - inversion H. simpl. lia.
  - simpl. destruct (negb (String.eqb x "I")); simpl.
    + apply res_bind_Val in H as (v & _ & H). apply IH in H.
      rewrite length_app in H. simpl in H. lia.
    + destruct (rev acc) as [|last front] eqn:E; [discriminate|].
      apply IH in H. rewrite length_app, length_rev in H. simpl in H.
      assert (L : List.length acc = S (List.length front)).
      { rewrite <- (length_rev acc), E. reflexivity. }
      lia.
Qed.

Lemma newfreq_loop_length_witness :
  List.length [(-825.18)%float; 111.53%float]
  = (List.length (@nil float)
     + List.length (filter (fun x => negb (String.eqb x "I"))
                      ["825.18"; "I"; "111.53"]))%nat.
Proof.
  apply (newfreq_loop_length ["825.18"; "I"; "111.53"] []).
  vm_compute. reflexivity.
Defined.

(** X16: a value followed by "I" is stored negated, and a row that
    starts with "I" has no value to negate: [IndexError]. *)
Theorem newfreq_loop_imaginary :
  (forall (x : string) (v : float) (xs : list string) (acc : list float),
      float_of_str x = Val v ->
      newfreq_loop (x :: "I" :: xs) acc = newfreq_loop xs (acc ++ [(- v)%float])%list)
  /\ (forall xs : list string, newfreq_loop ("I" :: xs) [] = Exc IndexError).
Proof.
  split; [|reflexivity].
  intros x v xs acc Hv.
  assert (Hx : String.eqb x "I" = false).
  { destruct (String.eqb x "I") eqn:E; [|reflexivity].
    apply String.eqb_eq in E. subst. vm_compute in Hv. discriminate. }
  cbn [newfreq_loop]. rewrite Hx, Hv. simpl.
  rewrite rev_unit, rev_involutive. reflexivity.
Qed.

Section Raman.

Variable convertor : float -> string -> string -> float.

(** X17: when the vibrational block returns, [vibramans] is absent or
    an array: never the list the block extends. *)
Theorem vibramans_array_after_analysis (line line' : string) (s s' : pstate) :
  0 <= find "NORMAL COORDINATE ANALYSIS IN THE HARMONIC APPROXIMATION" line ->
  extract_vib convertor line s = Ok line' s' ->
  vibramans (self s') = None \/ exists a, vibramans (self s') = Some (NdArray a).
Proof.
  intros Htrig H. unfold extract_vib in H.
  apply Z.leb_le in Htrig. rewrite Htrig in H.
  bind_ok H. destruct a as [[startrot endrot] l]. bind_ok H.
  inversion H; subst; clear H Hm.
  destruct s0 as [inp g].
  destruct g as [fso gof ham gt se cc sec0 sym0 ac an st sv vf vi vd vr gb
                   mp chg mul ete eto gv moe mos nm nb moc atb aon hom nat0 aoo
                   core].
  unfold vib_exclude, bind, get_self, lift, modify, ret, raise in Hm0.
  simpl in Hm0.
  destruct vf; [|discriminate]. destruct vi; [|discriminate].
  destruct vd; [|discriminate]. simpl in Hm0.
  destruct (rectangular _); [|discriminate].
  destruct vr as [[rs|rs]|]; simpl in Hm0.
  - inversion Hm0; subst. simpl. right. eexists. reflexivity.
  - destruct (array_add _ _); inversion Hm0; subst. simpl. right.
    eexists. reflexivity.
  - inversion Hm0; subst. simpl. left. reflexivity.
Qed.


End Raman.

Lemma vibramans_array_after_analysis_witness :
  exists (line' : string) (s' : pstate),
    extract_vib sample_convertor vib_line vib_start = Ok line' s'
    /\ (vibramans (self s') = None
        \/ exists a, vibramans (self s') = Some (NdArray a)).
Proof.
  eexists. eexists. split; [vm_compute; reflexivity|].
  eapply (vibramans_array_after_analysis sample_convertor vib_line _ vib_start);
    [vm_compute; discriminate | vm_compute; reflexivity].
Defined.


(** ** Basis set: L shells and an atom without shells *)

Lemma basis_row_l (row : string) (coeff coeff' : coeffs) (sym sym' : option string)
    (n : nat) :
  getitem (split (strip row)) 1 = Val "L" ->
  basis_row row (coeff, sym) = Val (coeff', sym') ->
  l_coeff n coeff ->
  l_coeff (S n) coeff' /\ sym' = Some "L".
Proof.
  intros Hsym H Hinv. unfold basis_row in H. rewrite Hsym in H.
  cbn [res_bind] in H.
  change (negb (existsb (String.eqb "L") ["S"; "P"; "D"; "F"; "G"; "L"]))
    with false in H.
  change (String.eqb "L" "L") with true in H. cbv iota in H.
  assert (G : exists e cs cp,
             coeff' = setdefault_append "P" (e, cp)
                        (setdefault_append "S" (e, cs) coeff)
             /\ sym' = Some "L").
  { destruct (Nat.eqb (List.length (split (strip row))) 6).
    - apply res_bind_Val in H as (t3 & Ht3 & H).
      apply res_bind_Val in H as (e & He & H).
      apply res_bind_Val in H as (t4 & _ & H).
      apply res_bind_Val in H as (cs & _ & H).
      rewrite Ht3 in H. cbn [res_bind] in H. rewrite He in H. cbn [res_bind] in H.
      apply res_bind_Val in H as (t5 & _ & H).
      apply res_bind_Val in H as (cp & _ & H).
      inversion H; subst. exists e, cs, cp. split; reflexivity.
    - apply res_bind_Val in H as (t6 & _ & H).
      apply res_bind_Val in H as (c6 & _ & H).
      apply res_bind_Val in H as (t9 & _ & H).
      apply res_bind_Val in H as (c9 & _ & H).
      destruct (negb (Ascii.eqb c6 c9 && Ascii.eqb c9 ")")); [discriminate|].
      apply res_bind_Val in H as (t3 & _ & H).
      apply res_bind_Val in H as (e & He & H).
      apply res_bind_Val in H as (cs & _ & H).
      rewrite He in H. cbn [res_bind] in H.
      apply res_bind_Val in H as (cp & _ & H).
      inversion H; subst. exists e, cs, cp. split; reflexivity. }
  destruct G as (e & cs & cp & -> & ->). split; [|reflexivity].
  destruct n as [|n]; simpl in Hinv.
  - subst coeff. simpl. exists [(e, cs)], [(e, cp)]. repeat split.
  - destruct Hinv as (sp & pp & -> & Hexp & Hlen). simpl.
    exists (sp ++ [(e, cs)])%list, (pp ++ [(e, cp)])%list.
    split; [reflexivity|]. split.
    + rewrite !map_app, Hexp. reflexivity.
    + rewrite length_app. simpl. lia.
Qed.

Lemma l_rows_loop (stop : string) (rest : list string) :
  truthy (strip stop) = false ->
  forall (rows : list string) (line : string) (tail : list string)
         (coeff : coeffs) (sym : option string) (n : nat)
         (r : coeffs * option string * string) (rest' : list string),
    Forall l_row rows ->
    (line :: tail = rows ++ stop :: rest)%list ->
    l_coeff n coeff ->
    (rows <> [] \/ sym = Some "L") ->
    while_lines nonblank basis_row line (coeff, sym) tail = (Val r, rest') ->
    exists coeff',
      r = (coeff', Some "L", stop) /\ rest' = rest
      /\ l_coeff (n + List.length rows) coeff'.
Proof.
  intros Hstop.
  induction rows as [|row rows IH];
    intros line tail coeff sym n r rest' Hall Heq Hinv Hne H.
  - simpl in Heq. inversion Heq; subst.
    rewrite while_lines_eq in H. unfold nonblank in H. rewrite Hstop in H.
    inversion H; subst. destruct Hne as [Hne| ->]; [contradiction|].
    exists coeff. rewrite Nat.add_0_r. repeat split. assumption.
  - simpl in Heq. inversion Heq; subst.
    inversion Hall as [|? ? [Hnb Hsym] Hrows]; subst.
    rewrite while_lines_eq in H. unfold nonblank at 1 in H. rewrite Hnb in H.
    destruct (basis_row row (coeff, sym)) as [[coeff1 sym1]|e] eqn:Hrow;
      [|inversion H].
    destruct (basis_row_l row coeff coeff1 sym sym1 n Hsym Hrow Hinv) as [Hinv1 ->].
    destruct rows as [|q rows].
    + simpl in H.
      destruct (IH stop rest coeff1 (Some "L") (S n) r rest' Hrows eq_refl Hinv1
                  (or_intror eq_refl) H) as (coeff' & -> & -> & Hc).
      exists coeff'. repeat split.
      replace (n + List.length [row])%nat with (S n + 0)%nat by (simpl; lia).
      assumption.
    + destruct (IH q (rows ++ stop :: rest)%list coeff1 (Some "L") (S n) r rest'
                  Hrows eq_refl Hinv1 (or_intror eq_refl) H)
        as (coeff' & -> & -> & Hc).
      exists coeff'. repeat split.
      replace (n + List.length (row :: q :: rows))%nat
        with (S n + List.length (q :: rows))%nat by (simpl; lia).
      assumption.
Qed.

(** X19: a run of rows of an L shell (second token "L") up to a blank
    line gives two shells, S and then P, with one primitive for each row
    and the same exponents in both. *)
Theorem l_shell_gives_s_and_p (row : string) (rows : list string) (stop : string)
    (rest : list string) (sym : option string)
    (r : coeffs * option string * string) (rest' : list string) :
  Forall l_row (row :: rows) ->
  truthy (strip stop) = false ->
  while_lines nonblank basis_row row ([], sym) (rows ++ stop :: rest)
  = (Val r, rest') ->
  exists sp pp : list (float * float),
    shells_of (fst (fst r)) (snd (fst r)) = Val [("S", sp); ("P", pp)]
    /\ map fst sp = map fst pp
    /\ List.length sp = S (List.length rows)
    /\ snd r = stop /\ rest' = rest.
Proof.
  intros Hall Hstop H.
  assert (Hne : row :: rows <> [] \/ sym = Some "L") by (left; discriminate).
  destruct (l_rows_loop stop rest Hstop (row :: rows) row (rows ++ stop :: rest)%list
              [] sym 0%nat r rest' Hall eq_refl eq_refl Hne H)
    as (coeff' & Hr & Hrest & Hc).
  subst r rest'. cbn [Nat.add List.length l_coeff] in Hc.
  destruct Hc as (sp & pp & Hcoeff & Hexp & Hlen). subst coeff'.
  exists sp, pp.
  split; [reflexivity|]. split; [exact Hexp|]. split; [exact Hlen|].
  split; reflexivity.
Qed.

Lemma l_shell_gives_s_and_p_witness :
  exists (r : coeffs * option string * string) (rest' : list string),
    while_lines nonblank basis_row (nth 0 l_rows EmptyString) ([], None)
      ([nth 1 l_rows EmptyString] ++ EmptyString :: [" next"])%list
    = (Val r, rest')
    /\ exists sp pp : list (float * float),
         shells_of (fst (fst r)) (snd (fst r)) = Val [("S", sp); ("P", pp)]
         /\ map fst sp = map fst pp
         /\ List.length sp = S (List.length [nth 1 l_rows EmptyString])
         /\ snd r = EmptyString /\ rest' = [" next"].
Proof.
  eexists. eexists. split; [vm_compute; reflexivity|].
  apply (l_shell_gives_s_and_p (nth 0 l_rows EmptyString)
           [nth 1 l_rows EmptyString] EmptyString [" next"] None).
  - repeat constructor.
  - reflexivity.
  - vm_compute. reflexivity.
Defined.

(** X20: an atom whose first line has a single token, a number, has no
    shell: the division by the number of its shells raises
    [ZeroDivisionError], with [gbasis] as it was. *)
Theorem atom_without_shells (fuel : nat) (line blank l1 : string)
    (rest : list string) (g : GAMESS) (shellcounter shellno : Z)
    (sym : option string) :
  find "TOTAL NUMBER" line < 0 ->
  tok_int l1 0 = Val shellno ->
  List.length (split l1) = 1%nat ->
  basis_atoms (S fuel) line shellcounter sym (mkState (blank :: l1 :: rest) g)
  = Raise ZeroDivisionError (mkState rest g).
Proof.
  intros Hline Hno Hone. cbn [basis_atoms].
  apply Z.ltb_lt in Hline. rewrite Hline.
  unfold bind at 1. unfold next at 1. cbn [inputfile self].
  unfold bind at 1. unfold next at 1. cbn [inputfile self].
  unfold bind at 1. unfold lift at 1. rewrite Hno.
  unfold bind at 1. cbn [basis_shells]. rewrite Hone. simpl.
  reflexivity.
Qed.

Lemma atom_without_shells_witness :
  basis_atoms 1 " H         " 4 None
    (mkState [EmptyString; "   7"; " next"] (set_gbasis (Some []) new_GAMESS))
  = Raise ZeroDivisionError (mkState [" next"] (set_gbasis (Some []) new_GAMESS)).
Proof.
  apply (atom_without_shells 0 " H         " EmptyString "   7" [" next"]
           (set_gbasis (Some []) new_GAMESS) 4 7 None);
    first [reflexivity | vm_compute; reflexivity].
Defined.

(** ** The blocks for energies, charge, orbitals and core potentials *)

Section OtherBlocks.

Variable convertor : float -> string -> string -> float.

Ltac open_self g :=
  destruct g as [fso gof ham gt se cc sec0 sym0 ac an st sv vf vi vd vr gb
                   mp chg mul ete eto gv moe mos nm nb moc atb aon hom nat0 aoo
                   core].

Ltac open_state s g := destruct s as [inp g]; open_self g.

(** X21: a line with "MBPT(2) ENERGY:" at offset 8 whose third token is
    a number adds one list to [mpenergies], holding the converted
    number; no line is read. *)
Theorem mbpt_energy_appended (line : string) (s : pstate) (e : float) :
  mbpt_trigger line = true ->
  tok_float line 2 = Val e ->
  exists s',
    extract_mbpt convertor line s = Ok line s'
    /\ inputfile s' = inputfile s
    /\ mpenergies (self s')
       = Some (entries (mpenergies (self s)) ++ [[convertor e "hartree" "eV"]])%list.
Proof.
  intros Ht He. unfold extract_mbpt. rewrite Ht.
  unfold bind, init_list, append_attr, append_last, attr, modify, lift, get_self,
    append_to. rewrite He.
  open_state s g. destruct mp as [l|]; cbn.
  - rewrite rev_unit. cbn. rewrite rev_involutive.
    eexists. split; [reflexivity|]. split; reflexivity.
  - eexists. split; [reflexivity|]. split; reflexivity.
Qed.

(** X22: on a line with "CHARGE OF MOLECULE" at offset 1 the charge is
    the last token of the line and the multiplicity the last token of
    the line after it, which is read and not kept as the current line. *)
Theorem charge_then_multiplicity (line l : string) (rest : list string)
    (g : GAMESS) (c m : Z) :
  charge_trigger line = true ->
  tok_int line (-1) = Val c ->
  tok_int l (-1) = Val m ->
  extract_charge line (mkState (l :: rest) g)
  = Ok line (mkState rest (set_mult (Some m) (set_charge (Some c) g))).
Proof.
  intros Ht Hc Hm. unfold extract_charge. rewrite Ht.
  unfold bind, modify, lift, next. rewrite Hc. cbn. rewrite Hm. reflexivity.
Qed.

(** X23: in the Moller-Plesset block a line whose first token is
    "E(MP2)=" adds the converted second token to the last list of
    [mpenergies]. *)
Theorem mp2_energy_to_last_list (line : string) (s : pstate) (e : float)
    (front : list (list float)) (last : list float) :
  tok line 0 = Val "E(MP2)=" ->
  tok_float line 1 = Val e ->
  mpenergies (self s) = Some (front ++ [last])%list ->
  mp_energy convertor ["E(MP2)="] 1 line s
  = Ok tt (mkState (inputfile s)
             (set_mpenergies
                (Some (front ++ [last ++ [convertor e "hartree" "eV"]])%list)
                (self s))).
Proof.
  intros Ht He Hmp. unfold mp_energy, bind, lift. rewrite Ht. cbn [existsb].
  rewrite String.eqb_refl. cbn [orb]. rewrite He.
  unfold append_last, attr. unfold bind, get_self, lift, modify. cbv beta.
  rewrite Hmp, rev_unit, rev_involutive. reflexivity.
Qed.

(** X24: after a line with "TRANSITION FROM THE GROUND STATE TO EXCITED
    STATE" at offset 1 eight lines are read; the oscillator strength is
    the fourth token of the eighth, which becomes the current line. *)
Theorem etoscs_from_eighth_line (line l8 : string) (skipped rest : list string)
    (g : GAMESS) (n : Z) (f : float) :
  etoscs_trigger line = true ->
  tok_int line (-1) = Val n ->
  List.length skipped = 7%nat ->
  tok_float l8 3 = Val f ->
  extract_etoscs line (mkState (skipped ++ l8 :: rest)%list g)
  = Ok l8 (mkState rest (set_etoscs (Some (entries (etoscs g) ++ [f])%list) g)).
Proof.
  intros Ht Hn Hlen Hf. unfold extract_etoscs. rewrite Ht.
  do 7 (destruct skipped as [|? skipped]; [discriminate Hlen|]).
  destruct skipped; [|discriminate Hlen].
  unfold bind, init_list, append_attr, modify, lift, get_self, append_to.
  rewrite Hn. cbn. rewrite Hf.
  open_self g. destruct eto; reflexivity.
Qed.

(** X25: the test of the gradient block is [find(...) > 0]: a line that
    starts with "MAXIMUM GRADIENT" is not taken. *)
Theorem geovalues_not_at_line_start (line : string) (s : pstate) :
  find "MAXIMUM GRADIENT" line = 0 ->
  extract_geovalues line s = Ok line s.
Proof.
  intros H. unfold extract_geovalues, geovalues_trigger. rewrite H. reflexivity.
Qed.

(** X26: a line with "MAXIMUM GRADIENT" after its first character adds
    to [geovalues] the pair of the fourth and the eighth token of the
    stripped line. *)
Theorem geovalues_pair (line : string) (s : pstate) (t3 t7 : string)
    (a b : float) :
  0 < find "MAXIMUM GRADIENT" line ->
  getitem (split (strip line)) 3 = Val t3 -> float_of_str t3 = Val a ->
  getitem (split (strip line)) 7 = Val t7 -> float_of_str t7 = Val b ->
  extract_geovalues line s
  = Ok line (mkState (inputfile s)
               (set_geovalues (Some (entries (geovalues (self s)) ++ [[a; b]])%list)
                  (self s))).
Proof.
  intros Hf H3 Ha H7 Hb. unfold extract_geovalues, geovalues_trigger.
  apply Z.ltb_lt in Hf. rewrite Hf.
  unfold bind, init_list, append_attr, modify, lift, get_self, append_to.
  rewrite H3. cbn [res_bind]. rewrite Ha, H7. cbn [res_bind]. rewrite Hb.
  open_state s g. destruct gv; reflexivity.
Qed.


(** X28: on the line of the initial guess with "BOTH SET(S)" only the
    first entry of [homos] is kept. *)
Theorem guess_both_sets_keeps_first (line : string) (s : pstate) (h : Z)
    (hs : list Z) :
  guess_trigger line = true ->
  0 <= find "BOTH SET(S)" line ->
  homos (self s) = Some (h :: hs) ->
  extract_guess line s
  = Ok line (mkState (inputfile s) (set_homos (Some [h]) (self s))).
Proof.
  intros Ht Hb Hh. unfold extract_guess. rewrite Ht.
  apply Z.leb_le in Hb. rewrite Hb.
  unfold attr. unfold bind, get_self, lift, modify. cbv beta.
  rewrite Hh. reflexivity.
Qed.

(** X29: the molecular-orbital block on an object with neither [nmo] nor
    [nbasis] raises [AttributeError]; by then [moenergies] and [mosyms]
    have been reset to one empty list each and no line has been read. *)
Theorem eigenvectors_without_nbasis (line : string) (s : pstate) :
  eigenvectors_trigger line = true ->
  nmo (self s) = None ->
  nbasis (self s) = None ->
  exists s',
    extract_eigenvectors convertor line s = Raise AttributeError s'
    /\ inputfile s' = inputfile s
    /\ moenergies (self s') = Some [[]]
    /\ mosyms (self s') = Some [[]].
Proof.
  intros Ht Hnmo Hnb. unfold extract_eigenvectors. rewrite Ht.
  open_state s g. cbn in Hnmo, Hnb. subst nm nb.
  eexists. split; [reflexivity|]. repeat split.
Qed.

(** X30: the block of the core potentials on an object without
    [coreelectrons] makes it a list of [natom] zeros; when the third
    line after the title does not start with "PARAMETERS" the list stays
    so and the three lines are read. *)
Theorem ecp_core_electrons_zero (line dashes blank header : string)
    (rest : list string) (g : GAMESS) (n : Z) (t : string) :
  ecp_trigger line = true ->
  coreelectrons g = None ->
  natom g = Some n ->
  tok header 0 = Val t ->
  t <> "PARAMETERS" ->
  extract_ecp line (mkState (dashes :: blank :: header :: rest) g)
  = Ok line (mkState rest (set_coreelectrons (Some (repeat 0 (Z.to_nat n))) g)).
Proof.
  intros Ht Hc Hn Hh Hne. unfold extract_ecp. rewrite Ht.
  apply String.eqb_neq in Hne.
  unfold bind at 1. unfold get_self at 1. cbn [self]. rewrite Hc.
  unfold bind at 1. unfold bind at 1. unfold attr, bind, get_self, lift, modify,
    next, budget. cbn [self inputfile]. rewrite Hn. cbn [self inputfile].
  cbn [while_M List.length]. unfold bind, lift. rewrite Hh, Hne. reflexivity.
Qed.

End OtherBlocks.

Lemma mbpt_energy_appended_witness :
  exists e,
    tok_float mbpt_line 2 = Val e
    /\ exists s',
         extract_mbpt sample_convertor mbpt_line (mkState [" next"] new_GAMESS)
         = Ok mbpt_line s'
         /\ inputfile s' = [" next"]
         /\ mpenergies (self s') = Some ([] ++ [[sample_convertor e "hartree" "eV"]])%list.
Proof.
  eexists. split; [vm_compute; reflexivity|].
  apply (mbpt_energy_appended sample_convertor mbpt_line
           (mkState [" next"] new_GAMESS));
    vm_compute; reflexivity.
Defined.

Lemma charge_then_multiplicity_witness :
  extract_charge charge_line (mkState [mult_line; " next"] new_GAMESS)
  = Ok charge_line
      (mkState [" next"] (set_mult (Some 1) (set_charge (Some 0) new_GAMESS))).
Proof.
  apply (charge_then_multiplicity charge_line mult_line [" next"] new_GAMESS 0 1);
    vm_compute; reflexivity.
Defined.

Lemma mp2_energy_to_last_list_witness :
  exists e,
    tok_float mp2_line 1 = Val e
    /\ mp_energy sample_convertor ["E(MP2)="] 1 mp2_line
         (mkState [" next"] (set_mpenergies (Some [[]]) new_GAMESS))
       = Ok tt (mkState [" next"]
                  (set_mpenergies
                     (Some ([] ++ [[] ++ [sample_convertor e "hartree" "eV"]])%list)
                     (set_mpenergies (Some [[]]) new_GAMESS))).
Proof.
  eexists. split; [vm_compute; reflexivity|].
  apply (mp2_energy_to_last_list sample_convertor mp2_line
           (mkState [" next"] (set_mpenergies (Some [[]]) new_GAMESS)) _ [] []);
    vm_compute; reflexivity.
Defined.

Lemma etoscs_from_eighth_line_witness :
  exists f,
    tok_float strength_line 3 = Val f
    /\ extract_etoscs etoscs_line
         (mkState (etoscs_skipped ++ strength_line :: [" next"])%list new_GAMESS)
       = Ok strength_line
           (mkState [" next"] (set_etoscs (Some ([] ++ [f])%list) new_GAMESS)).
Proof.
  eexists. split; [vm_compute; reflexivity|].
  apply (etoscs_from_eighth_line etoscs_line strength_line etoscs_skipped
           [" next"] new_GAMESS 1);
    vm_compute; reflexivity.
Defined.

Lemma geovalues_not_at_line_start_witness :
  extract_geovalues "MAXIMUM GRADIENT =  0.0531540    RMS GRADIENT = 0.0189223"
    (mkState [" next"] new_GAMESS)
  = Ok "MAXIMUM GRADIENT =  0.0531540    RMS GRADIENT = 0.0189223"
      (mkState [" next"] new_GAMESS).
Proof.
  apply (geovalues_not_at_line_start
           "MAXIMUM GRADIENT =  0.0531540    RMS GRADIENT = 0.0189223"
           (mkState [" next"] new_GAMESS)).
  vm_compute. reflexivity.
Defined.

Lemma geovalues_pair_witness :
  exists a b,
    tok_float (strip gradient_line) 3 = Val a
    /\ tok_float (strip gradient_line) 7 = Val b
    /\ extract_geovalues gradient_line (mkState [" next"] new_GAMESS)
       = Ok gradient_line
           (mkState [" next"]
              (set_geovalues (Some ([] ++ [[a; b]])%list) new_GAMESS)).
Proof.
  eexists. eexists. split; [vm_compute; reflexivity|].
  split; [vm_compute; reflexivity|].
  apply (geovalues_pair gradient_line (mkState [" next"] new_GAMESS)
           "0.0531540" "0.0189223");
    vm_compute; reflexivity.
Defined.


Lemma guess_both_sets_keeps_first_witness :
  extract_guess guess_line
    (mkState [" next"] (set_homos (Some [34; 33]) new_GAMESS))
  = Ok guess_line
      (mkState [" next"]
         (set_homos (Some [34]) (set_homos (Some [34; 33]) new_GAMESS))).
Proof.
  apply (guess_both_sets_keeps_first guess_line
           (mkState [" next"] (set_homos (Some [34; 33]) new_GAMESS)) 34 [33]).
  - vm_compute. reflexivity.
  - vm_compute. discriminate.
  - reflexivity.
Defined.

Lemma eigenvectors_without_nbasis_witness :
  exists s',
    extract_eigenvectors sample_convertor eigenvectors_line
      (mkState [" next"] new_GAMESS) = Raise AttributeError s'
    /\ inputfile s' = [" next"]
    /\ moenergies (self s') = Some [[]]
    /\ mosyms (self s') = Some [[]].
Proof.
  apply (eigenvectors_without_nbasis sample_convertor eigenvectors_line
           (mkState [" next"] new_GAMESS));
    vm_compute; reflexivity.
Defined.

Lemma ecp_core_electrons_zero_witness :
  extract_ecp ecp_line
    (mkState [ "          --------------"; EmptyString;
               " THE ECP RUN REMOVES   20 CORE ELECTRONS"; " next" ]
       (set_natom (Some 3) new_GAMESS))
  = Ok ecp_line
      (mkState [" next"]
         (set_coreelectrons (Some (repeat 0 (Z.to_nat 3)))
            (set_natom (Some 3) new_GAMESS))).
Proof.
  apply (ecp_core_electrons_zero ecp_line "          --------------" EmptyString
           " THE ECP RUN REMOVES   20 CORE ELECTRONS" [" next"]
           (set_natom (Some 3) new_GAMESS) 3 "THE");
    first [discriminate | vm_compute; reflexivity].
Defined.
